(** * Offline handwriting recognition: stroke capture, stroke processing,
      recognition entry points and CTC collapsing.

    A shallow embedding of the JavaScript sources

    - [stroke_processor.js]  (classes [StrokeCapture] and [StrokeProcessor]),
    - [offline_handwriting.js] ([initOfflineHandwriting], the capture
      registry, [recognizeOffline], [submitFieldCanvasOffline]),
    - the Tesseract front end ([findStrokeBounds], the crop, binarisation
      and dilation of [preprocessCanvas], [recognizeFromCanvas],
      [cleanOCRResult]),
    - [recognizeHandwriting] of the application script,

    and a model of greedy CTC decoding written from the specification
    ([ctc_decoder.js] is not among the sources), followed by the properties
    the specification states about them (Part II) and by further
    properties of the sources (Part III).

    JavaScript numbers are kept behind the interface [Number]: every function
    is written once, over that interface, and is run on IEEE binary64
    values, which is what the browser computes with (the instance
    [float_Number]).  What holds whatever the arithmetic is proved over the
    interface; what depends on the arithmetic is proved on binary64. *)

From stdpp Require Import gmap strings.
From Stdlib Require Import ZArith NArith Lia List Sorted Bool Floats.
Import ListNotations.

#[local] Open Scope nat_scope.
#[local] Set Default Proof Using "Type*".

(* ===================================================================== *)
(** * Part I.  Definitions                                                *)
(* ===================================================================== *)

(** ** JavaScript numbers *)

(** The operations the sources apply to numbers.  [of_Z] stands for integer
    literals, [strict_eq] for [===], [geb] for [>=]; [math_min] and [math_max]
    are [Math.min] and [Math.max]. *)
Class Number (F : Type) := {
  of_Z : Z -> F;
  infinity : F;
  neg : F -> F;
  add : F -> F -> F;
  sub : F -> F -> F;
  mul : F -> F -> F;
  div : F -> F -> F;
  math_min : F -> F -> F;
  math_max : F -> F -> F;
  strict_eq : F -> F -> bool;
  geb : F -> F -> bool
}.

(** What the host supplies on top of arithmetic: [Math.sqrt], and the
    conversion performed by a store into a [Float32Array]. *)
Class Host (F : Type) := {
  math_sqrt : F -> F;
  fround : F -> F
}.

Declare Scope js_scope.
Delimit Scope js_scope with js.
Infix "+" := add : js_scope.
Infix "-" := sub : js_scope.
Infix "*" := mul : js_scope.
Infix "/" := div : js_scope.
Infix "===" := strict_eq (at level 70, no associativity) : js_scope.
Infix ">=" := geb : js_scope.
Notation "x !== y" := (negb (strict_eq x y)) (at level 70, no associativity) : js_scope.
Notation "0" := (of_Z 0%Z) : js_scope.
Notation "1" := (of_Z 1%Z) : js_scope.
Notation "2" := (of_Z 2%Z) : js_scope.

(** *** IEEE binary64: the numbers of the JavaScript engine *)

Module JSFloat.

(** Integer literals; every integer used below is exactly representable. *)
Definition of_Z (z : Z) : float :=
  SF2Prim (binary_normalize prec emax z 0 false).

(** [Math.min]: NaN if either argument is NaN, and [-0] is below [+0]. *)
Definition min (a b : float) : float :=
  if (is_nan a || is_nan b)%bool then nan
  else if PrimFloat.ltb a b then a
  else if PrimFloat.ltb b a then b
  else if (is_zero a && get_sign a)%bool then a else b.

(** [Math.max]: NaN if either argument is NaN, and [+0] is above [-0]. *)
Definition max (a b : float) : float :=
  if (is_nan a || is_nan b)%bool then nan
  else if PrimFloat.ltb a b then b
  else if PrimFloat.ltb b a then a
  else if (is_zero a && negb (get_sign a))%bool then a else b.

(** The value a [Float32Array] holds after [arr[i] = f]: [f] rounded to
    binary32 (24 bits of precision, exponents up to 128), ties to even. *)
Definition fround (f : float) : float :=
  match Prim2SF f with
  | S754_finite s m e =>
      SF2Prim (binary_normalize 24 128 (cond_Zopp s (Zpos m)) e s)
  | _ => f
  end.

End JSFloat.

#[export] Instance float_Number : Number float := {|
  of_Z := JSFloat.of_Z;
  infinity := PrimFloat.infinity;
  neg := PrimFloat.opp;
  add := PrimFloat.add;
  sub := PrimFloat.sub;
  mul := PrimFloat.mul;
  div := PrimFloat.div;
  math_min := JSFloat.min;
  math_max := JSFloat.max;
  strict_eq := PrimFloat.eqb;
  geb := fun a b => PrimFloat.leb b a
|}.

#[export] Instance float_Host : Host float := {|
  math_sqrt := PrimFloat.sqrt;
  fround := JSFloat.fround
|}.

(** ** Points, strokes and configuration ([stroke_processor.js]) *)

(** A point object.  [timestamp] is the optional property of that name:
    [None] when the object has no such property. *)
Record Point (F : Type) : Type := mkPoint {
  x : F;
  y : F;
  penState : F;
  timestamp : option F
}.
Arguments mkPoint {F} _ _ _ _.
Arguments x {F} _.
Arguments y {F} _.
Arguments penState {F} _.
Arguments timestamp {F} _.

Definition Stroke (F : Type) : Type := list (Point F).
Definition StrokeSet (F : Type) : Type := list (Stroke F).

Record Config (F : Type) : Type := mkConfig {
  canvasWidth : F;
  canvasHeight : F;
  maxSeqLength : nat;
  resampleDistance : F;
  normalizeToUnitRange : bool;
  useDeltaCoordinates : bool
}.
Arguments mkConfig {F} _ _ _ _ _ _.
Arguments canvasWidth {F} _.
Arguments canvasHeight {F} _.
Arguments maxSeqLength {F} _.
Arguments resampleDistance {F} _.
Arguments normalizeToUnitRange {F} _.
Arguments useDeltaCoordinates {F} _.

Definition DEFAULT_CONFIG {F} `{Number F} : Config F := {|
  canvasWidth := of_Z 400;
  canvasHeight := of_Z 200;
  maxSeqLength := 256;
  resampleDistance := of_Z 3;
  normalizeToUnitRange := true;
  useDeltaCoordinates := true
|}.

(** ** [StrokeProcessor] *)

Section StrokeProcessor.
Context {F : Type} `{NumF : Number F} `{HostF : Host F}.
#[local] Open Scope js_scope.

(** The frame pushed by the padding loop: [{ x: 0, y: 0, penState: 0 }]. *)
Definition zeroPoint : Point F := mkPoint 0 0 0 None.

(** [_flattenStrokes]: a fresh [{x, y, penState}] object per input point,
    in stroke order. *)
Definition _flattenStrokes (strokes : StrokeSet F) : list (Point F) :=
  flat_map (map (fun point => mkPoint (x point) (y point) (penState point) None))
           strokes.

(** The test for a pen lift at [points[i]], [prev] being [points[i - 1]]. *)
Definition isPenLift (prev p : Point F) : bool :=
  (penState p === 0) && (penState prev === 1).

(** Length of the segment from [points[i - 1]] to [points[i]]. *)
Definition segmentDist (prev p : Point F) : F :=
  let dx := x p - x prev in
  let dy := y p - y prev in
  math_sqrt (dx * dx + dy * dy).

(** The [for] loop of [_resamplePoints], from index [i] on: [prev] is
    [points[i - 1]], [rest] is [points[i..]], [acc] is [accumulatedDist];
    the result lists the points pushed, in order. *)
Fixpoint resampleLoop (minDist : F) (prev : Point F) (rest : list (Point F))
    (acc : F) : list (Point F) :=
  match rest with
  | [] => []
  | p :: rest' =>
      let acc' := acc + segmentDist prev p in
      if isPenLift prev p then p :: resampleLoop minDist p rest' 0
      else if acc' >= minDist then p :: resampleLoop minDist p rest' 0
      else resampleLoop minDist p rest' acc'
  end.

(** The guard of the final push: [last.x !== resampledLast.x ||
    last.y !== resampledLast.y]. *)
Definition coordsDiffer (a b : Point F) : bool :=
  (x a !== x b) || (y a !== y b).

Definition _resamplePoints (cfg : Config F) (points : list (Point F))
    : list (Point F) :=
  match points with
  | [] | [_] => points
  | p0 :: rest =>
      let resampled := p0 :: resampleLoop (resampleDistance cfg) p0 rest 0 in
      let last := List.last points p0 in
      let resampledLast := List.last resampled p0 in
      if coordsDiffer last resampledLast then resampled ++ [last]
      else resampled
  end.

(** The bounding box accumulated by the first loop of
    [_normalizeCoordinates]. *)
Record Bounds : Type := mkBounds { xMin : F; xMax : F; yMin : F; yMax : F }.

Definition initialBounds : Bounds :=
  mkBounds infinity (neg infinity) infinity (neg infinity).

Definition extendBounds (b : Bounds) (p : Point F) : Bounds :=
  mkBounds (math_min (xMin b) (x p)) (math_max (xMax b) (x p))
           (math_min (yMin b) (y p)) (math_max (yMax b) (y p)).

Definition boundingBox (points : list (Point F)) : Bounds :=
  fold_left extendBounds points initialBounds.

Definition xRange (b : Bounds) : F := math_max (xMax b - xMin b) 1.
Definition yRange (b : Bounds) : F := math_max (yMax b - yMin b) 1.

Definition _normalizeCoordinates (points : list (Point F)) : list (Point F) :=
  match points with
  | [] => points
  | _ =>
      let b := boundingBox points in
      map (fun p => mkPoint (2 * (x p - xMin b) / xRange b - 1)
                            (2 * (y p - yMin b) / yRange b - 1)
                            (penState p) None)
          points
  end.

(** The [for] loop of [_toDeltaCoordinates], [prev] being [points[i - 1]]. *)
Fixpoint deltaLoop (prev : Point F) (rest : list (Point F)) : list (Point F) :=
  match rest with
  | [] => []
  | p :: rest' =>
      mkPoint (x p - x prev) (y p - y prev) (penState p) None
        :: deltaLoop p rest'
  end.

Definition _toDeltaCoordinates (points : list (Point F)) : list (Point F) :=
  match points with
  | [] | [_] => map (fun p => mkPoint 0 0 (penState p) None) points
  | p0 :: rest => mkPoint 0 0 (penState p0) None :: deltaLoop p0 rest
  end.

(** The [while] loop of [_padSequence]: [n] pushes are left to do. *)
Fixpoint padLoop (n : nat) (padded : list (Point F)) : list (Point F) :=
  match n with
  | O => padded
  | S n' => padLoop n' (padded ++ [zeroPoint])
  end.

Definition _padSequence (cfg : Config F) (points : list (Point F))
    : list (Point F) :=
  let maxLen := maxSeqLength cfg in
  if (maxLen <=? length points)%nat then firstn maxLen points
  else padLoop (maxLen - length points) points.

(** [_toFloat32Array]: three stores per point. *)
Definition _toFloat32Array (points : list (Point F)) : list F :=
  flat_map (fun p => [fround (x p); fround (y p); fround (penState p)]) points.

(** [new Float32Array(n)]: [n] zeros. *)
Definition newFloat32Array (n : nat) : list F := repeat 0 n.

(** The frames [process] hands to [_padSequence]. *)
Definition featureFrames (cfg : Config F) (strokes : StrokeSet F)
    : list (Point F) :=
  let points := _flattenStrokes strokes in
  let points := _resamplePoints cfg points in
  let points := _normalizeCoordinates points in
  if useDeltaCoordinates cfg then _toDeltaCoordinates points else points.

(** [process(strokes)]; [None] is a missing ([null] or [undefined])
    argument. *)
Definition process (cfg : Config F) (strokes : option (StrokeSet F)) : list F :=
  match strokes with
  | None | Some [] => newFloat32Array (maxSeqLength cfg * 3)
  | Some strokes =>
      _toFloat32Array (_padSequence cfg (featureFrames cfg strokes))
  end.

Definition getSequenceLength (cfg : Config F) (strokes : option (StrokeSet F))
    : nat :=
  match strokes with
  | None | Some [] => 0
  | Some strokes =>
      Nat.min (length (_resamplePoints cfg (_flattenStrokes strokes)))
              (maxSeqLength cfg)
  end.

End StrokeProcessor.

(** ** [StrokeCapture] *)

(** What [_getCanvasPoint] returns: [{ x, y, timestamp }]. *)
Record CanvasPoint (F : Type) : Type := mkCanvasPoint {
  canvasX : F;
  canvasY : F;
  canvasTimestamp : F
}.
Arguments mkCanvasPoint {F} _ _ _.
Arguments canvasX {F} _.
Arguments canvasY {F} _.
Arguments canvasTimestamp {F} _.

(** The canvas element's intrinsic size. *)
Record Canvas (F : Type) : Type := mkCanvas { canvasW : F; canvasH : F }.
Arguments mkCanvas {F} _ _.
Arguments canvasW {F} _.
Arguments canvasH {F} _.

(** What a handler reads from its surroundings: the pointer position, the
    canvas rectangle as [getBoundingClientRect()] gives it at that moment,
    and the value of [Date.now()]. *)
Record PointerInput (F : Type) : Type := mkPointerInput {
  clientX : F;
  clientY : F;
  rectLeft : F;
  rectTop : F;
  rectWidth : F;
  rectHeight : F;
  dateNow : F
}.
Arguments mkPointerInput {F} _ _ _ _ _ _ _.
Arguments clientX {F} _.
Arguments clientY {F} _.
Arguments rectLeft {F} _.
Arguments rectTop {F} _.
Arguments rectWidth {F} _.
Arguments rectHeight {F} _.
Arguments dateNow {F} _.

(** The fields of a [StrokeCapture] object that the handlers change. *)
Record CaptureState (F : Type) : Type := mkCapture {
  strokes : StrokeSet F;
  currentStroke : Stroke F;
  isDrawing : bool;
  lastPoint : option (CanvasPoint F)
}.
Arguments mkCapture {F} _ _ _ _.
Arguments strokes {F} _.
Arguments currentStroke {F} _.
Arguments isDrawing {F} _.
Arguments lastPoint {F} _.

Inductive CaptureEvent (F : Type) : Type :=
| PointerDown (e : PointerInput F)
| PointerMove (e : PointerInput F)
| PointerUp
| Clear.
Arguments PointerDown {F} _.
Arguments PointerMove {F} _.
Arguments PointerUp {F}.
Arguments Clear {F}.

Section StrokeCapture.
Context {F : Type} `{NumF : Number F}.
#[local] Open Scope js_scope.

(** The state the constructor leaves. *)
Definition newStrokeCapture : CaptureState F := mkCapture [] [] false None.

Definition _getCanvasPoint (canvas : Canvas F) (e : PointerInput F)
    : CanvasPoint F :=
  let scaleX := canvasW canvas / rectWidth e in
  let scaleY := canvasH canvas / rectHeight e in
  mkCanvasPoint ((clientX e - rectLeft e) * scaleX)
                ((clientY e - rectTop e) * scaleY)
                (dateNow e).

Definition _onPointerDown (canvas : Canvas F) (st : CaptureState F)
    (e : PointerInput F) : CaptureState F :=
  let point := _getCanvasPoint canvas e in
  mkCapture (strokes st)
            [mkPoint (canvasX point) (canvasY point) 1 None]
            true
            (Some point).

Definition _onPointerMove (canvas : Canvas F) (st : CaptureState F)
    (e : PointerInput F) : CaptureState F :=
  if negb (isDrawing st) then st
  else
    let point := _getCanvasPoint canvas e in
    mkCapture (strokes st)
              (currentStroke st ++ [mkPoint (canvasX point) (canvasY point) 1 None])
              (isDrawing st)
              (Some point).

(** [stroke[stroke.length - 1].penState = 0]: only that property of the
    last point changes. *)
Definition markLastPenUp (stroke : Stroke F) : Stroke F :=
  match stroke with
  | [] => []
  | p0 :: _ =>
      let p := List.last stroke p0 in
      removelast stroke ++ [mkPoint (x p) (y p) 0 (timestamp p)]
  end.

Definition _onPointerUp (st : CaptureState F) : CaptureState F :=
  if negb (isDrawing st) then st
  else
    match currentStroke st with
    | [] => mkCapture (strokes st) [] false None
    | _ => mkCapture (strokes st ++ [markLastPenUp (currentStroke st)]) [] false None
    end.

Definition getStrokes (st : CaptureState F) : StrokeSet F := strokes st.

Definition clear (st : CaptureState F) : CaptureState F :=
  mkCapture [] [] (isDrawing st) (lastPoint st).

Definition hasStrokes (st : CaptureState F) : bool :=
  (0 <? length (strokes st))%nat || (0 <? length (currentStroke st))%nat.

(** One listener call. *)
Definition captureStep (canvas : Canvas F) (st : CaptureState F)
    (ev : CaptureEvent F) : CaptureState F :=
  match ev with
  | PointerDown e => _onPointerDown canvas st e
  | PointerMove e => _onPointerMove canvas st e
  | PointerUp => _onPointerUp st
  | Clear => clear st
  end.

(** The capture object after a sequence of listener calls. *)
Definition captureRun (canvas : Canvas F) (evs : list (CaptureEvent F))
    : CaptureState F :=
  fold_left (captureStep canvas) evs newStrokeCapture.

(** Every point a capture object holds: the completed strokes' and the
    stroke in progress. *)
Definition recordedPoints (st : CaptureState F) : list (Point F) :=
  concat (strokes st) ++ currentStroke st.

End StrokeCapture.

(** ** Calls to collaborators, and exceptions *)

(** How a JavaScript computation completes. *)
Inductive Completion (A : Type) : Type :=
| Return (a : A)
| Throw (message : string).
Arguments Return {A} _.
Arguments Throw {A} _.

(** A computation that calls collaborators: the calls made, oldest first,
    and how it completed. *)
Definition Eff (C A : Type) : Type := (list C * Completion A)%type.

Definition ret {C A} (a : A) : Eff C A := ([], Return a).
Definition throw {C A} (message : string) : Eff C A := ([], Throw message).

Definition bind {C A B} (m : Eff C A) (k : A -> Eff C B) : Eff C B :=
  match m with
  | (t, Return a) => let (t', r) := k a in (t ++ t', r)
  | (t, Throw e) => (t, Throw e)
  end.

(** Calling a collaborator: the call is recorded, [response] is what the
    collaborator answers. *)
Definition call {C A} (c : C) (response : Completion A) : Eff C A :=
  ([c], response).

(** [try { m } catch (e) { handler e }]. *)
Definition tryCatch {C A} (m : Eff C A) (handler : string -> Eff C A) : Eff C A :=
  match m with
  | (t, Return a) => (t, Return a)
  | (t, Throw e) => let (t', r) := handler e in (t ++ t', r)
  end.

Definition calls {C A} (m : Eff C A) : list C := fst m.
Definition completion {C A} (m : Eff C A) : Completion A := snd m.

Declare Scope eff_scope.
Delimit Scope eff_scope with eff.
Notation "v <- m ;; k" := (bind m (fun v => k))
  (at level 100, m at next level, right associativity) : eff_scope.
Notation "m ;;; k" := (bind m (fun _ => k))
  (at level 100, right associativity) : eff_scope.

(** ** [offline_handwriting.js] *)

(** The object [recognizeOffline] returns for an empty drawing:
    [{ text: '', isEmpty: true }]. *)
Record EmptyResult : Type := mkEmptyResult {
  emptyText : string;
  isEmpty : bool
}.

(** A settled promise. *)
Inductive Promise : Type :=
| Fulfilled
| Rejected (message : string).

(** The names of the properties every plain object inherits from
    [Object.prototype]. *)
Definition objectPrototypeNames : list string :=
  ["constructor"; "hasOwnProperty"; "isPrototypeOf"; "propertyIsEnumerable";
   "toLocaleString"; "toString"; "valueOf"; "__proto__";
   "__defineGetter__"; "__defineSetter__"; "__lookupGetter__";
   "__lookupSetter__"]%string.

Definition inheritedName (name : string) : bool :=
  existsb (String.eqb name) objectPrototypeNames.

Section OfflineHandwriting.
Context {F : Type} `{NumF : Number F}.
(** [R] is the type of the objects [HandwritingRecognizer.recognize]
    resolves to. *)
Context {R : Type}.

(** A [HandwritingRecognizer] object, as far as this module uses it: its
    [recognize] method. *)
Record Recognizer : Type := mkRecognizer {
  recognize : StrokeSet F -> Completion R
}.

(** The module's variables.  [strokeCaptures] holds the capture objects
    stored in the object of that name, by canvas id: its own properties.
    A lookup [strokeCaptures[canvasId]] in the sources finds the capture
    object stored under [canvasId]; under an id with none stored it finds
    nothing, unless [inheritedName canvasId], when it finds what every
    object inherits under that name, which is no capture object.  What is
    stated below about an id without capture object leaves those names
    out. *)
Record OfflineState : Type := mkOffline {
  recognizer : option Recognizer;
  strokeCaptures : gmap string (CaptureState F);
  isModelLoaded : bool;
  modelLoadPromise : option Promise
}.

(** The calls this module makes to the recognizer. *)
Inductive OfflineCall : Type :=
| CallRecognize (strokes : StrokeSet F).

(** [await modelLoadPromise], when the variable is set. *)
Definition awaitPromise (p : option Promise) : Eff OfflineCall unit :=
  match p with
  | Some (Rejected message) => throw message
  | Some Fulfilled | None => ret tt
  end.

#[local] Open Scope eff_scope.

Definition recognizeOffline (st : OfflineState) (canvasId : string)
    : Eff OfflineCall (EmptyResult + R) :=
  awaitPromise (modelLoadPromise st) ;;;
  match isModelLoaded st, recognizer st with
  | true, Some rec =>
      match strokeCaptures st !! canvasId with
      | None => throw "No stroke capture for canvas"
      | Some capture =>
          match getStrokes capture with
          | [] => ret (inl (mkEmptyResult "" true))
          | strokes =>
              result <- call (CallRecognize strokes) (recognize rec strokes) ;;
              ret (inr result)
          end
      end
  | _, _ => throw "Model not available"
  end.

(** [clearCanvasStrokes]: the module's variables after the call.  The
    capture object found under [canvasId] is cleared; when the lookup
    finds nothing, nothing is done. *)
Definition clearCanvasStrokes (st : OfflineState) (canvasId : string)
    : OfflineState :=
  mkOffline (recognizer st)
            (alter clear canvasId (strokeCaptures st))
            (isModelLoaded st) (modelLoadPromise st).

Definition isOfflineAvailable (st : OfflineState) : bool :=
  isModelLoaded st && match recognizer st with Some _ => true | None => false end.

End OfflineHandwriting.
Arguments Recognizer : clear implicits.
Arguments OfflineState : clear implicits.
Arguments OfflineCall : clear implicits.

(** ** JavaScript strings *)

(** A string as its sequence of UTF-16 code units. *)
Definition jsstring : Type := list N.

Module JSString.
#[local] Open Scope N_scope.

(** White space and line terminators: what [trim] strips and [\s] matches. *)
Definition isWhiteSpace (c : N) : bool :=
  ((9 <=? c) && (c <=? 13)) || (c =? 32) || (c =? 160) || (c =? 0x1680)
  || ((0x2000 <=? c) && (c <=? 0x200A)) || (c =? 0x2028) || (c =? 0x2029)
  || (c =? 0x202F) || (c =? 0x205F) || (c =? 0x3000) || (c =? 0xFEFF).

Fixpoint trimStart (s : jsstring) : jsstring :=
  match s with
  | c :: s' => if isWhiteSpace c then trimStart s' else s
  | [] => []
  end.

Definition trimEnd (s : jsstring) : jsstring := rev (trimStart (rev s)).

Definition trim (s : jsstring) : jsstring := trimEnd (trimStart s).

(** [s.split(sep)] for a one-unit separator: the result is never empty. *)
Fixpoint split (sep : N) (s : jsstring) : list jsstring :=
  match s with
  | [] => [[]]
  | c :: s' =>
      if c =? sep then [] :: split sep s'
      else match split sep s' with
           | l :: ls => (c :: l) :: ls
           | [] => [[c]]
           end
  end.

(** [lines.join(sep)]. *)
Fixpoint join (sep : jsstring) (lines : list jsstring) : jsstring :=
  match lines with
  | [] => []
  | [l] => l
  | l :: ls => l ++ sep ++ join sep ls
  end.

(** [s.replace(/\s+/g, ' ')]: [inRun] tells that the previous unit was
    white space. *)
Fixpoint collapseSpaces (inRun : bool) (s : jsstring) : jsstring :=
  match s with
  | [] => []
  | c :: s' =>
      if isWhiteSpace c then
        if inRun then collapseSpaces true s' else 32 :: collapseSpaces true s'
      else c :: collapseSpaces false s'
  end.

End JSString.

(** ** The Tesseract front end *)

Module Tesseract.
#[local] Open Scope N_scope.

(** [/[\x00-\x1F\x7F]/]. *)
Definition isControl (c : N) : bool := (c <=? 0x1F) || (c =? 0x7F).

(** The units of [/[\u0900-\u097F\u0980-\u09FFa-zA-Z0-9]/]. *)
Definition isWordUnit (c : N) : bool :=
  ((0x0900 <=? c) && (c <=? 0x097F)) || ((0x0980 <=? c) && (c <=? 0x09FF))
  || ((97 <=? c) && (c <=? 122)) || ((65 <=? c) && (c <=? 90))
  || ((48 <=? c) && (c <=? 57)).

Definition keepLine (line : jsstring) : bool :=
  match JSString.trim line with
  | [] => false
  | trimmed => existsb isWordUnit trimmed
  end.

Definition cleanOCRResult (text : jsstring) : jsstring :=
  match text with
  | [] => []
  | _ =>
      let text := JSString.trim (filter (fun c => negb (isControl c)) text) in
      let lines := JSString.split 10 text in
      let cleanLines := filter keepLine lines in
      let text := JSString.trim (JSString.join [32] cleanLines) in
      JSString.collapseSpaces false text
  end.

#[local] Open Scope Z_scope.

(** [result.data] of [worker.recognize]: the text and the mean confidence,
    an integer percentage. *)
Record OCRData : Type := mkOCRData {
  text : jsstring;
  confidence : Z
}.

(** The object [recognizeFromCanvas] resolves to: either
    [{ success, text, confidence, duration }] or
    [{ success: false, text: '', error }]. *)
Inductive RecognitionResult : Type :=
| Recognition (success : bool) (text : jsstring) (confidence : Z) (duration : Z)
| RecognitionError (error : string).

Definition resultText (r : RecognitionResult) : jsstring :=
  match r with
  | Recognition _ t _ _ => t
  | RecognitionError _ => []
  end.

(** The calls made to the Tesseract worker; [mode] is the page segmentation
    mode the worker is in, or is asked to switch to. *)
Inductive WorkerCall : Type :=
| InitTesseract
| WorkerRecognize (mode : string)
| SetParameters (mode : string).

(** The threshold below which the second mode is tried. *)
Definition lowConfidence : Z := 60.

Section Recognize.
(** The collaborators: how [initTesseract] completes, what the worker
    recognises on the preprocessed image in a given mode, how a mode switch
    completes, and the duration measured with [performance.now()]. *)
Variable initTesseract : Completion unit.
Variable ocr : string -> Completion OCRData.
Variable setParameters : string -> Completion unit.
Variable duration : Z.

#[local] Open Scope eff_scope.

(** [if (conf > bestConf && text.length > 0) { bestText = text; bestConf = conf; }]
    on the pair [(bestText, bestConf)]. *)
Definition keepBetter (best : jsstring * Z) (text : jsstring) (conf : Z)
    : jsstring * Z :=
  if (conf >? snd best) && (0 <? length text)%nat then (text, conf) else best.

(** The inner [try ... catch] statement: switch to mode 7, recognise, switch
    back.  [bestText] and [bestConf] are variables of the enclosing block,
    so an assignment made before the switch back throws survives the
    [catch]; a throw before it leaves them as they were. *)
Definition tryLineMode (best : jsstring * Z) : Eff WorkerCall (jsstring * Z) :=
  tryCatch
    (call (SetParameters "7") (setParameters "7") ;;;
     result7 <- call (WorkerRecognize "7") (ocr "7") ;;
     let text7 := JSString.trim (text result7) in
     let conf7 := confidence result7 in
     let best := keepBetter best text7 conf7 in
     tryCatch (call (SetParameters "6") (setParameters "6") ;;; ret best)
              (fun _ => ret best))
    (fun _ => ret best).

(** The outer [try] block; [mode] is the mode the worker is in. *)
Definition recognizeBody (mode : string) : Eff WorkerCall RecognitionResult :=
  let best := ([], 0) in
  result6 <- call (WorkerRecognize mode) (ocr mode) ;;
  let text6 := JSString.trim (text result6) in
  let conf6 := confidence result6 in
  let best := keepBetter best text6 conf6 in
  best <- (if (snd best <? lowConfidence) || (length (fst best) =? 0)%nat
           then tryLineMode best
           else ret best) ;;
  let bestText := cleanOCRResult (fst best) in
  ret (Recognition (0 <? length bestText)%nat bestText (snd best) duration).

(** [recognizeFromCanvas(canvas)]: [isInitialized] and [mode] are the
    module's flag and the worker's mode on entry; [initTesseract] leaves
    the worker in mode 6. *)
Definition recognizeFromCanvas (isInitialized : bool) (mode : string)
    : Eff WorkerCall RecognitionResult :=
  mode <- (if isInitialized then ret mode
           else call InitTesseract initTesseract ;;; ret "6"%string) ;;
  tryCatch (recognizeBody mode)
           (fun message => ret (RecognitionError message)).

End Recognize.

(** A recognition result as the selection sees it: the trimmed text and the
    confidence. *)
Definition candidate (d : OCRData) : jsstring * Z :=
  (JSString.trim (text d), confidence d).

(** The result can be selected: its text is not empty and its confidence is
    positive. *)
Definition eligible (c : jsstring * Z) : Prop := fst c <> [] /\ 0 < snd c.

(** The primary result calls for a second decode: its confidence is below
    the threshold or its text is empty. *)
Definition needsRetry (c : jsstring * Z) : Prop :=
  snd c < lowConfidence \/ fst c = [].

(** The object [recognizeFromCanvas] builds from the selected pair
    [(bestText, bestConf)]. *)
Definition resultOf (duration : Z) (best : jsstring * Z) : RecognitionResult :=
  Recognition (0 <? length (cleanOCRResult (fst best)))%nat
              (cleanOCRResult (fst best)) (snd best) duration.

End Tesseract.

(** ** Greedy CTC decoding *)

Module CTC.

Section Greedy.
Context {F : Type} `{NumF : Number F}.
#[local] Open Scope js_scope.

(** Modelled from the spec: the arg-max label of one timestep of the
    probability matrix ([ctc_decoder.js] is not among the sources).  [best]
    is the label retained so far, [bestP] its probability, [i] the label of
    the head of [row]; on a tie the earlier label stays. *)
Fixpoint argmaxFrom (best : nat) (bestP : F) (i : nat) (row : list F) : nat :=
  match row with
  | [] => best
  | p :: row' =>
      if bestP >= p then argmaxFrom best bestP (S i) row'
      else argmaxFrom i p (S i) row'
  end.

(** Modelled from the spec: "for each timestep, take the arg-max label"
    ([ctc_decoder.js] is not among the sources). *)
Definition argmax (row : list F) : nat :=
  match row with
  | [] => 0%nat
  | p :: row' => argmaxFrom 0 p 1 row'
  end.

(** Modelled from the spec: "collapse consecutive repeats of the same
    non-blank label into one" ([ctc_decoder.js] is not among the sources). *)
Fixpoint collapseRepeats (blank : nat) (labels : list nat) : list nat :=
  match labels with
  | [] => []
  | a :: rest =>
      match rest with
      | b :: _ =>
          if ((a =? b) && negb (a =? blank))%nat then collapseRepeats blank rest
          else a :: collapseRepeats blank rest
      | [] => [a]
      end
  end.

(** Modelled from the spec: "drop all blank-token emissions"
    ([ctc_decoder.js] is not among the sources). *)
Definition dropBlanks (blank : nat) (labels : list nat) : list nat :=
  filter (fun l => negb (l =? blank)%nat) labels.

(** Modelled from the spec: the text of the greedy decode of a probability
    matrix, one row per timestep, over [alphabet] with the blank token at
    index [blank] ([ctc_decoder.js] is not among the sources). *)
Definition greedyDecode (alphabet : list jsstring) (blank : nat)
    (matrix : list (list F)) : jsstring :=
  concat (map (fun l => nth l alphabet [])
              (dropBlanks blank (collapseRepeats blank (map argmax matrix)))).

End Greedy.

(** The three-symbol alphabet of the collapse law: the blank token at
    index 0, then the letters U+0915 (KA) and U+0916 (KHA). *)
Definition ka : jsstring := [0x0915%N].
Definition kha : jsstring := [0x0916%N].
Definition alphabet3 : list jsstring := [[]; ka; kha].
Definition blank3 : nat := 0.

End CTC.

(** ** Vocabulary of the statements *)

Section Vocabulary.
Context {F : Type} `{NumF : Number F} `{HostF : Host F}.
#[local] Open Scope js_scope.

(** The indices [i] at which the loop of [_resamplePoints] executes
    [resampled.push(points[i])]: [resampleLoop] with the index recorded in
    place of the point; [i] is the index of the head of [rest]. *)
Fixpoint resampleLoopIndices (minDist : F) (prev : Point F)
    (rest : list (Point F)) (acc : F) (i : nat) : list nat :=
  match rest with
  | [] => []
  | p :: rest' =>
      let acc' := acc + segmentDist prev p in
      if isPenLift prev p then i :: resampleLoopIndices minDist p rest' 0 (S i)
      else if acc' >= minDist then i :: resampleLoopIndices minDist p rest' 0 (S i)
      else resampleLoopIndices minDist p rest' acc' (S i)
  end.

(** The indices kept before the final push: index 0 and the loop's. *)
Definition keptIndices (cfg : Config F) (points : list (Point F)) : list nat :=
  match points with
  | [] => []
  | p0 :: rest => 0%nat :: resampleLoopIndices (resampleDistance cfg) p0 rest 0 1
  end.

(** The path length accumulated from [prev] along [pts], added to [acc] one
    segment at a time, in order. *)
Fixpoint pathFrom (acc : F) (prev : Point F) (pts : list (Point F)) : F :=
  match pts with
  | [] => acc
  | p :: pts' => pathFrom (acc + segmentDist prev p) p pts'
  end.

(** The accumulated Euclidean path distance from [points[k]] to
    [points[i]]: the segments after [points[k]] up to [points[i]], summed in
    order from 0. *)
Definition pathDist (points : list (Point F)) (k i : nat) : F :=
  pathFrom 0 (nth k points zeroPoint) (firstn (i - k) (skipn (S k) points)).

(** The [i]-th frame of a tensor of width 3. *)
Definition frameAt (tensor : list F) (i : nat) : F * F * F :=
  (nth (3 * i) tensor 0, nth (3 * i + 1) tensor 0, nth (3 * i + 2) tensor 0).

(** A point with its timestamp property removed. *)
Definition stripTimestamp (p : Point F) : Point F :=
  mkPoint (x p) (y p) (penState p) None.

(** The x, y and penState of every point of a stroke set. *)
Definition geometry (strokes : StrokeSet F) : StrokeSet F :=
  map (map stripTimestamp) strokes.

(** The invariant of the handlers: no held point has a timestamp. *)
Definition noTimestamps (st : CaptureState F) : Prop :=
  Forall (Forall (fun p => timestamp p = None)) (strokes st)
  /\ Forall (fun p => timestamp p = None) (currentStroke st).

(** The module's state lets [recognizeOffline] through its guards: the load
    promise, if any, was fulfilled, the model is marked loaded and the
    recogniser object exists. *)
Definition modelAvailable {R : Type} (st : OfflineState F R) : Prop :=
  (forall message, modelLoadPromise st <> Some (Rejected message))
  /\ isModelLoaded st = true
  /\ recognizer st <> None.

End Vocabulary.

(** Sample inputs on IEEE binary64 numbers. *)
Module Samples.
#[local] Open Scope float_scope.

Definition pt (a b pen : float) : Point float := mkPoint a b pen None.

(** A ten-point zig-zag stroke as [StrokeCapture] records it: pen down on
    every point but the last. *)
Definition zigzag : Stroke float :=
  [pt 10 10 1; pt 11 12 1; pt 12 10 1; pt 13 12 1; pt 14 10 1;
   pt 15 12 1; pt 16 10 1; pt 17 12 1; pt 18 10 1; pt 19 12 0].

(** A 400 x 200 canvas shown at its intrinsic size, and a stroke drawn on
    it: pointer down at (10, 20) at time 1000, moved to (13, 24) at time
    1016, then lifted. *)
Definition canvas400 : Canvas float := mkCanvas 400 200.
Definition downAt1000 : PointerInput float := mkPointerInput 10 20 0 0 400 200 1000.
Definition moveAt1016 : PointerInput float := mkPointerInput 13 24 0 0 400 200 1016.
Definition shortStroke : list (CaptureEvent float) :=
  [PointerDown downAt1000; PointerMove moveAt1016; PointerUp].

(** Two points at the same place, pen up on the first and down on the
    second. *)
Definition samePlace : list (Point float) := [pt 0 0 0; pt 0 0 1].


(** Probability matrices over the alphabet [CTC.alphabet3]: one whose rows
    favour U+0915, blank, U+0915, and one whose rows favour U+0915, U+0915,
    blank. *)
Definition favoursBlank : list float := [0.75; 0.125; 0.125].
Definition favoursKa : list float := [0.125; 0.75; 0.125].
Definition kaBlankKa : list (list float) := [favoursKa; favoursBlank; favoursKa].
Definition kaKaBlank : list (list float) := [favoursKa; favoursKa; favoursBlank].



End Samples.

(** ** Vocabulary for the further properties of [StrokeCapture] *)

Section CaptureVocabulary.
Context {F : Type} `{NumF : Number F}.
#[local] Open Scope js_scope.

(** A stroke as pointer-up leaves it: pen down on every point but the last,
    pen up on the last. *)
Definition recordedStroke (s : Stroke F) : Prop :=
  exists init final,
    s = init ++ [final]
    /\ Forall (fun p => penState p = 1) init
    /\ penState final = 0.

(** What the handlers keep true of a capture object. *)
Definition captureInvariant (st : CaptureState F) : Prop :=
  Forall recordedStroke (strokes st)
  /\ Forall (fun p => penState p = 1) (currentStroke st)
  /\ (isDrawing st = false -> currentStroke st = [] /\ lastPoint st = None)
  /\ (isDrawing st = true -> lastPoint st <> None).

(** The number of pointer-down calls among the events. *)
Definition pointerDowns (evs : list (CaptureEvent F)) : nat :=
  length (filter (fun ev => match ev with PointerDown _ => true | _ => false end)
                 evs).

End CaptureVocabulary.

(** ** Vocabulary for the order of binary64 numbers *)

(** The comparisons of [SpecFloat] read a number as a triple, compared
    lexicographically: its class (the infinities, the negative and the
    positive numbers, zero), its exponent and its mantissa, the last two
    negated for a negative number. *)
Module FloatOrder.
#[local] Open Scope Z_scope.

Definition cls (f : spec_float) : Z :=
  match f with
  | S754_infinity true => -2
  | S754_finite true _ _ => -1
  | S754_zero _ => 0
  | S754_finite false _ _ => 1
  | S754_infinity false => 2
  | S754_nan => 3
  end.

Definition expo (f : spec_float) : Z :=
  match f with
  | S754_finite false _ e => e
  | S754_finite true _ e => - e
  | _ => 0
  end.

Definition mant (f : spec_float) : Z :=
  match f with
  | S754_finite false m _ => Zpos m
  | S754_finite true m _ => Zneg m
  | _ => 0
  end.

Definition below (a b : spec_float) : Prop :=
  cls a < cls b
  \/ (cls a = cls b
      /\ (expo a < expo b \/ (expo a = expo b /\ mant a < mant b))).

Definition level (a b : spec_float) : Prop :=
  cls a = cls b /\ expo a = expo b /\ mant a = mant b.

(** Not NaN. *)
Definition number (a : float) : Prop := Prim2SF a <> S754_nan.

(** Neither NaN nor an infinity. *)
Definition finiteSF (f : spec_float) : bool :=
  match f with
  | S754_zero _ | S754_finite _ _ _ => true
  | _ => false
  end.

(** [+0] or [-0]. *)
Definition isSignedZero (a : float) : Prop := exists s, Prim2SF a = S754_zero s.

(** [a <= b] and [a == b] as the comparison decides them. *)
Definition atMost (a b : float) : Prop :=
  below (Prim2SF a) (Prim2SF b) \/ level (Prim2SF a) (Prim2SF b).
Definition equalTo (a b : float) : Prop := level (Prim2SF a) (Prim2SF b).

End FloatOrder.

(** ** Vocabulary and sample inputs for the normalisation on binary64 *)


Module NormalizeSamples.
#[local] Open Scope float_scope.

(** The number written [1e308] in JavaScript. *)
Definition e308 : float := 0x1.1ccf385ebc8ap+1023.

(** An upright stroke of two points: no extent in x. *)
Definition upright : list (Point float) :=
  [mkPoint 5 7 1 None; mkPoint 5 9 0 None].

(** A stroke from the origin to [(1e308, 1)]. *)
Definition farApart : list (Point float) :=
  [mkPoint 0 0 1 None; mkPoint e308 1 0 None].


End NormalizeSamples.


(** ** [offline_handwriting.js]: loading the model and submitting a canvas *)

(** A string literal of the sources, all of whose characters are ASCII, as
    a JavaScript string. *)
Definition jsOfString (s : string) : jsstring :=
  map Ascii.N_of_ascii (String.list_ascii_of_string s).

(** [try { m } finally { finalizer }]: the finalizer runs however [m]
    completes; the statement completes as [m] does unless the finalizer
    throws. *)
Definition tryFinally {C A} (m : Eff C A) (finalizer : Eff C unit) : Eff C A :=
  let (t, r) := m in
  let (t', r') := finalizer in
  (t ++ t', match r' with Return _ => r | Throw e => Throw e end).

(** A computation run inside another one whose calls are of type [C']. *)
Definition mapCalls {C C' A} (f : C -> C') (m : Eff C A) : Eff C' A :=
  (map f (fst m), snd m).

(** The messages shown to the user, as UTF-16 code units. *)
Module Messages.
#[local] Open Scope N_scope.

(** "Please write something first." *)
Definition writeFirst : jsstring :=
  [0x0915; 0x0943; 0x092A; 0x092F; 0x093E; 0x0020; 0x092A; 0x0939; 0x093F;
   0x0932; 0x0947; 0x0020; 0x0915; 0x0947; 0x0939; 0x0940; 0x0020; 0x0932;
   0x0947; 0x0916; 0x094D; 0x0928; 0x0941; 0x0939; 0x094B; 0x0938; 0x094D;
   0x0964].

(** "Handwriting recognised." *)
Definition recognized : jsstring :=
  [0x0939; 0x0938; 0x094D; 0x0924; 0x0932; 0x0947; 0x0916; 0x0020; 0x092A;
   0x0939; 0x093F; 0x091A; 0x093E; 0x0928; 0x0020; 0x0938; 0x092B; 0x0932;
   0x0021].

(** "The offline model is not available.  Please use the keyboard." *)
Definition modelUnavailable : jsstring :=
  [0x0905; 0x092B; 0x0932; 0x093E; 0x0907; 0x0928; 0x0020; 0x092E; 0x094B;
   0x0921; 0x0947; 0x0932; 0x0020; 0x0909; 0x092A; 0x0932; 0x092C; 0x094D;
   0x0927; 0x0020; 0x091B; 0x0948; 0x0928; 0x0964; 0x0020; 0x0915; 0x0943;
   0x092A; 0x092F; 0x093E; 0x0020; 0x0915; 0x093F; 0x092C; 0x094B; 0x0930;
   0x094D; 0x0921; 0x0020; 0x092A; 0x094D; 0x0930; 0x092F; 0x094B; 0x0917;
   0x0020; 0x0917; 0x0930; 0x094D; 0x0928; 0x0941; 0x0939; 0x094B; 0x0938;
   0x094D; 0x0964].

(** "Could not recognise the text.  Please write clearly." *)
Definition unreadable : jsstring :=
  [0x092A; 0x093E; 0x0920; 0x0020; 0x092A; 0x0939; 0x093F; 0x091A; 0x093E;
   0x0928; 0x0020; 0x0917; 0x0930; 0x094D; 0x0928; 0x0020; 0x0938; 0x0915;
   0x0947; 0x0928; 0x0964; 0x0020; 0x0915; 0x0943; 0x092A; 0x092F; 0x093E;
   0x0020; 0x0938; 0x094D; 0x092A; 0x0937; 0x094D; 0x091F; 0x0020; 0x0930;
   0x0942; 0x092A; 0x092E; 0x093E; 0x0020; 0x0932; 0x0947; 0x0916; 0x094D;
   0x0928; 0x0941; 0x0939; 0x094B; 0x0938; 0x094D; 0x0964].

(** "Could not recognise the handwriting." *)
Definition failed : jsstring :=
  [0x0939; 0x0938; 0x094D; 0x0924; 0x0932; 0x0947; 0x0916; 0x0020; 0x092A;
   0x0939; 0x093F; 0x091A; 0x093E; 0x0928; 0x0020; 0x0917; 0x0930; 0x094D;
   0x0928; 0x0020; 0x0938; 0x0915; 0x0947; 0x0928; 0x0964].

End Messages.

(** The loop over [imgData.data] of [submitFieldCanvasOffline]: the alpha
    byte of each pixel, four bytes apart, is compared with 10; a read past
    the end of the array gives [undefined], which is not above 10. *)
Fixpoint hasContent (data : list N) : bool :=
  match data with
  | _ :: _ :: _ :: alpha :: rest =>
      if (10 <? alpha)%N then true else hasContent rest
  | _ => false
  end.

Section OfflineModule.
Context {F : Type} `{NumF : Number F}.
Context {R : Type}.

#[local] Open Scope eff_scope.

(** *** [initOfflineHandwriting] *)

(** The module's variables with [modelLoadError]. *)
Record OfflineModule : Type := mkModule {
  offlineState : OfflineState F R;
  modelLoadError : option string
}.

(** The module when its script has run: no recogniser, no promise, no
    error; [captures] are the capture objects registered before the
    delayed initialisation runs. *)
Definition newOfflineModule (captures : gmap string (CaptureState F))
    : OfflineModule :=
  mkModule (mkOffline None captures false None) None.

(** What [initOfflineHandwriting] finds on the page: whether [tf] and
    [HandwritingRecognizer] are defined, how the two loaders complete, how
    the constructor completes, and how the promise returned by the
    recogniser's [init] settles. *)
Record InitEnvironment : Type := mkInitEnvironment {
  tfDefined : bool;
  loadTensorFlow : Completion unit;
  recognizerDefined : bool;
  loadHandwritingModules : Completion unit;
  newHandwritingRecognizer : Completion (Recognizer F R);
  recognizerInit : Recognizer F R -> Promise
}.

Inductive InitCall : Type :=
| LoadTensorFlow
| LoadHandwritingModules
| NewHandwritingRecognizer
| RecognizerInit.

(** [await promise]. *)
Definition settle (p : Promise) : Completion unit :=
  match p with
  | Fulfilled => Return tt
  | Rejected message => Throw message
  end.

(** The [catch] block: [modelLoadError = error.message || 'Model not
    available'; isModelLoaded = false]. *)
Definition loadFailed (m : OfflineModule) (message : string) : OfflineModule :=
  let st := offlineState m in
  mkModule (mkOffline (recognizer st) (strokeCaptures st) false
                      (modelLoadPromise st))
           (Some (if String.eqb message "" then "Model not available"%string
                  else message)).

(** The assignments of the [try] block: [recognizer], [modelLoadPromise],
    and after the await [isModelLoaded = true]. *)
Definition withRecognizer (m : OfflineModule) (rec : Recognizer F R)
    (promise : Promise) : OfflineModule :=
  let st := offlineState m in
  mkModule (mkOffline (Some rec) (strokeCaptures st) (isModelLoaded st)
                      (Some promise))
           (modelLoadError m).

Definition loaded (m : OfflineModule) : OfflineModule :=
  let st := offlineState m in
  mkModule (mkOffline (recognizer st) (strokeCaptures st) true
                      (modelLoadPromise st))
           (modelLoadError m).

(** [initOfflineHandwriting()]: the result is the module's variables when
    the function returns.  The two loaders are awaited outside the [try]
    statement, so their rejection rejects the function, before any variable
    is assigned.  An assignment made in the [try] block before a throw
    stays. *)
Definition initOfflineHandwriting (env : InitEnvironment) (m : OfflineModule)
    : Eff InitCall OfflineModule :=
  (if tfDefined env then ret tt
   else call LoadTensorFlow (loadTensorFlow env)) ;;;
  (if recognizerDefined env then ret tt
   else call LoadHandwritingModules (loadHandwritingModules env)) ;;;
  constructed <- tryCatch
                   (rec <- call NewHandwritingRecognizer
                                (newHandwritingRecognizer env) ;;
                    ret (inr rec))
                   (fun message => ret (inl message)) ;;
  match constructed with
  | inl message => ret (loadFailed m message)
  | inr rec =>
      let promise := recognizerInit env rec in
      let m := withRecognizer m rec promise in
      tryCatch (call RecognizerInit (settle promise) ;;; ret (loaded m))
               (fun message => ret (loadFailed m message))
  end.

(** *** [submitFieldCanvasOffline] *)

(** [textOf r] is [r.text] for a result of the recogniser, the empty string
    when the result or its text is missing. *)
Variable textOf : R -> jsstring.

(** What [submitFieldCanvasOffline] finds on the page:
    [window.activeCanvasFieldId] ([None] when it is falsy); the bytes of
    the image of the element [modalCanvas] ([None] when there is no such
    element); whether each of [showError], [showLoading], [hideLoading]
    and [showSuccess] is defined -- the application script defines them,
    and they complete normally; [closeFieldCanvas], which is not among the
    sources: [None] when it is no function, else how a call of it
    completes; the grammar corrector, when it is a function; the
    [setValue] method of [window.fieldStates[fieldId]], when there is one;
    whether the element [fieldId] exists; and how [recognizeViaServer]
    would complete. *)
Record Page : Type := mkPage {
  activeCanvasFieldId : option string;
  modalCanvas : option (list N);
  showErrorDefined : bool;
  showLoadingDefined : bool;
  hideLoadingDefined : bool;
  showSuccessDefined : bool;
  closeFieldCanvas : option (Completion unit);
  correctNepaliGrammar : option (jsstring -> string -> Completion jsstring);
  fieldSetValue : option (jsstring -> Completion unit);
  inputElement : bool;
  recognizeViaServer : Completion jsstring
}.

Inductive SubmitCall : Type :=
| ShowError (message : jsstring)
| ShowLoading
| HideLoading
| Recognize (strokes : StrokeSet F)
| RecognizeViaServer
| CorrectNepaliGrammar (text : jsstring) (fieldId : string)
| SetValue (fieldId : string) (text : jsstring)
| SetInputValue (fieldId : string) (text : jsstring)
| ShowSuccess (message : jsstring)
| CloseFieldCanvas.

(** [if (typeof f === 'function') f(...)]. *)
Definition whenDefined (defined : bool) (c : SubmitCall) : Eff SubmitCall unit :=
  if defined then call c (Return tt) else ret tt.

Definition forwardCall (c : OfflineCall F) : SubmitCall :=
  match c with CallRecognize strokes => Recognize strokes end.

(** The text of what [recognizeOffline] resolved to. *)
Definition offlineText (result : EmptyResult + R) : jsstring :=
  match result with
  | inl empty => jsOfString (emptyText empty)
  | inr r => textOf r
  end.

(** The inner [try] statement: [recognizedText] after it, [''] when
    nothing was recognised. *)
Definition offlineAttempt (st : OfflineState F R) : Eff SubmitCall jsstring :=
  match isModelLoaded st, strokeCaptures st !! "modalCanvas"%string with
  | true, Some _ =>
      tryCatch
        (result <- mapCalls forwardCall (recognizeOffline st "modalCanvas") ;;
         match offlineText result with
         | [] => ret []
         | text => ret (JSString.trim text)
         end)
        (fun _ => ret [])
  | _, _ => ret []
  end.

(** The branch that applies a recognised text to the field. *)
Definition applyText (page : Page) (fieldId : string) (recognizedText : jsstring)
    : Eff SubmitCall unit :=
  recognizedText <-
    match correctNepaliGrammar page with
    | Some correct =>
        call (CorrectNepaliGrammar recognizedText fieldId)
             (correct recognizedText fieldId)
    | None => ret recognizedText
    end ;;
  match fieldSetValue page with
  | Some setValue => call (SetValue fieldId recognizedText) (setValue recognizedText)
  | None =>
      if inputElement page
      then call (SetInputValue fieldId recognizedText) (Return tt)
      else ret tt
  end ;;;
  whenDefined (showSuccessDefined page) (ShowSuccess Messages.recognized) ;;;
  match closeFieldCanvas page with
  | Some completes => call CloseFieldCanvas completes
  | None => ret tt
  end.

(** The outer [try] block. *)
Definition submitBody (enableFallback : bool) (page : Page)
    (st : OfflineState F R) (fieldId : string) : Eff SubmitCall unit :=
  recognizedText <- offlineAttempt st ;;
  recognizedText <-
    match recognizedText, enableFallback with
    | [], true => call RecognizeViaServer (recognizeViaServer page)
    | _, _ => ret recognizedText
    end ;;
  match recognizedText with
  | [] =>
      whenDefined (showErrorDefined page)
        (ShowError (if isModelLoaded st then Messages.unreadable
                    else Messages.modelUnavailable))
  | _ => applyText page fieldId recognizedText
  end.

(** [submitFieldCanvasOffline()]; [enableFallback] is
    [CONFIG.enableFallback].  The module's variables [st] are read, not
    assigned, and are taken not to change while the function is
    suspended. *)
Definition submitFieldCanvasOffline (enableFallback : bool) (page : Page)
    (st : OfflineState F R) : Eff SubmitCall unit :=
  match activeCanvasFieldId page with
  | None => ret tt
  | Some fieldId =>
      match modalCanvas page with
      | None => ret tt
      | Some data =>
          if negb (hasContent data)
          then whenDefined (showErrorDefined page) (ShowError Messages.writeFirst)
          else
            whenDefined (showLoadingDefined page) ShowLoading ;;;
            tryFinally
              (tryCatch (submitBody enableFallback page st fieldId)
                        (fun _ => whenDefined (showErrorDefined page)
                                    (ShowError Messages.failed)))
              (whenDefined (hideLoadingDefined page) HideLoading)
      end
  end.

(** The user is told the outcome: a call of [showError] or [showSuccess]. *)
Definition isNotification (c : SubmitCall) : bool :=
  match c with
  | ShowError _ | ShowSuccess _ => true
  | _ => false
  end.

(** A write to the form field. *)
Definition isFieldWrite (c : SubmitCall) : bool :=
  match c with
  | SetValue _ _ | SetInputValue _ _ => true
  | _ => false
  end.

End OfflineModule.
Arguments OfflineModule : clear implicits.
Arguments InitEnvironment : clear implicits.
Arguments SubmitCall : clear implicits.

(** [CONFIG.enableFallback] as the sources set it. *)
Definition CONFIG_enableFallback : bool := false.

(** A call that shows or hides the loading indicator. *)
Definition isLoadingCall {F : Type} (c : SubmitCall F) : bool :=
  match c with
  | ShowLoading | HideLoading => true
  | _ => false
  end.

(** Sample pages and module states, with a recogniser whose results are
    their own text. *)
Module OfflineSamples.

(** A recogniser that reads U+0915 between two spaces. *)
Definition readsKa : Recognizer float jsstring :=
  mkRecognizer (fun _ => Return [32; 0x0915; 32]%N).

(** The page finds both scripts and the model loads. *)
Definition modelLoads : InitEnvironment float jsstring :=
  mkInitEnvironment true (Return tt) true (Return tt)
                    (Return readsKa) (fun _ => Fulfilled).

(** The page finds both scripts and the model files are missing. *)
Definition modelMissing : InitEnvironment float jsstring :=
  mkInitEnvironment true (Return tt) true (Return tt)
                    (Return readsKa) (fun _ => Rejected "Failed to fetch").

(** One stroke of two points on the modal canvas, on a loaded model. *)
Definition oneStroke : CaptureState float :=
  mkCapture [[Samples.pt 10 10 1; Samples.pt 13 14 0]] [] false None.

Definition loadedWithStroke : OfflineState float jsstring :=
  mkOffline (Some readsKa) {[ "modalCanvas"%string := oneStroke ]} true
            (Some Fulfilled).

(** A page with the field [applicant_name] active and every function
    defined but the grammar corrector; the canvas has two pixels. *)
Definition pageWith (pixels : list N) : Page :=
  mkPage (Some "applicant_name"%string) (Some pixels) true true true true
         (Some (Return tt))
         None (Some (fun _ => Return tt)) true (Return []).

(** The same page with a [closeFieldCanvas] that throws. *)
Definition pageFailingToClose (pixels : list N) : Page :=
  mkPage (Some "applicant_name"%string) (Some pixels) true true true true
         (Some (Throw "modal is null"))
         None (Some (fun _ => Return tt)) true (Return []).

Definition transparentPixels : list N := [0; 0; 0; 0; 0; 0; 0; 0]%N.
Definition inkedPixels : list N := [0; 0; 0; 0; 0; 0; 0; 255]%N.

End OfflineSamples.

(** ** Vocabulary for the further properties of the Tesseract front end *)

Module OCRText.
#[local] Open Scope N_scope.

(** Every white-space unit of the string is U+0020 and no two of them are
    adjacent; [afterSpace] tells that the unit before the string is white
    space. *)
Fixpoint spaced (afterSpace : bool) (s : jsstring) : bool :=
  match s with
  | [] => true
  | c :: s' =>
      if JSString.isWhiteSpace c
      then negb afterSpace && (c =? 32) && spaced true s'
      else spaced false s'
  end.

(** The string neither starts nor ends with white space. *)
Definition trimmed (s : jsstring) : Prop :=
  (forall c s', s = c :: s' -> JSString.isWhiteSpace c = false)
  /\ (forall c s', s = s' ++ [c] -> JSString.isWhiteSpace c = false).

(** What an object of [recognizeFromCanvas] keeps true: [success] tells
    whether a text is returned, the confidence is not negative, and a text
    is returned only with a positive confidence. *)
Definition consistent (duration : Z) (r : Tesseract.RecognitionResult) : Prop :=
  match r with
  | Tesseract.Recognition success text confidence d =>
      (success = true <-> text <> [])
      /\ (0 <= confidence)%Z
      /\ (text <> [] -> (0 < confidence)%Z)
      /\ d = duration
  | Tesseract.RecognitionError _ => True
  end.

(** A pair [(bestText, bestConf)] the selection can hold: the confidence is
    not negative, and a text comes with a positive confidence. *)
Definition selected (best : jsstring * Z) : Prop :=
  (0 <= snd best)%Z /\ (fst best <> [] -> (0 < snd best)%Z).

(** A call that asks the worker to recognise the image. *)
Definition isDecode (c : Tesseract.WorkerCall) : bool :=
  match c with
  | Tesseract.WorkerRecognize _ => true
  | _ => false
  end.

End OCRText.

(** ** The Tesseract front end: preparing the image *)

Module TesseractImage.
#[local] Open Scope Z_scope.

(** [data[i]] on the bytes of an image; [None] stands for [undefined], what
    a read outside the array gives. *)
Definition byteAt (data : list N) (i : Z) : option N :=
  if i <? 0 then None else nth_error data (Z.to_nat i).

(** [v > threshold]; [undefined] is above nothing. *)
Definition above (threshold : N) (v : option N) : bool :=
  match v with
  | Some a => (threshold <? a)%N
  | None => false
  end.

(** The values a loop variable takes in [for (let i = 0; i < n; i++)]. *)
Definition upto (n : Z) : list Z := map Z.of_nat (seq 0 (Z.to_nat n)).

(** The object [findStrokeBounds] returns. *)
Record StrokeBounds : Type := mkStrokeBounds {
  minX : Z;
  minY : Z;
  maxX : Z;
  maxY : Z;
  width : Z;
  height : Z
}.

(** The body of the inner loop, on the variables
    [(minX, minY, maxX, maxY, found)]. *)
Definition visitPixel (data : list N) (width : Z) (y : Z)
    (vars : Z * Z * Z * Z * bool) (x : Z) : Z * Z * Z * Z * bool :=
  let '(minX, minY, maxX, maxY, found) := vars in
  let alpha := byteAt data ((y * width + x) * 4 + 3) in
  if above 20 alpha then
    (if x <? minX then x else minX,
     if y <? minY then y else minY,
     if maxX <? x then x else maxX,
     if maxY <? y then y else maxY,
     true)
  else vars.

Definition scanRow (data : list N) (width : Z)
    (vars : Z * Z * Z * Z * bool) (y : Z) : Z * Z * Z * Z * bool :=
  fold_left (visitPixel data width y) (upto width) vars.

Definition findStrokeBounds (data : list N) (width height : Z)
    : option StrokeBounds :=
  let '(minX, minY, maxX, maxY, found) :=
    fold_left (scanRow data width) (upto height) (width, height, 0, 0, false) in
  if found
  then Some (mkStrokeBounds minX minY maxX maxY
                            (maxX - minX + 1) (maxY - minY + 1))
  else None.

(** The crop rectangle and the size of the canvas [preprocessCanvas]
    returns. *)
Record Crop : Type := mkCrop {
  cropX : Z;
  cropY : Z;
  cropW : Z;
  cropH : Z
}.

Definition PADDING : Z := 40.
Definition SCALE : Z := 3.

Definition cropRegion (origWidth origHeight : Z) (bounds : StrokeBounds)
    : Crop :=
  let cropX := Z.max 0 (minX bounds - PADDING) in
  let cropY := Z.max 0 (minY bounds - PADDING) in
  let cropW := Z.min (origWidth - cropX) (width bounds + PADDING * 2) in
  let cropH := Z.min (origHeight - cropY) (height bounds + PADDING * 2) in
  mkCrop cropX cropY cropW cropH.

(** The width and height of the canvas [preprocessCanvas] returns for an
    image of [origWidth] by [origHeight] pixels. *)
Definition preprocessedSize (data : list N) (origWidth origHeight : Z)
    : Z * Z :=
  match findStrokeBounds data origWidth origHeight with
  | None => (100, 50)
  | Some bounds =>
      let crop := cropRegion origWidth origHeight bounds in
      (cropW crop * SCALE, cropH crop * SCALE)
  end.

(** The pixel at column [x] of row [y] counts as drawn: its alpha byte is
    above 20. *)
Definition drawn (data : list N) (width : Z) (x y : Z) : bool :=
  above 20 (byteAt data ((y * width + x) * 4 + 3)).

(** A drawn pixel of the image. *)
Definition inked (data : list N) (width height : Z) (x y : Z) : Prop :=
  0 <= x < width /\ 0 <= y < height /\ drawn data width x y = true.

(** The pixels in the order the two loops visit them. *)
Definition scanOrder (width height : Z) : list (Z * Z) :=
  flat_map (fun y => map (fun x => (x, y)) (upto width)) (upto height).

(** What the loop variables hold after the pixels [seen]. *)
Definition scanned (data : list N) (w h : Z) (seen : list (Z * Z))
    (vars : Z * Z * Z * Z * bool) : Prop :=
  let '(minX, minY, maxX, maxY, found) := vars in
  (found = false ->
   (minX, minY, maxX, maxY) = (w, h, 0, 0)
   /\ forall p, In p seen -> drawn data w (fst p) (snd p) = false)
  /\ (found = true ->
      (forall p, In p seen -> drawn data w (fst p) (snd p) = true ->
         minX <= fst p <= maxX /\ minY <= snd p <= maxY)
      /\ (exists p, In p seen /\ drawn data w (fst p) (snd p) = true
                    /\ fst p = minX)
      /\ (exists p, In p seen /\ drawn data w (fst p) (snd p) = true
                    /\ fst p = maxX)
      /\ (exists p, In p seen /\ drawn data w (fst p) (snd p) = true
                    /\ snd p = minY)
      /\ (exists p, In p seen /\ drawn data w (fst p) (snd p) = true
                    /\ snd p = maxY)).

(** *** Binarisation and dilation *)

#[local] Open Scope nat_scope.

(** The binarisation loop of [preprocessCanvas], four bytes at a time:
    [(r + g + b) / 3 < 200] holds exactly when [r + g + b < 600].  The
    array of an [ImageData] holds four bytes per pixel; for an array that
    ends in the middle of a pixel the missing bytes read as [undefined],
    the brightness of a pixel without its blue byte is [NaN], and a store
    past the end is ignored. *)
Fixpoint binarize (pixels : list N) : list N :=
  match pixels with
  | r :: g :: b :: _ :: rest =>
      (if (r + g + b <? 600)%N then [0; 0; 0; 255] else [255; 255; 255; 255])%N
      ++ binarize rest
  | [r; g; b] => (if (r + g + b <? 600)%N then [0; 0; 0] else [255; 255; 255])%N
  | partial => map (fun _ => 255%N) partial
  end.

(** [v === 0]. *)
Definition isZero (v : option N) : bool :=
  match v with
  | Some 0%N => true
  | _ => false
  end.

(** The four stores that blacken the pixel at [idx]; a store outside the
    array is ignored. *)
Definition blacken (dilated : list N) (idx : nat) : list N :=
  <[idx + 3 := 255%N]> (<[idx + 2 := 0%N]> (<[idx + 1 := 0%N]> (<[idx := 0%N]> dilated))).

(** The body of the inner loop of the dilation. *)
Definition dilatePixel (pixels : list N) (outW : nat) (y : nat)
    (dilated : list N) (x : nat) : list N :=
  let idx := (y * outW + x) * 4 in
  if isZero (pixels !! idx) then dilated
  else
    let up := ((y - 1) * outW + x) * 4 in
    let down := ((y + 1) * outW + x) * 4 in
    let left := (y * outW + (x - 1)) * 4 in
    let right := (y * outW + (x + 1)) * 4 in
    if isZero (pixels !! up) || isZero (pixels !! down)
       || isZero (pixels !! left) || isZero (pixels !! right)
    then blacken dilated idx
    else dilated.

(** The dilation: [dilated] starts as a copy of [pixels]; [y] runs from 1
    while [y < outH - 1], [x] from 1 while [x < outW - 1]. *)
Definition dilate (pixels : list N) (outW outH : nat) : list N :=
  fold_left (fun dilated y =>
               fold_left (dilatePixel pixels outW y) (seq 1 (outW - 2)) dilated)
            (seq 1 (outH - 2)) pixels.

(** The pixel at column [x] of row [y] is one the dilation blackens: it is
    not on the border, its red byte is not 0, and the red byte of the
    pixel above, below, left or right of it is 0. *)
Definition thickened (pixels : list N) (outW outH : nat) (x y : nat) : bool :=
  (1 <=? x) && (x <? outW - 1) && (1 <=? y) && (y <? outH - 1)
  && negb (isZero (pixels !! ((y * outW + x) * 4)))
  && (isZero (pixels !! (((y - 1) * outW + x) * 4))
      || isZero (pixels !! (((y + 1) * outW + x) * 4))
      || isZero (pixels !! ((y * outW + (x - 1)) * 4))
      || isZero (pixels !! ((y * outW + (x + 1)) * 4))).

(** The bytes of a black pixel: 0, 0, 0, 255. *)
Definition blackByte (k : nat) : N := if k =? 3 then 255%N else 0%N.

(** The pixels the dilation visits, in order. *)
Definition interior (outW outH : nat) : list (nat * nat) :=
  flat_map (fun y => map (fun x => (x, y)) (seq 1 (outW - 2))) (seq 1 (outH - 2)).

(** What [dilated] holds after the pixels [seen]. *)
Definition dilatedAfter (pixels : list N) (outW outH : nat)
    (seen : list (nat * nat)) (dilated : list N) : Prop :=
  length dilated = length pixels
  /\ forall x y k, x < outW -> k < 4 ->
       let i := (y * outW + x) * 4 + k in
       (In (x, y) seen -> thickened pixels outW outH x y = true ->
        dilated !! i = Some (blackByte k))
       /\ (~ In (x, y) seen \/ thickened pixels outW outH x y = false ->
           dilated !! i = pixels !! i).

End TesseractImage.

(** ** The application script: [recognizeHandwriting] *)

Module AppScript.

(** "Canvas not found." *)
Definition canvasNotFound : jsstring :=
  [0x0915; 0x094D; 0x092F; 0x093E; 0x0928; 0x092D; 0x093E; 0x0938; 0x0020;
   0x092B; 0x0947; 0x0932; 0x093E; 0x0020; 0x092A; 0x0930; 0x0947; 0x0928;
   0x0964]%N.

(** "Could not recognise the handwriting.  Please type it in." *)
Definition typeManually : jsstring :=
  [0x0939; 0x0938; 0x094D; 0x0924; 0x0932; 0x0947; 0x0916; 0x0020; 0x092A;
   0x0939; 0x093F; 0x091A; 0x093E; 0x0928; 0x0020; 0x0917; 0x0930; 0x094D;
   0x0928; 0x0020; 0x0938; 0x0915; 0x0947; 0x0928; 0x0964; 0x0020; 0x0915;
   0x0943; 0x092A; 0x092F; 0x093E; 0x0020; 0x092E; 0x094D; 0x092F; 0x093E;
   0x0928; 0x0941; 0x0905; 0x0932; 0x0020; 0x0930; 0x0942; 0x092A; 0x092E;
   0x093E; 0x0020; 0x091F; 0x093E; 0x0907; 0x092A; 0x0020; 0x0917; 0x0930;
   0x094D; 0x0928; 0x0941; 0x0939; 0x094B; 0x0938; 0x094D; 0x0964]%N.

(** [data.some((pixel, i) => i % 4 !== 3 && pixel !== 0)] from index
    [i] on. *)
Fixpoint someFrom (i : nat) (data : list N) : bool :=
  match data with
  | [] => false
  | pixel :: rest =>
      (negb (i mod 4 =? 3) && negb (pixel =? 0)%N) || someFrom (S i) rest
  end.

(** The variable [hasContent] of [recognizeHandwriting]. *)
Definition hasColour (data : list N) : bool := someFrom 0 data.

(** What [recognizeHandwriting] finds: the bytes of the image of the
    element [drawingCanvas] ([None] when there is no such element), and how
    the request to the server completes: [response.ok], [result.text] (the
    empty string when missing) and [result.detail] (likewise), or the error
    of [fetch] or of [response.json()]. *)
Record DrawingPage : Type := mkDrawingPage {
  drawingCanvas : option (list N);
  recognition : Completion (bool * jsstring * string)
}.

Inductive AppCall : Type :=
| ShowError (message : jsstring)
| ShowLoading
| HideLoading
| PostImage
| DisplayRecognizedText (text : jsstring)
| FillFormFromTranscription (text : jsstring)
| ShowTextForm.

#[local] Open Scope eff_scope.

(** The [try] block of [recognizeHandwriting]. *)
Definition requestRecognition (page : DrawingPage) : Eff AppCall unit :=
  response <- call PostImage (recognition page) ;;
  let '(ok, text, detail) := response in
  match ok, text with
  | true, _ :: _ =>
      call (DisplayRecognizedText text) (Return tt) ;;;
      call (FillFormFromTranscription text) (Return tt)
  | _, _ =>
      throw (if String.eqb detail "" then "Recognition failed"%string else detail)
  end.

(** [recognizeHandwriting()]; [ShowTextForm] stands for the two class
    changes of the [catch] block. *)
Definition recognizeHandwriting (page : DrawingPage) : Eff AppCall unit :=
  match drawingCanvas page with
  | None => call (ShowError canvasNotFound) (Return tt)
  | Some data =>
      if negb (hasColour data)
      then call (ShowError Messages.writeFirst) (Return tt)
      else
        call ShowLoading (Return tt) ;;;
        tryFinally
          (tryCatch (requestRecognition page)
                    (fun _ => call (ShowError typeManually) (Return tt) ;;;
                              call ShowTextForm (Return tt)))
          (call HideLoading (Return tt))
  end.

End AppScript.

(** Sample images. *)
Module ImageSamples.
#[local] Open Scope N_scope.

Definition clearPixel : list N := [0; 0; 0; 0].
Definition blackPixel : list N := [0; 0; 0; 255].
Definition whitePixel : list N := [255; 255; 255; 255].

(** Three by two pixels, transparent but for the black pixel at column 1
    of row 1. *)
Definition dot : list N :=
  concat [clearPixel; clearPixel; clearPixel;
          clearPixel; blackPixel; clearPixel].

(** Three by three pixels, white but for the black pixel at column 1 of
    row 0. *)
Definition blackAbove : list N :=
  concat [whitePixel; blackPixel; whitePixel;
          whitePixel; whitePixel; whitePixel;
          whitePixel; whitePixel; whitePixel].

End ImageSamples.
(* ===================================================================== *)
(** * Part II.  Properties                                                *)
(* ===================================================================== *)

(** ** Delta encoding *)

Section DeltaFacts.
Context {F : Type} `{NumF : Number F}.
#[local] Open Scope js_scope.

Lemma deltaLoop_length (rest : list (Point F)) :
  forall prev, length (deltaLoop prev rest) = length rest.
Proof.
  induction rest as [|p rest IH]; intros prev; simpl; [reflexivity|].
  now rewrite IH.
Qed.

Lemma deltaLoop_nth (rest : list (Point F)) :
  forall prev i d,
    (i < length rest)%nat ->
    nth i (deltaLoop prev rest) d =
    mkPoint (x (nth i rest d) - x (nth i (prev :: rest) d))
            (y (nth i rest d) - y (nth i (prev :: rest) d))
            (penState (nth i rest d)) None.
Proof.
  induction rest as [|p rest IH]; intros prev i d Hi; simpl in Hi; [lia|].
  destruct i as [|i]; [reflexivity|].
  cbn [deltaLoop nth]. rewrite IH by lia. reflexivity.
Qed.

(** C5.  [_toDeltaCoordinates] returns one frame per point; every frame
    carries the penState of its point unchanged; the first frame's delta is
    (0, 0); every later frame holds the difference between its point's
    coordinates and those of the point immediately before it. *)
Theorem toDeltaCoordinates_spec (points : list (Point F)) :
  let deltas := _toDeltaCoordinates points in
  length deltas = length points
  /\ (forall i, (i < length points)%nat ->
        penState (nth i deltas zeroPoint) = penState (nth i points zeroPoint))
  /\ (forall p0, hd_error points = Some p0 ->
        hd_error deltas = Some (mkPoint 0 0 (penState p0) None))
  /\ (forall i, (0 < i < length points)%nat ->
        x (nth i deltas zeroPoint)
          = x (nth i points zeroPoint) - x (nth (i - 1) points zeroPoint)
        /\ y (nth i deltas zeroPoint)
          = y (nth i points zeroPoint) - y (nth (i - 1) points zeroPoint)).
Proof.
  destruct points as [|p0 [|p1 rest]].
  - cbn. repeat split; intros; try lia; discriminate.
  - cbn. repeat split; intros; try lia.
    + destruct i as [|i]; [reflexivity | lia].
    + congruence.
  - cbv zeta. unfold _toDeltaCoordinates.
    set (pts := p1 :: rest).
    split; [|split; [|split]].
    + cbn [length]. now rewrite deltaLoop_length.
    + intros [|i] Hi; [reflexivity|].
      cbn [nth]. cbn [length] in Hi.
      rewrite deltaLoop_nth by (subst pts; cbn [length] in *; lia). reflexivity.
    + intros q Hq. cbn in Hq. injection Hq as <-. reflexivity.
    + intros [|i] Hi; [lia|].
      cbn [nth]. cbn [length] in Hi.
      rewrite deltaLoop_nth by (subst pts; cbn [length] in *; lia).
      replace (S i - 1)%nat with i by lia. split; reflexivity.
Qed.

End DeltaFacts.

(** ** Padding, truncation and the tensor layout *)

Section PadFacts.
Context {F : Type} `{NumF : Number F} `{HostF : Host F}.
#[local] Open Scope js_scope.

Lemma padLoop_repeat (n : nat) :
  forall padded : list (Point F),
    padLoop n padded = padded ++ repeat zeroPoint n.
Proof.
  induction n as [|n IH]; intros padded; simpl.
  - now rewrite app_nil_r.
  - rewrite IH, <- app_assoc. reflexivity.
Qed.

Lemma padSequence_length (cfg : Config F) (points : list (Point F)) :
  length (_padSequence cfg points) = maxSeqLength cfg.
Proof.
  unfold _padSequence.
  destruct (Nat.leb_spec (maxSeqLength cfg) (length points)) as [Hle|Hlt].
  - rewrite length_firstn. lia.
  - rewrite padLoop_repeat, length_app, repeat_length. lia.
Qed.

Lemma padSequence_nth (cfg : Config F) (points : list (Point F)) (i : nat) :
  (i < maxSeqLength cfg)%nat ->
  nth i (_padSequence cfg points) zeroPoint = nth i points zeroPoint.
Proof.
  intros Hi. unfold _padSequence.
  destruct (Nat.leb_spec (maxSeqLength cfg) (length points)) as [Hle|Hlt].
  - rewrite <- (firstn_skipn (maxSeqLength cfg) points) at 2.
    rewrite app_nth1; [reflexivity|]. rewrite length_firstn. lia.
  - rewrite padLoop_repeat.
    destruct (Nat.lt_ge_cases i (length points)) as [Hin|Hout].
    + now rewrite app_nth1.
    + rewrite app_nth2 by lia. rewrite nth_repeat.
      now rewrite (nth_overflow points).
Qed.

Lemma toFloat32Array_length (points : list (Point F)) :
  length (_toFloat32Array points) = (length points * 3)%nat.
Proof.
  unfold _toFloat32Array.
  induction points as [|p points IH]; simpl; [reflexivity|].
  now rewrite IH.
Qed.

Lemma toFloat32Array_frame (points : list (Point F)) :
  forall i, (i < length points)%nat ->
    frameAt (_toFloat32Array points) i =
    (fround (x (nth i points zeroPoint)),
     fround (y (nth i points zeroPoint)),
     fround (penState (nth i points zeroPoint))).
Proof.
  unfold frameAt.
  induction points as [|p points IH]; intros i Hi; simpl in Hi; [lia|].
  destruct i as [|i]; [reflexivity|].
  replace (3 * S i)%nat with (S (S (S (3 * i)))) by lia.
  cbn [_toFloat32Array flat_map app nth Nat.add].
  apply IH. lia.
Qed.

Lemma newFloat32Array_frame (n i : nat) :
  frameAt (newFloat32Array n) i = (0, 0, 0).
Proof. unfold frameAt, newFloat32Array. now rewrite !nth_repeat. Qed.

Lemma featureFrames_nil (cfg : Config F) : featureFrames cfg [] = [].
Proof. unfold featureFrames. cbn. now destruct (useDeltaCoordinates cfg). Qed.

(** C1.  The tensor [process] returns has exactly [maxSeqLength] frames of
    width 3, for a missing, an empty or any other stroke set.  Its frames
    are the first [maxSeqLength] feature frames, as stored in the
    [Float32Array]; the frames past the end of a shorter sequence are
    all-zero ([dx = dy = 0], [penState = 0]).  A store of 0 into the array
    reads back as 0. *)
Theorem process_fixed_length (cfg : Config F) (strokes : option (StrokeSet F)) :
  fround 0 = 0 ->
  let n := maxSeqLength cfg in
  let frames :=
    match strokes with Some s => featureFrames cfg s | None => [] end in
  let tensor := process cfg strokes in
  length tensor = (n * 3)%nat
  /\ (forall i, (i < n)%nat -> (i < length frames)%nat ->
        frameAt tensor i =
        (fround (x (nth i frames zeroPoint)),
         fround (y (nth i frames zeroPoint)),
         fround (penState (nth i frames zeroPoint))))
  /\ (forall i, (length frames <= i < n)%nat -> frameAt tensor i = (0, 0, 0)).
Proof.
  intros Hzero n frames tensor.
  assert (Hearly :
             length (newFloat32Array (n * 3)) = (n * 3)%nat
             /\ (forall i, (i < n)%nat -> (i < 0)%nat ->
                   frameAt (newFloat32Array (n * 3)) i =
                   (fround (x (nth i [] zeroPoint)),
                    fround (y (nth i [] zeroPoint)),
                    fround (penState (nth i [] zeroPoint))))
             /\ (forall i, (0 <= i < n)%nat ->
                   frameAt (newFloat32Array (n * 3)) i = (0, 0, 0))).
  { split; [apply repeat_length|].
    split; [intros; lia|]. intros. apply newFloat32Array_frame. }
  subst frames tensor. destruct strokes as [[|s ss]|]; cbn [process].
  - rewrite featureFrames_nil. exact Hearly.
  - set (frames := featureFrames cfg (s :: ss)).
    split; [|split].
    + rewrite toFloat32Array_length, padSequence_length. reflexivity.
    + intros i Hn Hi.
      rewrite toFloat32Array_frame by (rewrite padSequence_length; exact Hn).
      now rewrite padSequence_nth.
    + intros i [Hge Hn].
      rewrite toFloat32Array_frame by (rewrite padSequence_length; exact Hn).
      rewrite padSequence_nth by exact Hn.
      rewrite (nth_overflow frames) by exact Hge.
      cbn. now rewrite Hzero.
  - exact Hearly.
Qed.

End PadFacts.

(** The host of the JavaScript engine stores 0 as 0, and the ten-point
    zig-zag is an instance: 6 feature frames, then 250 zero frames. *)
Lemma process_fixed_length_witness :
  length (process DEFAULT_CONFIG (Some [Samples.zigzag])) = 768%nat
  /\ frameAt (process DEFAULT_CONFIG (Some [Samples.zigzag])) 6
     = (0%float, 0%float, 0%float).
Proof.
  pose proof (process_fixed_length (F := float) DEFAULT_CONFIG
                (Some [Samples.zigzag]) eq_refl) as [Hlen [_ Hpad]].
  split; [exact Hlen|].
  apply Hpad. vm_compute. split; lia.
Defined.

(** ** Determinism *)

Section DeterminismFacts.
Context {F : Type} `{NumF : Number F} `{HostF : Host F}.

Lemma flattenStrokes_geometry (strokes : StrokeSet F) :
  _flattenStrokes (geometry strokes) = _flattenStrokes strokes.
Proof.
  unfold _flattenStrokes, geometry.
  induction strokes as [|s ss IH]; [reflexivity|].
  cbn [map flat_map]. rewrite IH. f_equal.
  rewrite map_map. reflexivity.
Qed.

Lemma process_geometry (cfg : Config F) (strokes : option (StrokeSet F)) :
  process cfg (option_map geometry strokes) = process cfg strokes.
Proof.
  destruct strokes as [[|s ss]|]; try reflexivity.
  cbn [option_map geometry map process]. unfold featureFrames.
  change (map stripTimestamp s :: map (map stripTimestamp) ss)
    with (geometry (s :: ss)).
  now rewrite flattenStrokes_geometry.
Qed.

(** C6.  The tensor is a function of the configuration and of the x, y and
    penState of the points, and of nothing else: two calls of [process] on
    the same stroke set -- or on stroke sets that differ in their
    timestamps only -- return equal tensors. *)
Theorem process_deterministic (cfg : Config F)
    (strokes1 strokes2 : option (StrokeSet F)) :
  option_map geometry strokes1 = option_map geometry strokes2 ->
  process cfg strokes1 = process cfg strokes2.
Proof.
  intros Hsame.
  rewrite <- (process_geometry cfg strokes1), <- (process_geometry cfg strokes2).
  now rewrite Hsame.
Qed.

End DeterminismFacts.

(** The zig-zag stroke, processed twice: once as it is, once with a
    timestamp on every point. *)
Lemma process_deterministic_witness :
  process DEFAULT_CONFIG (Some [Samples.zigzag])
  = process DEFAULT_CONFIG
      (Some [map (fun p => mkPoint (x p) (y p) (penState p) (Some (x p)))
                 Samples.zigzag]).
Proof.
  apply (process_deterministic (F := float)). reflexivity.
Defined.

(** ** What [StrokeCapture] records *)

Section CaptureFacts.
Context {F : Type} `{NumF : Number F}.

Lemma markLastPenUp_noTimestamp (stroke : Stroke F) :
  Forall (fun p => timestamp p = None) stroke ->
  Forall (fun p => timestamp p = None) (markLastPenUp stroke).
Proof.
  intros Hs. destruct stroke as [|p0 rest]; [constructor|].
  unfold markLastPenUp.
  assert (Hne : p0 :: rest <> []) by discriminate.
  rewrite (app_removelast_last p0 Hne) in Hs.
  apply Forall_app in Hs as [Hinit Hlast].
  apply Forall_app. split; [exact Hinit|].
  constructor; [|constructor]. cbn. now inversion Hlast.
Qed.

Lemma captureStep_noTimestamps (canvas : Canvas F) (st : CaptureState F)
    (ev : CaptureEvent F) :
  noTimestamps st -> noTimestamps (captureStep canvas st ev).
Proof.
  intros [Hdone Hcur]. destruct ev as [e|e| |]; cbn [captureStep].
  - split; cbn; [exact Hdone|]. repeat constructor.
  - unfold _onPointerMove. destruct (isDrawing st); cbn; [|now split].
    split; [exact Hdone|]. apply Forall_app. split; [exact Hcur|].
    repeat constructor.
  - unfold _onPointerUp. destruct (isDrawing st); cbn; [|now split].
    destruct (currentStroke st) as [|p0 rest] eqn:Hc;
      unfold noTimestamps; cbn [strokes currentStroke].
    + split; [exact Hdone | constructor].
    + split; [|constructor]. apply Forall_app. split; [exact Hdone|].
      constructor; [|constructor]. now apply markLastPenUp_noTimestamp.
  - split; constructor.
Qed.

Lemma captureRun_noTimestamps (canvas : Canvas F) (evs : list (CaptureEvent F)) :
  forall st, noTimestamps st ->
    noTimestamps (fold_left (captureStep canvas) evs st).
Proof.
  induction evs as [|ev evs IH]; intros st Hst; cbn; [exact Hst|].
  apply IH. now apply captureStep_noTimestamps.
Qed.

(** C10, as the code has it.  After any sequence of pointer-down,
    pointer-move, pointer-up and clear calls, no point held by the capture
    object -- in a completed stroke or in the stroke in progress -- has a
    timestamp property: the handlers record x, y and penState only, and the
    timestamp read by [_getCanvasPoint] stays in [lastPoint]. *)
Theorem capture_records_no_timestamp (canvas : Canvas F)
    (evs : list (CaptureEvent F)) :
  Forall (fun p => timestamp p = None) (recordedPoints (captureRun canvas evs)).
Proof.
  destruct (captureRun_noTimestamps canvas evs newStrokeCapture) as [Hdone Hcur].
  { split; constructor. }
  unfold recordedPoints. apply Forall_app. split; [|exact Hcur].
  apply Forall_concat. exact Hdone.
Qed.

End CaptureFacts.

(** C10 fails as stated: the stroke [Samples.shortStroke] is recorded with
    its two points, neither of which carries a timestamp. *)
Lemma capture_stroke_without_timestamps :
  let st := captureRun Samples.canvas400 Samples.shortStroke in
  getStrokes st = [[Samples.pt 10 20 1; Samples.pt 13 24 0]]
  /\ ~ Forall (Forall (fun p => exists t, timestamp p = Some t)) (getStrokes st).
Proof.
  split; [vm_compute; reflexivity|].
  vm_compute. intros H.
  inversion H as [|s ss Hs _]; subst.
  inversion Hs as [|p ps [t Ht] _]; subst. discriminate Ht.
Qed.

(** ** Empty input *)

Section EmptyInputFacts.
Context {F : Type} `{NumF : Number F} `{HostF : Host F} {R : Type}.
#[local] Open Scope js_scope.


End EmptyInputFacts.



(** ** The CTC collapse law *)

Section CollapseFacts.
Context {F : Type} `{NumF : Number F}.
Import CTC.

Lemma collapseRepeats_cons (blank a : nat) (rest rest' : list nat) :
  hd_error rest = hd_error rest' ->
  collapseRepeats blank rest = collapseRepeats blank rest' ->
  collapseRepeats blank (a :: rest) = collapseRepeats blank (a :: rest').
Proof.
  intros Hhd Hrec. cbn [collapseRepeats].
  destruct rest as [|b rest], rest' as [|b' rest']; cbn in Hhd; try discriminate.
  - reflexivity.
  - injection Hhd as <-. rewrite <- Hrec. reflexivity.
Qed.

Lemma collapseRepeats_run (blank k n : nat) (after : list nat) :
  k <> blank ->
  collapseRepeats blank (repeat k (S n) ++ after)
  = collapseRepeats blank (k :: after).
Proof.
  intros Hk. induction n as [|n IH]; [reflexivity|].
  rewrite <- IH. cbn [repeat app].
  cbn [collapseRepeats].
  rewrite Nat.eqb_refl. apply Nat.eqb_neq in Hk. now rewrite Hk.
Qed.

Lemma collapseRepeats_run_inside (blank k n : nat) (before after : list nat) :
  k <> blank ->
  collapseRepeats blank (before ++ repeat k (S n) ++ after)
  = collapseRepeats blank (before ++ k :: after).
Proof.
  intros Hk. induction before as [|a before IH].
  - now apply collapseRepeats_run.
  - cbn [app]. apply collapseRepeats_cons; [|exact IH].
    destruct before; reflexivity.
Qed.

Lemma dropBlanks_no_blank (blank : nat) (labels : list nat) :
  ~ In blank (dropBlanks blank labels).
Proof.
  unfold dropBlanks. intros Hin. apply filter_In in Hin as [_ Hb].
  now rewrite Nat.eqb_refl in Hb.
Qed.

(** C9.  Over the alphabet [{blank, U+0915, U+0916}], a matrix whose
    per-timestep arg-max labels are U+0915, blank, U+0915 decodes to the
    two-letter text, and one whose labels are U+0915, U+0915, blank decodes
    to the one-letter text.  In general a run of a non-blank label decodes
    as a single occurrence of it, and no blank survives. *)
Theorem greedy_collapse_law (matrix : list (list F)) :
  (map argmax matrix = [1; 0; 1] ->
     greedyDecode alphabet3 blank3 matrix = ka ++ ka)
  /\ (map argmax matrix = [1; 1; 0] ->
        greedyDecode alphabet3 blank3 matrix = ka)
  /\ (forall blank before k n after, k <> blank ->
        collapseRepeats blank (before ++ repeat k (S n) ++ after)
        = collapseRepeats blank (before ++ k :: after))
  /\ (forall blank labels, ~ In blank (dropBlanks blank labels)).
Proof.
  split; [|split; [|split]].
  - intros H. unfold greedyDecode. rewrite H. reflexivity.
  - intros H. unfold greedyDecode. rewrite H. reflexivity.
  - intros. now apply collapseRepeats_run_inside.
  - apply dropBlanks_no_blank.
Qed.

End CollapseFacts.

(** The two matrices of [Samples], decoded. *)
Lemma greedy_collapse_law_witness :
  CTC.greedyDecode CTC.alphabet3 CTC.blank3 Samples.kaBlankKa = [0x0915; 0x0915]%N
  /\ CTC.greedyDecode CTC.alphabet3 CTC.blank3 Samples.kaKaBlank = [0x0915]%N.
Proof.
  split.
  - apply (greedy_collapse_law Samples.kaBlankKa). reflexivity.
  - apply (greedy_collapse_law Samples.kaKaBlank). reflexivity.
Defined.

(** ** Strategy selection in [recognizeFromCanvas] *)

Section StrategyFacts.
Import Tesseract.
#[local] Open Scope Z_scope.
Variable initTesseract : Completion unit.
Variable ocr : string -> Completion OCRData.
Variable setParameters : string -> Completion unit.
Variable duration : Z.

Lemma keepBetter_initial (c : jsstring * Z) :
  (eligible c /\ keepBetter ([], 0) (fst c) (snd c) = c)
  \/ (~ eligible c /\ keepBetter ([], 0) (fst c) (snd c) = ([], 0)).
Proof.
  unfold keepBetter, eligible. destruct c as [t conf]. cbn [fst snd].
  destruct (Z.gtb_spec conf 0) as [Hpos|Hneg];
    destruct t as [|u t]; cbn; [right|left|right|right];
    (split; [|reflexivity]); try (split; [discriminate|lia]);
    intros [H1 H2]; try congruence; lia.
Qed.

Lemma retry_test (c : jsstring * Z) :
  let best := keepBetter ([], 0) (fst c) (snd c) in
  ((snd best <? lowConfidence) || (length (fst best) =? 0)%nat)%bool = true
  <-> needsRetry c.
Proof.
  cbv zeta. unfold needsRetry, lowConfidence.
  destruct (keepBetter_initial c) as [[[Hne Hpos] ->]|[Hno ->]].
  - destruct c as [t conf]; cbn [fst snd] in *.
    rewrite orb_true_iff, Z.ltb_lt, Nat.eqb_eq.
    destruct t; [congruence|]. cbn. intuition (try discriminate; lia).
  - cbn. split; [intros _|reflexivity].
    unfold eligible in Hno. destruct c as [t conf]; cbn [fst snd] in *.
    destruct t as [|u t]; [now right|]. left.
    destruct (Z.lt_ge_cases conf 60) as [Hlt|Hge]; [exact Hlt|].
    exfalso. apply Hno. split; [discriminate | lia].
Qed.

(** The run of [recognizeBody], spelt out by cases on the collaborators'
    answers. *)
Lemma recognizeBody_cases (mode : string) (r6 : OCRData) :
  ocr mode = Return r6 ->
  let c6 := candidate r6 in
  let best6 := keepBetter ([], 0) (fst c6) (snd c6) in
  let first := WorkerRecognize mode in
  (~ needsRetry c6 /\
   recognizeBody ocr setParameters duration mode
   = ([first], Return (resultOf duration best6)))
  \/ (needsRetry c6 /\ (exists message, setParameters "7" = Throw message) /\
      recognizeBody ocr setParameters duration mode
      = ([first; SetParameters "7"], Return (resultOf duration best6)))
  \/ (needsRetry c6 /\ (exists u, setParameters "7" = Return u) /\
      (exists message, ocr "7" = Throw message) /\
      recognizeBody ocr setParameters duration mode
      = ([first; SetParameters "7"; WorkerRecognize "7"],
         Return (resultOf duration best6)))
  \/ (needsRetry c6 /\ (exists u, setParameters "7" = Return u) /\
      exists r7, ocr "7" = Return r7 /\
      recognizeBody ocr setParameters duration mode
      = ([first; SetParameters "7"; WorkerRecognize "7"; SetParameters "6"],
         Return (resultOf duration (keepBetter best6 (fst (candidate r7))
                                      (snd (candidate r7)))))).
Proof.
  intros Hocr c6 best6 first.
  pose proof (retry_test c6) as Hretry. cbv zeta in Hretry. fold best6 in Hretry.
  unfold recognizeBody. rewrite Hocr. cbn [call bind app].
  change (JSString.trim (text r6)) with (fst c6).
  change (confidence r6) with (snd c6). fold best6.
  destruct ((snd best6 <? lowConfidence) || (length (fst best6) =? 0)%nat)%bool
    eqn:Htest.
  - assert (Hneed : needsRetry c6) by now apply Hretry.
    right. unfold tryLineMode, call, bind, tryCatch, ret.
    destruct (setParameters "7") as [u|message] eqn:H7.
    + destruct (ocr "7") as [r7|message] eqn:Ho7.
      * right. right. split; [exact Hneed|]. split; [now exists u|].
        exists r7. split; [reflexivity|].
        destruct (setParameters "6"); reflexivity.
      * right. left. split; [exact Hneed|]. split; [now exists u|].
        split; [now exists message|]. reflexivity.
    + left. split; [exact Hneed|]. split; [now exists message|]. reflexivity.
  - left. split.
    + intros Hneed. apply Hretry in Hneed. congruence.
    + reflexivity.
Qed.

Lemma keepBetter_step (best c : jsstring * Z) :
  (fst c <> [] /\ snd best < snd c /\ keepBetter best (fst c) (snd c) = c)
  \/ ((fst c = [] \/ snd c <= snd best)
      /\ keepBetter best (fst c) (snd c) = best).
Proof.
  unfold keepBetter. destruct c as [t conf]. cbn [fst snd].
  destruct (Z.gtb_spec conf (snd best)) as [Hgt|Hle]; destruct t as [|u t]; cbn.
  - right. split; [now left | reflexivity].
  - left. split; [discriminate|]. split; [lia | reflexivity].
  - right. split; [now left | reflexivity].
  - right. split; [right; lia | reflexivity].
Qed.



End StrategyFacts.



(** ** Resampling *)

Section ResampleFacts.
Context {F : Type} `{NumF : Number F} `{HostF : Host F}.
Variable minDist : F.
#[local] Open Scope js_scope.

Lemma resampleLoopIndices_bounds (rest : list (Point F)) :
  forall prev acc i0 i,
    In i (resampleLoopIndices minDist prev rest acc i0) ->
    (i0 <= i < i0 + length rest)%nat.
Proof.
  induction rest as [|p rest IH]; intros prev acc i0 i Hin; [destruct Hin|].
  cbn [resampleLoopIndices length] in *.
  destruct (isPenLift prev p); [|destruct (acc + segmentDist prev p >= minDist)];
    try (destruct Hin as [<-|Hin]; [lia|]);
    apply IH in Hin; lia.
Qed.

Lemma resampleLoopIndices_sorted (rest : list (Point F)) :
  forall prev acc i0,
    StronglySorted lt (resampleLoopIndices minDist prev rest acc i0).
Proof.
  induction rest as [|p rest IH]; intros prev acc i0; [constructor|].
  cbn [resampleLoopIndices].
  assert (Hpush : forall a,
             StronglySorted lt (i0 :: resampleLoopIndices minDist p rest a (S i0))).
  { intros a. constructor; [apply IH|].
    apply Forall_forall. intros i Hin.
    apply resampleLoopIndices_bounds in Hin. lia. }
  destruct (isPenLift prev p); [apply Hpush|].
  destruct (acc + segmentDist prev p >= minDist); [apply Hpush | apply IH].
Qed.

(** The points pushed are the points at the indices recorded. *)
Lemma resampleLoop_indices (d : Point F) (rest : list (Point F)) :
  forall prev acc i0,
    resampleLoop minDist prev rest acc
    = map (fun i => nth (i - i0) rest d)
          (resampleLoopIndices minDist prev rest acc i0).
Proof.
  induction rest as [|p rest IH]; intros prev acc i0; [reflexivity|].
  cbn [resampleLoop resampleLoopIndices].
  assert (Htail : forall a,
             resampleLoop minDist p rest a
             = map (fun i => nth (i - i0) (p :: rest) d)
                   (resampleLoopIndices minDist p rest a (S i0))).
  { intros a. rewrite (IH p a (S i0)). apply map_ext_in. intros i Hin.
    apply resampleLoopIndices_bounds in Hin.
    replace (i - i0)%nat with (S (i - S i0)) by lia. reflexivity. }
  destruct (isPenLift prev p); [|destruct (acc + segmentDist prev p >= minDist)];
    cbn [map]; rewrite ?Nat.sub_diag; cbn [nth]; now rewrite <- Htail.
Qed.

(** A pen lift is always pushed. *)
Lemma resampleLoopIndices_penLift (d : Point F) (rest : list (Point F)) :
  forall prev acc i0 j,
    (j < length rest)%nat ->
    isPenLift (nth j (prev :: rest) d) (nth j rest d) = true ->
    In (i0 + j)%nat (resampleLoopIndices minDist prev rest acc i0).
Proof.
  induction rest as [|p rest IH]; intros prev acc i0 j Hj Hlift;
    cbn [length] in Hj; [lia|].
  cbn [resampleLoopIndices].
  destruct j as [|j].
  - cbn [nth] in Hlift. rewrite Hlift, Nat.add_0_r. now left.
  - assert (Hin : forall a,
               In (i0 + S j)%nat (resampleLoopIndices minDist p rest a (S i0))).
    { intros a. replace (i0 + S j)%nat with (S i0 + j)%nat by lia.
      apply IH; [lia | exact Hlift]. }
    destruct (isPenLift prev p); [right; apply Hin|].
    destruct (acc + segmentDist prev p >= minDist); [right|]; apply Hin.
Qed.

(** A point is pushed once the distance accumulated since the loop was
    entered reaches the threshold, if nothing was pushed before it. *)
Lemma resampleLoopIndices_threshold (rest : list (Point F)) :
  forall prev acc i0 j,
    (j < length rest)%nat ->
    (forall j', (j' < j)%nat ->
       ~ In (i0 + j')%nat (resampleLoopIndices minDist prev rest acc i0)) ->
    (pathFrom acc prev (firstn (S j) rest) >= minDist) = true ->
    In (i0 + j)%nat (resampleLoopIndices minDist prev rest acc i0).
Proof.
  induction rest as [|p rest IH]; intros prev acc i0 j Hj Hnone Hreach;
    cbn [length] in Hj; [lia|].
  cbn [resampleLoopIndices] in *.
  destruct j as [|j].
  - change (firstn 1 (p :: rest)) with [p] in Hreach.
    cbn [pathFrom] in Hreach. rewrite Hreach, Nat.add_0_r.
    destruct (isPenLift prev p); now left.
  - pose proof (Hnone 0%nat ltac:(lia)) as Hfirst. rewrite Nat.add_0_r in Hfirst.
    destruct (isPenLift prev p); [exfalso; apply Hfirst; now left|].
    destruct (acc + segmentDist prev p >= minDist);
      [exfalso; apply Hfirst; now left|].
    replace (i0 + S j)%nat with (S i0 + j)%nat by lia.
    apply IH; [lia| |exact Hreach].
    intros j' Hj'. specialize (Hnone (S j') ltac:(lia)).
    now replace (i0 + S j')%nat with (S i0 + j')%nat in Hnone by lia.
Qed.

(** After a push at index [i0 + j] the loop goes on as if entered there. *)
Lemma resampleLoopIndices_restart (d : Point F) (rest : list (Point F)) :
  forall prev acc i0 j m,
    (j < length rest)%nat ->
    In (i0 + j)%nat (resampleLoopIndices minDist prev rest acc i0) ->
    (i0 + j < m)%nat ->
    In m (resampleLoopIndices minDist prev rest acc i0)
    <-> In m (resampleLoopIndices minDist (nth j rest d) (skipn (S j) rest) 0
                (S (i0 + j))).
Proof.
  induction rest as [|p rest IH]; intros prev acc i0 j m Hj Hin Hm;
    cbn [length] in Hj; [lia|].
  cbn [resampleLoopIndices] in *.
  destruct j as [|j].
  - rewrite Nat.add_0_r in *. cbn [nth skipn].
    destruct (isPenLift prev p);
      [|destruct (acc + segmentDist prev p >= minDist)].
    + split; [intros [Heq|H]; [lia | exact H] | intros H; now right].
    + split; [intros [Heq|H]; [lia | exact H] | intros H; now right].
    + apply resampleLoopIndices_bounds in Hin. lia.
  - cbn [nth skipn].
    replace (i0 + S j)%nat with (S i0 + j)%nat in * by lia.
    assert (Hrec : forall a,
               In (S i0 + j)%nat (resampleLoopIndices minDist p rest a (S i0)) ->
               In m (resampleLoopIndices minDist p rest a (S i0))
               <-> In m (resampleLoopIndices minDist (nth j rest d)
                           (skipn (S j) rest) 0 (S (S i0 + j)))).
    { intros a Ha. apply IH; [lia | exact Ha | exact Hm]. }
    destruct (isPenLift prev p);
      [|destruct (acc + segmentDist prev p >= minDist)].
    + destruct Hin as [Heq|Hin]; [lia|]. rewrite <- (Hrec _ Hin).
      split; [intros [Heq|H]; [lia | exact H] | intros H; now right].
    + destruct Hin as [Heq|Hin]; [lia|]. rewrite <- (Hrec _ Hin).
      split; [intros [Heq|H]; [lia | exact H] | intros H; now right].
    + now apply Hrec.
Qed.

(** When the last point is a pen lift, the loop ends on it. *)
Lemma resampleLoop_ends_on_lift (d : Point F) (rest : list (Point F)) :
  forall prev acc,
    rest <> [] ->
    isPenLift (List.last (prev :: removelast rest) d) (List.last rest d) = true ->
    resampleLoop minDist prev rest acc <> []
    /\ List.last (resampleLoop minDist prev rest acc) d = List.last rest d.
Proof.
  induction rest as [|p rest IH]; intros prev acc Hne Hlift; [congruence|].
  destruct rest as [|q rest].
  - cbn in Hlift. cbn [resampleLoop]. rewrite Hlift. split; [discriminate | reflexivity].
  - assert (Htail : forall a,
               resampleLoop minDist p (q :: rest) a <> []
               /\ List.last (resampleLoop minDist p (q :: rest) a) d
                  = List.last (q :: rest) d).
    { intros a. apply IH; [discriminate | exact Hlift]. }
    change (List.last (p :: q :: rest) d) with (List.last (q :: rest) d).
    clear IH Hlift Hne. remember (q :: rest) as qs eqn:Hqs. clear Hqs.
    cbn [resampleLoop].
    destruct (isPenLift prev p);
      [|destruct (acc + segmentDist prev p >= minDist)].
    + destruct (Htail 0) as [Hn Hl]. split; [discriminate|].
      destruct (resampleLoop minDist p qs 0); [congruence | exact Hl].
    + destruct (Htail 0) as [Hn Hl]. split; [discriminate|].
      destruct (resampleLoop minDist p qs 0); [congruence | exact Hl].
    + apply Htail.
Qed.

(** Pen states as the capture writes them: [0] (up) or [1] (down). *)
Lemma resampleLoop_last_pen_up (d : Point F) (rest : list (Point F)) :
  forall prev acc lastKept,
    Forall (fun p => (penState p === 0) || (penState p === 1) = true)
           (prev :: rest) ->
    (penState (List.last (prev :: rest) d) === 0) = true ->
    ((penState prev === 0) = true -> (penState lastKept === 0) = true) ->
    (penState (List.last (lastKept :: resampleLoop minDist prev rest acc) d) === 0)
    = true.
Proof.
  induction rest as [|p rest IH]; intros prev acc lastKept Hpens Hfinal Hinv.
  - cbn in Hfinal |- *. now apply Hinv.
  - change (List.last (prev :: p :: rest) d) with (List.last (p :: rest) d)
      in Hfinal.
    pose proof (Forall_inv Hpens) as Hprev.
    pose proof (Forall_inv_tail Hpens) as Htail.
    assert (Hpushed : forall a,
               (penState (List.last (p :: resampleLoop minDist p rest a) d) === 0)
               = true).
    { intros a. apply IH; [exact Htail | exact Hfinal | tauto]. }
    cbn [resampleLoop].
    destruct (isPenLift prev p) eqn:Hlift;
      [|destruct (acc + segmentDist prev p >= minDist)].
    + change (List.last (lastKept :: p :: resampleLoop minDist p rest 0) d)
        with (List.last (p :: resampleLoop minDist p rest 0) d).
      apply Hpushed.
    + change (List.last (lastKept :: p :: resampleLoop minDist p rest 0) d)
        with (List.last (p :: resampleLoop minDist p rest 0) d).
      apply Hpushed.
    + apply IH; [exact Htail | exact Hfinal|].
      intros Hup. apply Hinv.
      unfold isPenLift in Hlift. rewrite Hup in Hlift. cbn [andb] in Hlift.
      cbv beta in Hprev. rewrite Hlift, orb_false_r in Hprev. exact Hprev.
Qed.

End ResampleFacts.

Section ResampleTheorem.
Context {F : Type} `{NumF : Number F} `{HostF : Host F}.
#[local] Open Scope js_scope.

Lemma last_default_irrelevant {A : Type} (l : list A) (d d' : A) :
  l <> [] -> List.last l d = List.last l d'.
Proof.
  induction l as [|a l IH]; intros Hne; [congruence|].
  destruct l as [|b l]; [reflexivity|].
  change (List.last (b :: l) d = List.last (b :: l) d').
  apply IH. discriminate.
Qed.

(** The output of [_resamplePoints] as the kept points followed by the
    guarded final push. *)
Lemma resamplePoints_shape (cfg : Config F) (p0 p1 : Point F)
    (rest : list (Point F)) :
  let points := p0 :: p1 :: rest in
  let keptPoints :=
    map (fun i => nth i points zeroPoint) (keptIndices cfg points) in
  let final := List.last points zeroPoint in
  keptPoints = p0 :: resampleLoop (resampleDistance cfg) p0 (p1 :: rest) 0
  /\ _resamplePoints cfg points
     = keptPoints ++ (if coordsDiffer final (List.last keptPoints zeroPoint)
                      then [final] else []).
Proof.
  intros points keptPoints final.
  assert (Hkept : keptPoints
                  = p0 :: resampleLoop (resampleDistance cfg) p0 (p1 :: rest) 0).
  { subst keptPoints points. cbn [keptIndices map nth]. f_equal.
    rewrite (resampleLoop_indices (resampleDistance cfg) zeroPoint (p1 :: rest) p0 0 1).
    apply map_ext_in. intros i Hin.
    apply resampleLoopIndices_bounds in Hin.
    destruct i as [|i]; [lia|].
    replace (S i - 1)%nat with i by lia. reflexivity. }
  split; [exact Hkept|].
  rewrite Hkept. subst final points. unfold _resamplePoints.
  rewrite (last_default_irrelevant (p0 :: p1 :: rest) p0 zeroPoint) by discriminate.
  rewrite (last_default_irrelevant
             (p0 :: resampleLoop (resampleDistance cfg) p0 (p1 :: rest) 0)
             p0 zeroPoint) by discriminate.
  destruct (coordsDiffer _ _); [reflexivity | now rewrite app_nil_r].
Qed.

(** What the resampling receives from the capture: the points of
    recorded strokes, flattened, have pen state 0 or 1, and the last of
    them has pen up. *)
Lemma flattened_strokes_pen_states (strokes : StrokeSet F) :
  (0 === 0) = true -> (1 === 1) = true ->
  strokes <> [] -> Forall recordedStroke strokes ->
  Forall (fun p => (penState p === 0) || (penState p === 1) = true)
         (_flattenStrokes strokes)
  /\ (penState (List.last (_flattenStrokes strokes) zeroPoint) === 0) = true.
Proof.
  intros Hzero Hone Hne Hrec. unfold _flattenStrokes. split.
  - apply Forall_forall. intros q Hq.
    apply in_flat_map in Hq as (s & Hs & Hq).
    apply in_map_iff in Hq as (p & <- & Hp). cbn [penState].
    rewrite Forall_forall in Hrec.
    destruct (Hrec s Hs) as (init & final & -> & Hdown & Hup).
    apply in_app_or in Hp as [Hp|[<-|[]]].
    + rewrite Forall_forall in Hdown. rewrite (Hdown p Hp), Hone.
      apply orb_true_r.
    + now rewrite Hup, Hzero.
  - rewrite (app_removelast_last [] Hne) in Hrec |- *.
    apply Forall_app in Hrec as [_ Hlast].
    apply Forall_inv in Hlast.
    destruct Hlast as (init & final & Hs & _ & Hup).
    rewrite flat_map_app, Hs. cbn [flat_map]. rewrite app_nil_r, map_app.
    cbn [map]. rewrite app_assoc, last_last. cbn [penState].
    now rewrite Hup.
Qed.

(** C4, as the code has it.  For a flattened point list with at least two
    points, with [kept] the indices the resampling keeps before its final
    step: the output is the points at [kept], in order, followed by the
    final point when its x or y differs from that of the last kept point;
    index 0 is kept; every pen lift (penState up right after penState down)
    is kept; a point is kept once the path distance accumulated since the
    last kept point reaches [resampleDistance].  When the final point is a
    pen lift -- as in every stroke [StrokeCapture] records -- the output
    has at least two points, starts at the first point and ends at the
    final one; it also has at least two points whenever the final point's
    coordinates differ from the first point's.  The final point is always
    kept on the lists the capture produces, those whose pen states are 0
    or 1 and whose final point has pen up: the output ends with the final
    point itself, or, when the final push is skipped, with a kept point
    that has the final point's x and y and, like it, pen up. *)
Theorem resamplePoints_keeps (cfg : Config F) (points : list (Point F)) :
  (2 <= length points)%nat ->
  let n := length points in
  let kept := keptIndices cfg points in
  let keptPoints := map (fun i => nth i points zeroPoint) kept in
  let final := List.last points zeroPoint in
  let resampled := _resamplePoints cfg points in
  resampled
  = keptPoints ++ (if coordsDiffer final (List.last keptPoints zeroPoint)
                   then [final] else [])
  /\ StronglySorted lt kept
  /\ (forall i, In i kept -> (i < n)%nat)
  /\ hd_error kept = Some 0%nat
  /\ hd_error resampled = hd_error points
  /\ (forall i, (1 <= i < n)%nat ->
        isPenLift (nth (i - 1) points zeroPoint) (nth i points zeroPoint) = true ->
        In i kept)
  /\ (forall k i, In k kept -> (k < i < n)%nat ->
        (forall j, (k < j < i)%nat -> ~ In j kept) ->
        (pathDist points k i >= resampleDistance cfg) = true ->
        In i kept)
  /\ (isPenLift (List.last (removelast points) zeroPoint) final = true ->
        (2 <= length resampled)%nat /\ List.last resampled zeroPoint = final)
  /\ (coordsDiffer final (nth 0 points zeroPoint) = true ->
        (2 <= length resampled)%nat)
  /\ (Forall (fun p => (penState p === 0) || (penState p === 1) = true) points ->
      (penState final === 0) = true ->
      List.last resampled zeroPoint = final
      \/ ((x final === x (List.last resampled zeroPoint)) = true
          /\ (y final === y (List.last resampled zeroPoint)) = true
          /\ (penState (List.last resampled zeroPoint) === 0) = true)).
Proof.
  intros Hlen.
  destruct points as [|p0 [|p1 rest]]; cbn [length] in Hlen; try lia.
  intros n kept keptPoints final resampled.
  set (minDist := resampleDistance cfg).
  set (rest1 := p1 :: rest).
  set (L := resampleLoopIndices minDist p0 rest1 0 1).
  assert (Hkept : kept = 0%nat :: L) by reflexivity.
  assert (Hn : n = S (length rest1)) by reflexivity.
  destruct (resamplePoints_shape cfg p0 p1 rest) as [HkeptPoints Hshape].
  change (keptPoints = p0 :: resampleLoop minDist p0 rest1 0) in HkeptPoints.
  change (resampled
          = keptPoints ++ (if coordsDiffer final (List.last keptPoints zeroPoint)
                           then [final] else [])) in Hshape.
  assert (Hbounds : forall i, In i L -> (1 <= i < n)%nat).
  { intros i Hi. apply resampleLoopIndices_bounds in Hi. lia. }
  split; [exact Hshape|].
  split.
  { rewrite Hkept. constructor; [apply resampleLoopIndices_sorted|].
    apply Forall_forall. intros i Hi. apply Hbounds in Hi. lia. }
  split.
  { rewrite Hkept. intros i [<-|Hi]; [lia | now apply Hbounds]. }
  split; [now rewrite Hkept|].
  split.
  { rewrite Hshape, HkeptPoints. reflexivity. }
  split.
  { intros i Hi Hlift. rewrite Hkept. right.
    destruct i as [|j]; [lia|].
    replace (S j - 1)%nat with j in Hlift by lia.
    apply (resampleLoopIndices_penLift minDist zeroPoint rest1 p0 0 1 j);
      [lia | exact Hlift]. }
  split.
  { intros k i Hk Hi Hnone Hreach. rewrite Hkept. right.
    rewrite Hkept in Hk, Hnone.
    destruct i as [|j]; [lia|].
    destruct Hk as [<-|Hk].
    - (* since index 0 *)
      apply (resampleLoopIndices_threshold minDist rest1 p0 0 1 j); [lia| |].
      + intros j' Hj' Hin. apply (Hnone (1 + j')%nat); [lia | now right].
      + unfold pathDist in Hreach. rewrite Nat.sub_0_r in Hreach. exact Hreach.
    - (* since a later kept index *)
      pose proof (Hbounds k Hk) as Hkb.
      destruct k as [|k']; [lia|].
      assert (Hrestart : forall m, (S k' < m)%nat ->
                 In m L <->
                 In m (resampleLoopIndices minDist (nth k' rest1 zeroPoint)
                         (skipn (S k') rest1) 0 (S (S k')))).
      { intros m Hm.
        apply (resampleLoopIndices_restart minDist zeroPoint rest1 p0 0 1 k' m);
          [lia | exact Hk | lia]. }
      apply Hrestart; [lia|].
      replace (S j) with (S (S k') + (j - S k'))%nat by lia.
      apply resampleLoopIndices_threshold.
      + rewrite length_skipn. lia.
      + intros j' Hj' Hin.
        apply (Hnone (S (S k') + j')%nat); [lia|]. right.
        apply Hrestart; [lia | exact Hin].
      + unfold pathDist in Hreach.
        change (nth (S k') (p0 :: rest1) zeroPoint)
          with (nth k' rest1 zeroPoint) in Hreach.
        change (skipn (S (S k')) (p0 :: rest1))
          with (skipn (S k') rest1) in Hreach.
        replace (S (j - S k')) with (S j - S k')%nat by lia. exact Hreach. }
  split.
  { intros Hlift.
    destruct (resampleLoop_ends_on_lift minDist zeroPoint rest1 p0 0)
      as [Hne Hlast]; [discriminate | exact Hlift |].
    assert (HlastKept : List.last keptPoints zeroPoint = final).
    { rewrite HkeptPoints.
      destruct (resampleLoop minDist p0 rest1 0) as [|q qs] eqn:Hloop;
        [congruence|].
      exact Hlast. }
    assert (HlenKept : (2 <= length keptPoints)%nat).
    { rewrite HkeptPoints.
      destruct (resampleLoop minDist p0 rest1 0); [congruence | cbn; lia]. }
    rewrite Hshape.
    destruct (coordsDiffer final (List.last keptPoints zeroPoint)).
    - rewrite length_app, last_last. split; [lia | reflexivity].
    - rewrite app_nil_r. split; [exact HlenKept | exact HlastKept]. }
  split.
  { intros Hdiff. rewrite Hshape, HkeptPoints in *.
    cbn [nth] in Hdiff.
    destruct (resampleLoop minDist p0 rest1 0) as [|q qs].
    - cbn [List.last]. rewrite Hdiff. cbn. lia.
    - rewrite length_app. cbn [length]. lia. }
  { intros Hpens Hup.
    assert (HlastKept : (penState (List.last keptPoints zeroPoint) === 0) = true).
    { rewrite HkeptPoints.
      apply resampleLoop_last_pen_up; [exact Hpens | exact Hup | tauto]. }
    rewrite Hshape.
    destruct (coordsDiffer final (List.last keptPoints zeroPoint)) eqn:Hdiff.
    - left. apply last_last.
    - right. rewrite app_nil_r.
      unfold coordsDiffer in Hdiff.
      apply orb_false_elim in Hdiff as [Hx Hy].
      apply negb_false_iff in Hx, Hy.
      split; [exact Hx | split; [exact Hy | exact HlastKept]]. }
Qed.

End ResampleTheorem.

(** The ten-point zig-zag resamples to at least two points, from its start
    to its end. *)
Lemma resamplePoints_keeps_witness :
  (2 <= length (_resamplePoints DEFAULT_CONFIG Samples.zigzag))%nat
  /\ hd_error (_resamplePoints DEFAULT_CONFIG Samples.zigzag)
     = Some (Samples.pt 10 10 1)
  /\ List.last (_resamplePoints DEFAULT_CONFIG Samples.zigzag) zeroPoint
     = Samples.pt 19 12 0
  /\ (List.last (_resamplePoints DEFAULT_CONFIG Samples.zigzag) zeroPoint
      = List.last Samples.zigzag zeroPoint
      \/ ((x (List.last Samples.zigzag zeroPoint)
           === x (List.last (_resamplePoints DEFAULT_CONFIG Samples.zigzag)
                            zeroPoint))%js = true
          /\ (y (List.last Samples.zigzag zeroPoint)
              === y (List.last (_resamplePoints DEFAULT_CONFIG Samples.zigzag)
                               zeroPoint))%js = true
          /\ (penState (List.last (_resamplePoints DEFAULT_CONFIG Samples.zigzag)
                                  zeroPoint) === 0)%js = true)).
Proof.
  destruct (resamplePoints_keeps DEFAULT_CONFIG Samples.zigzag
              ltac:(cbn; lia))
    as (_ & _ & _ & _ & Hhd & _ & _ & Hlift & _ & Hfinal).
  destruct (Hlift ltac:(vm_compute; reflexivity)) as [Hlen Hlast].
  split; [exact Hlen|]. split; [exact Hhd|]. split; [exact Hlast|].
  apply Hfinal; [|vm_compute; reflexivity].
  repeat constructor.
Defined.

(** The condition on the pen states is needed.  Of two points at the same
    place, pen up on the first and pen down on the second -- a list no
    capture produces -- only the first is kept: the final point is under
    the threshold and is not a pen lift, and the final push is skipped
    because its coordinates equal the last kept point's. *)
Lemma resamplePoints_final_point_pen_down :
  (2 <= length Samples.samePlace)%nat
  /\ _resamplePoints DEFAULT_CONFIG Samples.samePlace = [Samples.pt 0 0 0]
  /\ ~ In (List.last Samples.samePlace zeroPoint)
          (_resamplePoints DEFAULT_CONFIG Samples.samePlace).
Proof.
  split; [cbn; lia|]. split; [vm_compute; reflexivity|].
  vm_compute. intros [H|[]].
  apply (f_equal (fun p => PrimFloat.eqb (penState p) 0)) in H.
  vm_compute in H. discriminate H.
Qed.

(** ** Normalisation *)

Section NormalizeShape.
Context {F : Type} `{NumF : Number F}.
#[local] Open Scope js_scope.

(** The four bounds of the box are four independent folds. *)
Lemma boundingBox_folds (points : list (Point F)) :
  forall b,
    fold_left extendBounds points b
    = mkBounds (fold_left math_min (map x points) (xMin b))
               (fold_left math_max (map x points) (xMax b))
               (fold_left math_min (map y points) (yMin b))
               (fold_left math_max (map y points) (yMax b)).
Proof.
  induction points as [|p points IH]; intros b; cbn [fold_left map].
  - now destruct b.
  - rewrite IH. reflexivity.
Qed.

Lemma normalizeCoordinates_map (points : list (Point F)) :
  _normalizeCoordinates points
  = map (fun p => mkPoint (2 * (x p - xMin (boundingBox points))
                             / xRange (boundingBox points) - 1)
                          (2 * (y p - yMin (boundingBox points))
                             / yRange (boundingBox points) - 1)
                          (penState p) None)
        points.
Proof. now destruct points. Qed.

(** Delta encoding of a list that stays at [c] in x, or in y. *)
Lemma deltaLoop_constant (proj : Point F -> F) (c : F)
    (rest : list (Point F)) :
  (proj = x \/ proj = y) -> c - c = 0 ->
  forall prev, proj prev = c -> map proj rest = repeat c (length rest) ->
    map proj (deltaLoop prev rest) = repeat 0 (length rest).
Proof.
  intros Hproj Hc.
  induction rest as [|p rest IH]; intros prev Hprev Hrest; [reflexivity|].
  cbn [map length repeat] in Hrest. injection Hrest as Hp Hrest.
  cbn [deltaLoop map length repeat]. f_equal.
  - destruct Hproj as [-> | ->]; cbn [x y]; now rewrite Hp, Hprev.
  - now apply IH.
Qed.

Lemma toDeltaCoordinates_constant (proj : Point F -> F) (c : F)
    (points : list (Point F)) :
  (proj = x \/ proj = y) -> c - c = 0 ->
  map proj points = repeat c (length points) ->
  map proj (_toDeltaCoordinates points) = repeat 0 (length points).
Proof.
  intros Hproj Hc Hpoints.
  destruct points as [|p0 [|p1 rest]].
  - reflexivity.
  - destruct Hproj as [-> | ->]; reflexivity.
  - unfold _toDeltaCoordinates.
    cbn [map length repeat] in Hpoints |- *.
    injection Hpoints as Hp0 Hp1 Hrest.
    f_equal; [destruct Hproj as [-> | ->]; reflexivity|].
    apply (deltaLoop_constant proj c (p1 :: rest) Hproj Hc p0 Hp0).
    cbn [map length repeat]. now rewrite Hp1, Hrest.
Qed.

End NormalizeShape.

(** ** Normalisation, on IEEE binary64 *)

Module FloatFacts.
Import FloatOrder.
#[local] Open Scope float_scope.

Lemma SFcompare_key (a b : spec_float) :
  a <> S754_nan -> b <> S754_nan ->
  match SFcompare a b with
  | Some Lt => below a b
  | Some Eq => level a b
  | Some Gt => below b a
  | None => False
  end.
Proof.
  intros Ha Hb. unfold below, level.
  destruct a as [s|s| |s m e], b as [s'|s'| |s' m' e']; try congruence;
    try destruct s; try destruct s'; cbn; try lia.
  all: change (PosDef.Pos.compare_cont Eq m m') with (Pos.compare m m').
  all: destruct (Z.compare_spec e e') as [He|He|He];
    [destruct (Pos.compare_spec m m') as [Hm|Hm|Hm]| |]; cbn; lia.
Qed.

Lemma is_nan_spec (a : float) :
  is_nan a = match Prim2SF a with S754_nan => true | _ => false end.
Proof.
  unfold is_nan. rewrite eqb_spec.
  destruct (Prim2SF a) as [s|s| |s m e]; try destruct s; cbn; try reflexivity.
  all: rewrite Z.compare_refl.
  all: change (PosDef.Pos.compare_cont Eq m m) with (Pos.compare m m).
  all: now rewrite Pos.compare_refl.
Qed.

Lemma number_not_nan (a : float) : number a -> is_nan a = false.
Proof.
  unfold number. rewrite is_nan_spec. now destruct (Prim2SF a).
Qed.

Lemma is_finite_spec (a : float) : is_finite a = finiteSF (Prim2SF a).
Proof.
  unfold is_finite, is_infinity. rewrite is_nan_spec, eqb_spec, abs_spec.
  destruct (Prim2SF a) as [s|s| |s m e]; try destruct s; reflexivity.
Qed.

Lemma finite_number (a : float) : is_finite a = true -> number a.
Proof.
  rewrite is_finite_spec. unfold number. now destruct (Prim2SF a).
Qed.

Lemma ltb_below (a b : float) :
  number a -> number b ->
  (a <? b) = true <-> below (Prim2SF a) (Prim2SF b).
Proof.
  intros Ha Hb. rewrite ltb_spec. unfold SFltb.
  pose proof (SFcompare_key _ _ Ha Hb) as Hkey.
  pose proof (SFcompare_key _ _ Hb Ha) as Hkey'.
  unfold below, level in *.
  destruct (SFcompare (Prim2SF a) (Prim2SF b)) as [[]|];
    split; intros H; try reflexivity; try discriminate; try lia; tauto.
Qed.

Lemma eqb_level (a b : float) :
  number a -> number b -> (a =? b) = true <-> equalTo a b.
Proof.
  intros Ha Hb. rewrite eqb_spec. unfold SFeqb, equalTo.
  pose proof (SFcompare_key _ _ Ha Hb) as Hkey.
  unfold below, level in *.
  destruct (SFcompare (Prim2SF a) (Prim2SF b)) as [[]|];
    split; intros H; try reflexivity; try discriminate; try lia; tauto.
Qed.

Lemma eqb_numbers (a b : float) : (a =? b) = true -> number a /\ number b.
Proof.
  rewrite eqb_spec. unfold number.
  destruct (Prim2SF a), (Prim2SF b); cbn; intros H; split; congruence.
Qed.

Lemma ltb_numbers (a b : float) : (a <? b) = true -> number a /\ number b.
Proof.
  rewrite ltb_spec. unfold number.
  destruct (Prim2SF a), (Prim2SF b); cbn; intros H; split; congruence.
Qed.

Lemma ltb_total (a b : float) :
  number a -> number b -> (a <? b) = false -> (b <? a) = false -> equalTo a b.
Proof.
  intros Ha Hb. rewrite !ltb_spec. unfold SFltb, equalTo.
  pose proof (SFcompare_key _ _ Ha Hb) as Hkey.
  pose proof (SFcompare_key _ _ Hb Ha) as Hkey'.
  unfold below, level in *.
  destruct (SFcompare (Prim2SF a) (Prim2SF b)) as [[]|],
           (SFcompare (Prim2SF b) (Prim2SF a)) as [[]|];
    intros H H'; try discriminate; try lia; tauto.
Qed.

(** *** [Math.min] and [Math.max] *)

Lemma min_spec (m v : float) :
  number m -> number v ->
  (JSFloat.min m v = m \/ JSFloat.min m v = v)
  /\ atMost (JSFloat.min m v) m /\ atMost (JSFloat.min m v) v.
Proof.
  intros Hm Hv. unfold JSFloat.min.
  rewrite (number_not_nan m Hm), (number_not_nan v Hv). cbn [orb].
  assert (Hrefl : forall a, atMost a a).
  { intros a. right. unfold level. tauto. }
  destruct (m <? v) eqn:Hlt.
  - apply ltb_below in Hlt; [|assumption..].
    split; [now left|]. split; [apply Hrefl | now left].
  - destruct (v <? m) eqn:Hgt.
    + apply ltb_below in Hgt; [|assumption..].
      split; [now right|]. split; [now left | apply Hrefl].
    + pose proof (ltb_total m v Hm Hv Hlt Hgt) as Heq.
      assert (Heq' : equalTo v m).
      { unfold equalTo, level in *. intuition congruence. }
      destruct (is_zero m && get_sign m)%bool.
      * split; [now left|]. split; [apply Hrefl | now right].
      * split; [now right|]. split; [now right | apply Hrefl].
Qed.

Lemma max_spec (m v : float) :
  number m -> number v ->
  (JSFloat.max m v = m \/ JSFloat.max m v = v)
  /\ atMost m (JSFloat.max m v) /\ atMost v (JSFloat.max m v).
Proof.
  intros Hm Hv. unfold JSFloat.max.
  rewrite (number_not_nan m Hm), (number_not_nan v Hv). cbn [orb].
  assert (Hrefl : forall a, atMost a a).
  { intros a. right. unfold level. tauto. }
  destruct (m <? v) eqn:Hlt.
  - apply ltb_below in Hlt; [|assumption..].
    split; [now right|]. split; [now left | apply Hrefl].
  - destruct (v <? m) eqn:Hgt.
    + apply ltb_below in Hgt; [|assumption..].
      split; [now left|]. split; [apply Hrefl | now left].
    + pose proof (ltb_total m v Hm Hv Hlt Hgt) as Heq.
      assert (Heq' : equalTo v m).
      { unfold equalTo, level in *. intuition congruence. }
      destruct (is_zero m && negb (get_sign m))%bool.
      * split; [now left|]. split; [apply Hrefl | now right].
      * split; [now right|]. split; [now right | apply Hrefl].
Qed.

Lemma atMost_trans (a b c : float) : atMost a b -> atMost b c -> atMost a c.
Proof. unfold atMost, below, level. lia. Qed.

Lemma atMost_squeeze (lo v hi : float) :
  atMost lo v -> atMost v hi -> equalTo hi lo -> equalTo v lo.
Proof. unfold atMost, equalTo, below, level. lia. Qed.

(** The least and the greatest of a list, as the loop of
    [_normalizeCoordinates] accumulates them. *)
Lemma fold_min_spec (vs : list float) :
  forall m, number m -> Forall number vs ->
    let lo := fold_left JSFloat.min vs m in
    (lo = m \/ In lo vs) /\ atMost lo m /\ Forall (atMost lo) vs.
Proof.
  induction vs as [|v vs IH]; intros m Hm Hvs; cbn [fold_left].
  - split; [now left|]. split; [|constructor]. right. unfold level. tauto.
  - pose proof (Forall_inv Hvs) as Hv.
    pose proof (Forall_inv_tail Hvs) as Htail.
    destruct (min_spec m v Hm Hv) as (Hsel & Hle_m & Hle_v).
    assert (Hnum : number (JSFloat.min m v)).
    { destruct Hsel as [->| ->]; assumption. }
    destruct (IH (JSFloat.min m v) Hnum Htail) as (Hin & Hle & Hall).
    cbv zeta. split; [|split].
    + destruct Hin as [Hin|Hin]; [|right; now right].
      rewrite Hin. destruct Hsel as [->| ->]; [now left | right; now left].
    + eapply atMost_trans; [exact Hle | exact Hle_m].
    + constructor; [|exact Hall].
      eapply atMost_trans; [exact Hle | exact Hle_v].
Qed.

Lemma fold_max_spec (vs : list float) :
  forall m, number m -> Forall number vs ->
    let hi := fold_left JSFloat.max vs m in
    (hi = m \/ In hi vs) /\ atMost m hi /\ Forall (fun v => atMost v hi) vs.
Proof.
  induction vs as [|v vs IH]; intros m Hm Hvs; cbn [fold_left].
  - split; [now left|]. split; [|constructor]. right. unfold level. tauto.
  - pose proof (Forall_inv Hvs) as Hv.
    pose proof (Forall_inv_tail Hvs) as Htail.
    destruct (max_spec m v Hm Hv) as (Hsel & Hle_m & Hle_v).
    assert (Hnum : number (JSFloat.max m v)).
    { destruct Hsel as [->| ->]; assumption. }
    destruct (IH (JSFloat.max m v) Hnum Htail) as (Hin & Hle & Hall).
    cbv zeta. split; [|split].
    + destruct Hin as [Hin|Hin]; [|right; now right].
      rewrite Hin. destruct Hsel as [->| ->]; [now left | right; now left].
    + eapply atMost_trans; [exact Hle_m | exact Hle].
    + constructor; [|exact Hall].
      eapply atMost_trans; [exact Hle_v | exact Hle].
Qed.

Lemma leb_atMost (a b : float) :
  number a -> number b -> (a <=? b) = true <-> atMost a b.
Proof.
  intros Ha Hb. rewrite leb_spec. unfold SFleb, atMost.
  pose proof (SFcompare_key _ _ Ha Hb) as Hkey.
  unfold below, level in *.
  destruct (SFcompare (Prim2SF a) (Prim2SF b)) as [[]|];
    split; intros H; try reflexivity; try discriminate; try lia; tauto.
Qed.

(** *** Subtraction *)

(** Rounding never makes a NaN. *)
Lemma shr_1_sign (mrs : shr_record) :
  (0 <= shr_m mrs)%Z -> (0 <= shr_m (shr_1 mrs))%Z.
Proof.
  destruct mrs as [m r s]. cbn [shr_m].
  destruct m as [|[p|p|]|p]; cbn; lia.
Qed.

Lemma iter_pos_sign (p : positive) :
  forall mrs, (0 <= shr_m mrs)%Z -> (0 <= shr_m (iter_pos shr_1 p mrs))%Z.
Proof.
  induction p as [p IH|p IH|]; intros mrs Hm; cbn [iter_pos].
  - apply IH, IH. now apply shr_1_sign.
  - now apply IH, IH.
  - now apply shr_1_sign.
Qed.

Lemma shr_fexp_sign (prec emax m e : Z) (l : location) :
  (0 <= m)%Z -> (0 <= shr_m (fst (shr_fexp prec emax m e l)))%Z.
Proof.
  intros Hm. unfold shr_fexp, shr.
  assert (Hrec : (0 <= shr_m (shr_record_of_loc m l))%Z).
  { destruct l as [|[]]; exact Hm. }
  destruct (fexp prec emax (Zdigits2 m + e) - e)%Z; cbn [fst];
    [exact Hrec | now apply iter_pos_sign | exact Hrec].
Qed.

Lemma round_nearest_even_sign (m : Z) (l : location) :
  (0 <= m)%Z -> (0 <= round_nearest_even m l)%Z.
Proof.
  intros Hm. destruct l as [|[]]; cbn; try lia.
  destruct (Z.even m); lia.
Qed.

Lemma binary_round_aux_number (prec emax : Z) (sx : bool) (mx ex : Z)
    (lx : location) :
  (0 <= mx)%Z -> binary_round_aux prec emax sx mx ex lx <> S754_nan.
Proof.
  intros Hm. unfold binary_round_aux.
  pose proof (shr_fexp_sign prec emax mx ex lx Hm) as Hfirst.
  destruct (shr_fexp prec emax mx ex lx) as [mrs' e']. cbn [fst] in Hfirst.
  pose proof (shr_fexp_sign prec emax _ e' loc_Exact
                (round_nearest_even_sign _ (loc_of_shr_record mrs') Hfirst))
    as Hsecond.
  destruct (shr_fexp prec emax _ e' loc_Exact) as [mrs'' e''].
  cbn [fst] in Hsecond.
  destruct (shr_m mrs'') as [|m|m]; [discriminate| |lia].
  destruct (e'' <=? emax - prec)%Z; discriminate.
Qed.

Lemma binary_normalize_number (prec emax m e : Z) (szero : bool) :
  binary_normalize prec emax m e szero <> S754_nan.
Proof.
  destruct m as [|m|m]; cbn [binary_normalize]; [discriminate| |];
    unfold binary_round;
    destruct (shl_align m e _) as [mz ez];
    now apply binary_round_aux_number.
Qed.

Lemma sub_number (u v : float) :
  is_finite u = true -> is_finite v = true -> number (u - v).
Proof.
  rewrite !is_finite_spec. unfold number. rewrite sub_spec.
  unfold SF64sub, SFsub.
  destruct (Prim2SF u) as [s|s| |s m e], (Prim2SF v) as [s'|s'| |s' m' e'];
    try discriminate; intros _ _.
  - destruct s, s'; discriminate.
  - apply binary_normalize_number.
Qed.

(** The difference of two finite numbers that compare equal is a zero. *)
Lemma sub_level (u v : float) :
  is_finite u = true -> equalTo u v -> isSignedZero (u - v).
Proof.
  rewrite is_finite_spec. unfold equalTo, level, isSignedZero. rewrite sub_spec.
  unfold SF64sub, SFsub.
  destruct (Prim2SF u) as [s|s| |s m e], (Prim2SF v) as [s'|s'| |s' m' e'];
    try discriminate; intros _ (Hcls & Hexp & Hman);
    try destruct s; try destruct s'; cbn in Hcls, Hexp, Hman;
    try discriminate; try (eexists; reflexivity).
  all: assert (He : e' = e) by lia; injection Hman as ->; subst e'.
  all: cbn [cond_Zopp]; rewrite Z.sub_diag; eexists; reflexivity.
Qed.

(** The arithmetic of the normalising expression at the least
    coordinate, whatever the range. *)
Lemma normalize_least (d r : float) :
  isSignedZero d -> number r -> atMost 1 r -> (2 * d / r - 1 = -1)%float.
Proof.
  intros [s Hd] Hr Hle. apply Prim2SF_inj.
  rewrite sub_spec, div_spec, mul_spec, Hd.
  unfold atMost, below, level, number in *.
  change (Prim2SF 1) with (S754_finite false 4503599627370496 (-52)) in *.
  change (Prim2SF 2) with (S754_finite false 4503599627370496 (-51)).
  change (Prim2SF (-1)) with (S754_finite true 4503599627370496 (-52)).
  destruct (Prim2SF r) as [s'|s'| |s' m' e']; try congruence;
    try destruct s'; cbn in Hle; try lia; reflexivity.
Qed.

(** *** The bounding box and the ranges *)

Lemma fold_bounds (vs : list float) :
  vs <> [] -> Forall (fun v => is_finite v = true) vs ->
  let lo := fold_left JSFloat.min vs PrimFloat.infinity in
  let hi := fold_left JSFloat.max vs (PrimFloat.opp PrimFloat.infinity) in
  In lo vs /\ In hi vs /\ Forall (fun v => atMost lo v /\ atMost v hi) vs.
Proof.
  intros Hne Hfin lo hi.
  assert (Hnum : Forall number vs).
  { eapply Forall_impl; [|exact Hfin]. apply finite_number. }
  assert (Hinf : number PrimFloat.infinity) by (vm_compute; discriminate).
  assert (Hninf : number (PrimFloat.opp PrimFloat.infinity))
    by (vm_compute; discriminate).
  destruct (fold_min_spec vs PrimFloat.infinity Hinf Hnum) as (Hlo & _ & Hlos).
  destruct (fold_max_spec vs (PrimFloat.opp PrimFloat.infinity) Hninf Hnum)
    as (Hhi & _ & Hhis).
  fold lo in Hlo, Hlos. fold hi in Hhi, Hhis.
  destruct vs as [|v0 vs]; [congruence|].
  pose proof (Forall_inv Hfin) as Hv0. cbv beta in Hv0.
  rewrite is_finite_spec in Hv0.
  split; [|split].
  - destruct Hlo as [Hlo|Hlo]; [|exact Hlo].
    apply Forall_inv in Hlos. rewrite Hlo in Hlos.
    unfold atMost, below, level in Hlos.
    change (Prim2SF PrimFloat.infinity) with (S754_infinity false) in Hlos.
    destruct (Prim2SF v0) as [s|s| |s m e]; try discriminate;
      try destruct s; cbn in Hlos; lia.
  - destruct Hhi as [Hhi|Hhi]; [|exact Hhi].
    apply Forall_inv in Hhis. rewrite Hhi in Hhis.
    unfold atMost, below, level in Hhis.
    change (Prim2SF (PrimFloat.opp PrimFloat.infinity))
      with (S754_infinity true) in Hhis.
    destruct (Prim2SF v0) as [s|s| |s m e]; try discriminate;
      try destruct s; cbn in Hhis; lia.
  - rewrite Forall_forall in *. intros v Hv.
    split; [now apply Hlos | now apply Hhis].
Qed.

(** One coordinate of [_normalizeCoordinates]: [vs] are the values of the
    coordinate, [lo] and [hi] its least and greatest value, [r] the range
    the division uses. *)
Lemma coordinate_facts (vs : list float) :
  vs <> [] -> Forall (fun v => is_finite v = true) vs ->
  let lo := fold_left JSFloat.min vs PrimFloat.infinity in
  let hi := fold_left JSFloat.max vs (PrimFloat.opp PrimFloat.infinity) in
  let r := JSFloat.max (hi - lo) 1 in
  (1 <=? r) = true
  /\ ((1 <=? hi - lo) = false -> r = 1)
  /\ In lo vs
  /\ (forall v, In v vs -> (v =? lo) = true -> 2 * (v - lo) / r - 1 = -1)
  /\ ((hi =? lo) = true ->
      r = 1 /\ forall v, In v vs -> 2 * (v - lo) / r - 1 = -1).
Proof.
  intros Hne Hfin lo hi r.
  destruct (fold_bounds vs Hne Hfin) as (Hlo & Hhi & Hall).
  fold lo in Hlo, Hall. fold hi in Hhi, Hall.
  rewrite Forall_forall in Hfin, Hall.
  assert (Hone : number 1) by (vm_compute; discriminate).
  assert (Hd : number (hi - lo)) by (apply sub_number; now apply Hfin).
  destruct (max_spec (hi - lo) 1 Hd Hone) as (Hsel & _ & Hle).
  fold r in Hsel, Hle.
  assert (Hr : number r) by (destruct Hsel as [->| ->]; assumption).
  assert (Hleast : forall v, In v vs -> (v =? lo) = true ->
                     2 * (v - lo) / r - 1 = -1).
  { intros v Hv Heq. apply normalize_least; [|exact Hr | exact Hle].
    apply sub_level; [now apply Hfin|].
    apply eqb_level; [apply finite_number; now apply Hfin.. | exact Heq]. }
  split; [apply leb_atMost; assumption|].
  split.
  { intros Hsmall. subst r. unfold JSFloat.max.
    rewrite (number_not_nan _ Hd). cbn [orb].
    destruct (hi - lo <? 1) eqn:Hlt; [reflexivity|].
    destruct (1 <? hi - lo) eqn:Hgt.
    - apply ltb_below in Hgt; [|assumption..].
      assert (Hle' : (1 <=? hi - lo) = true)
        by (apply leb_atMost; [assumption..|now left]).
      congruence.
    - assert (Hle' : (1 <=? hi - lo) = true).
      { apply leb_atMost; [assumption..|]. right.
        pose proof (ltb_total _ _ Hd Hone Hlt Hgt) as Heq.
        unfold equalTo, level in *. intuition congruence. }
      congruence. }
  split; [exact Hlo|]. split; [exact Hleast|].
  intros Hflat.
  assert (Hnhi : number hi) by (apply finite_number; now apply Hfin).
  assert (Hnlo : number lo) by (apply finite_number; now apply Hfin).
  apply eqb_level in Hflat; [|assumption..].
  assert (Hzero : isSignedZero (hi - lo))
    by (apply sub_level; [now apply Hfin | exact Hflat]).
  assert (Hrange : r = 1).
  { subst r. destruct Hzero as [s Hs].
    rewrite <- (SF2Prim_Prim2SF (hi - lo)), Hs. now destruct s. }
  split; [exact Hrange|].
  intros v Hv. apply Hleast; [exact Hv|].
  apply eqb_level; [apply finite_number; now apply Hfin | exact Hnlo|].
  destruct (Hall v Hv) as [Hlow Hhigh].
  exact (atMost_squeeze lo v hi Hlow Hhigh Hflat).
Qed.

Lemma box_coordinates (points : list (Point float)) :
  let b := boundingBox points in
  xMin b = fold_left JSFloat.min (map x points) PrimFloat.infinity
  /\ xMax b = fold_left JSFloat.max (map x points)
                (PrimFloat.opp PrimFloat.infinity)
  /\ yMin b = fold_left JSFloat.min (map y points) PrimFloat.infinity
  /\ yMax b = fold_left JSFloat.max (map y points)
                (PrimFloat.opp PrimFloat.infinity).
Proof.
  cbv zeta. unfold boundingBox. rewrite boundingBox_folds.
  repeat split.
Qed.

(** Both coordinates of [_normalizeCoordinates] on a non-empty list of
    points with finite coordinates. *)
Lemma normalize_facts (points : list (Point float)) :
  points <> [] ->
  Forall (fun p => is_finite (x p) = true /\ is_finite (y p) = true) points ->
  let b := boundingBox points in
  ((1 <=? xRange b) = true
   /\ ((1 <=? xMax b - xMin b) = false -> xRange b = 1)
   /\ In (xMin b) (map x points)
   /\ (forall p, In p points -> (x p =? xMin b) = true ->
         2 * (x p - xMin b) / xRange b - 1 = -1)
   /\ ((xMax b =? xMin b) = true ->
       xRange b = 1
       /\ forall p, In p points -> 2 * (x p - xMin b) / xRange b - 1 = -1))
  /\ ((1 <=? yRange b) = true
      /\ ((1 <=? yMax b - yMin b) = false -> yRange b = 1)
      /\ In (yMin b) (map y points)
      /\ (forall p, In p points -> (y p =? yMin b) = true ->
            2 * (y p - yMin b) / yRange b - 1 = -1)
      /\ ((yMax b =? yMin b) = true ->
          yRange b = 1
          /\ forall p, In p points -> 2 * (y p - yMin b) / yRange b - 1 = -1)).
Proof.
  intros Hne Hfin b.
  destruct (box_coordinates points) as (HxMin & HxMax & HyMin & HyMax).
  fold b in HxMin, HxMax, HyMin, HyMax.
  assert (Hmap : forall proj : Point float -> float, map proj points <> []).
  { intros proj Hmap. apply map_eq_nil in Hmap. contradiction. }
  assert (Hxs : Forall (fun v => is_finite v = true) (map x points)).
  { apply Forall_map. eapply Forall_impl; [|exact Hfin]. now intros p [Hx _]. }
  assert (Hys : Forall (fun v => is_finite v = true) (map y points)).
  { apply Forall_map. eapply Forall_impl; [|exact Hfin]. now intros p [_ Hy]. }
  split.
  - destruct (coordinate_facts (map x points) (Hmap x) Hxs)
      as (Hge & Hsmall & Hin & Hleast & Hflat).
    cbv zeta in Hge, Hsmall, Hin, Hleast, Hflat.
    change (xRange b) with (JSFloat.max (xMax b - xMin b) 1).
    rewrite HxMin, HxMax.
    split; [exact Hge|]. split; [exact Hsmall|]. split; [exact Hin|].
    split.
    + intros p Hp. apply Hleast. now apply in_map.
    + intros Heq. destruct (Hflat Heq) as [Hr Hall].
      split; [exact Hr|]. intros p Hp. apply Hall. now apply in_map.
  - destruct (coordinate_facts (map y points) (Hmap y) Hys)
      as (Hge & Hsmall & Hin & Hleast & Hflat).
    cbv zeta in Hge, Hsmall, Hin, Hleast, Hflat.
    change (yRange b) with (JSFloat.max (yMax b - yMin b) 1).
    rewrite HyMin, HyMax.
    split; [exact Hge|]. split; [exact Hsmall|]. split; [exact Hin|].
    split.
    + intros p Hp. apply Hleast. now apply in_map.
    + intros Heq. destruct (Hflat Heq) as [Hr Hall].
      split; [exact Hr|]. intros p Hp. apply Hall. now apply in_map.
Qed.

Lemma map_constant {A B : Type} (g : A -> B) (c : B) (l : list A) :
  (forall a, In a l -> g a = c) -> map g l = repeat c (length l).
Proof.
  induction l as [|a l IH]; intros Hall; [reflexivity|].
  cbn [map length repeat]. f_equal; [apply Hall; now left|].
  apply IH. intros a' Ha'. apply Hall. now right.
Qed.

End FloatFacts.
Section DegenerateBox.
Import FloatOrder FloatFacts.
#[local] Open Scope js_scope.

(** C2, as the code has it, on binary64.  For a non-empty list of kept
    points with finite coordinates: normalisation returns one point per
    input point; the range it divides by is at least 1 in each dimension,
    and is 1 whenever the extent of the bounding box is below 1, so there
    is no division by zero; in a dimension of zero extent the range is 1
    and the coordinate of every normalised point is -1, which delta
    encoding turns into all-zero deltas; a single point is degenerate in
    both dimensions, so it is normalised to (-1, -1). *)
Theorem degenerate_box_normalizes_to_minus_one (points : list (Point float)) :
  points <> [] ->
  Forall (fun p => is_finite (x p) = true /\ is_finite (y p) = true) points ->
  let b := boundingBox points in
  let normalized := _normalizeCoordinates points in
  let deltas := _toDeltaCoordinates normalized in
  length normalized = length points
  /\ (xRange b >= 1) = true
  /\ (yRange b >= 1) = true
  /\ ((xMax b - xMin b >= 1) = false -> xRange b = 1)
  /\ ((yMax b - yMin b >= 1) = false -> yRange b = 1)
  /\ ((xMax b === xMin b) = true ->
      xRange b = 1
      /\ map x normalized = repeat (neg 1) (length points)
      /\ map x deltas = repeat 0 (length points))
  /\ ((yMax b === yMin b) = true ->
      yRange b = 1
      /\ map y normalized = repeat (neg 1) (length points)
      /\ map y deltas = repeat 0 (length points))
  /\ (forall p, points = [p] ->
        (xMax b === xMin b) = true /\ (yMax b === yMin b) = true
        /\ normalized = [mkPoint (neg 1) (neg 1) (penState p) None]).
Proof.
  intros Hne Hfin b normalized deltas.
  destruct (normalize_facts points Hne Hfin)
    as ((HxGe & HxSmall & _ & _ & HxFlat) & (HyGe & HySmall & _ & _ & HyFlat)).
  fold b in HxGe, HxSmall, HxFlat, HyGe, HySmall, HyFlat.
  assert (Hlen : length normalized = length points).
  { subst normalized. rewrite normalizeCoordinates_map. apply length_map. }
  assert (Hcancel : (neg 1 - neg 1 : float) = 0) by reflexivity.
  assert (HxOut : (xMax b === xMin b) = true ->
            xRange b = 1
            /\ map x normalized = repeat (neg 1) (length points)
            /\ map x deltas = repeat 0 (length points)).
  { intros Hflat. destruct (HxFlat Hflat) as [Hr Hall].
    assert (Hmap : map x normalized = repeat (neg 1) (length points)).
    { subst normalized. rewrite normalizeCoordinates_map, map_map.
      apply map_constant. exact Hall. }
    split; [exact Hr|]. split; [exact Hmap|].
    subst deltas. rewrite <- Hlen in Hmap |- *.
    apply (toDeltaCoordinates_constant x (neg 1));
      [now left | exact Hcancel | exact Hmap]. }
  assert (HyOut : (yMax b === yMin b) = true ->
            yRange b = 1
            /\ map y normalized = repeat (neg 1) (length points)
            /\ map y deltas = repeat 0 (length points)).
  { intros Hflat. destruct (HyFlat Hflat) as [Hr Hall].
    assert (Hmap : map y normalized = repeat (neg 1) (length points)).
    { subst normalized. rewrite normalizeCoordinates_map, map_map.
      apply map_constant. exact Hall. }
    split; [exact Hr|]. split; [exact Hmap|].
    subst deltas. rewrite <- Hlen in Hmap |- *.
    apply (toDeltaCoordinates_constant y (neg 1));
      [now right | exact Hcancel | exact Hmap]. }
  split; [exact Hlen|]. split; [exact HxGe|]. split; [exact HyGe|].
  split; [exact HxSmall|]. split; [exact HySmall|].
  split; [exact HxOut|]. split; [exact HyOut|].
  intros p Hp.
  assert (Hb : b = mkBounds (x p) (x p) (y p) (y p)).
  { subst b points. apply Forall_inv in Hfin as [Hx Hy].
    pose proof (number_not_nan _ (finite_number _ Hx)) as Hnx.
    pose proof (number_not_nan _ (finite_number _ Hy)) as Hny.
    rewrite is_finite_spec in Hx, Hy.
    unfold boundingBox. cbn [fold_left]. unfold extendBounds, initialBounds.
    cbn [xMin xMax yMin yMax].
    change (@math_min float float_Number) with JSFloat.min.
    change (@math_max float float_Number) with JSFloat.max.
    change (@infinity float float_Number) with PrimFloat.infinity.
    change (@neg float float_Number) with PrimFloat.opp.
    unfold JSFloat.min, JSFloat.max. rewrite Hnx, Hny.
    rewrite !ltb_spec.
    change (Prim2SF PrimFloat.infinity) with (S754_infinity false).
    change (Prim2SF (PrimFloat.opp PrimFloat.infinity))
      with (S754_infinity true).
    change (is_nan PrimFloat.infinity) with false.
    change (is_nan (PrimFloat.opp PrimFloat.infinity)) with false.
    cbn [orb].
    destruct (Prim2SF (x p)) as [s|s| |s m e],
             (Prim2SF (y p)) as [s'|s'| |s' m' e'];
      try discriminate; try destruct s; try destruct s'; reflexivity. }
  assert (Hself : forall v : float, is_finite v = true -> (v === v) = true).
  { intros v Hv. apply eqb_level; [now apply finite_number..|].
    unfold equalTo, level. tauto. }
  pose proof Hfin as Hfin'. rewrite Hp in Hfin'.
  apply Forall_inv in Hfin' as [Hx Hy].
  assert (HxEq : (xMax b === xMin b) = true) by (rewrite Hb; now apply Hself).
  assert (HyEq : (yMax b === yMin b) = true) by (rewrite Hb; now apply Hself).
  split; [exact HxEq|]. split; [exact HyEq|].
  destruct (HxOut HxEq) as (_ & Hxs & _).
  destruct (HyOut HyEq) as (_ & Hys & _).
  subst normalized. rewrite normalizeCoordinates_map in Hxs, Hys |- *.
  rewrite Hp in Hxs, Hys |- *. cbn [map length repeat] in Hxs, Hys |- *.
  injection Hxs as Hxs. injection Hys as Hys.
  exact (f_equal2 (fun u v => [mkPoint u v (penState p) None]) Hxs Hys).
Qed.

End DegenerateBox.

(** An upright stroke has no extent in x: every point is normalised to
    x = -1 and every delta in x is 0. *)
Lemma degenerate_box_witness :
  xRange (boundingBox NormalizeSamples.upright) = 1%js
  /\ map x (_normalizeCoordinates NormalizeSamples.upright)
     = [neg 1%js; neg 1%js]
  /\ map x (_toDeltaCoordinates
              (_normalizeCoordinates NormalizeSamples.upright))
     = [0%js; 0%js].
Proof.
  destruct (degenerate_box_normalizes_to_minus_one NormalizeSamples.upright
              ltac:(discriminate)
              ltac:(repeat constructor))
    as (_ & _ & _ & _ & _ & Hx & _).
  exact (Hx ltac:(vm_compute; reflexivity)).
Defined.

(** C2 fails as stated: on the numbers of the JavaScript engine the single
    point (5, 7) is normalised to (-1, -1), not to (0, 0). *)
Lemma normalize_single_point_is_not_zero :
  _normalizeCoordinates [Samples.pt 5 7 1] = [Samples.pt (-1) (-1) 1]
  /\ ((-1)%float === 0)%js = false.
Proof. split; vm_compute; reflexivity. Qed.



(* ===================================================================== *)
(** * Part III.  Further properties of the sources                        *)
(* ===================================================================== *)

(** ** [StrokeCapture]: the shape of what is recorded *)

Section CaptureShapeFacts.
Context {F : Type} `{NumF : Number F}.
#[local] Open Scope js_scope.

Lemma markLastPenUp_recorded (stroke : Stroke F) :
  stroke <> [] ->
  Forall (fun p => penState p = 1) stroke ->
  recordedStroke (markLastPenUp stroke).
Proof.
  intros Hne Hdown. destruct stroke as [|p0 rest]; [congruence|].
  unfold markLastPenUp.
  rewrite (app_removelast_last p0 Hne) in Hdown.
  apply Forall_app in Hdown as [Hinit _].
  eexists _, _. split; [reflexivity|]. split; [exact Hinit | reflexivity].
Qed.

Lemma captureStep_invariant (canvas : Canvas F) (st : CaptureState F)
    (ev : CaptureEvent F) :
  captureInvariant st -> captureInvariant (captureStep canvas st ev).
Proof.
  intros (Hdone & Hcur & Hidle & Hbusy).
  destruct ev as [e|e| |]; cbn [captureStep].
  - unfold _onPointerDown, captureInvariant.
    cbn [strokes currentStroke isDrawing lastPoint].
    split; [exact Hdone|]. split; [repeat constructor|].
    split; [discriminate | intros _; discriminate].
  - unfold _onPointerMove. destruct (isDrawing st) eqn:Hd; cbn [negb].
    + unfold captureInvariant. cbn [strokes currentStroke isDrawing lastPoint].
      split; [exact Hdone|].
      split; [apply Forall_app; split; [exact Hcur | repeat constructor]|].
      split; [discriminate | intros _; discriminate].
    + unfold captureInvariant. rewrite Hd.
      split; [exact Hdone|]. split; [exact Hcur|].
      split; [intros _; now apply Hidle | discriminate].
  - unfold _onPointerUp. destruct (isDrawing st) eqn:Hd; cbn [negb].
    + destruct (currentStroke st) as [|p0 rest] eqn:Hc;
        unfold captureInvariant; cbn [strokes currentStroke isDrawing lastPoint].
      * split; [exact Hdone|]. split; [constructor|].
        split; [now split | discriminate].
      * split.
        { apply Forall_app. split; [exact Hdone|].
          constructor; [|constructor].
          apply markLastPenUp_recorded; [discriminate | exact Hcur]. }
        split; [constructor|]. split; [now split | discriminate].
    + unfold captureInvariant. rewrite Hd.
      split; [exact Hdone|]. split; [exact Hcur|].
      split; [intros _; now apply Hidle | discriminate].
  - unfold clear, captureInvariant.
    cbn [strokes currentStroke isDrawing lastPoint].
    split; [constructor|]. split; [constructor|].
    split; [|exact Hbusy].
    intros Hd. split; [reflexivity | now apply Hidle].
Qed.

Lemma captureRun_invariant (canvas : Canvas F) (evs : list (CaptureEvent F)) :
  captureInvariant (captureRun canvas evs).
Proof.
  unfold captureRun.
  assert (Hgen : forall st, captureInvariant st ->
                   captureInvariant (fold_left (captureStep canvas) evs st)).
  { induction evs as [|ev evs IH]; intros st Hst; cbn [fold_left];
      [exact Hst|]. apply IH. now apply captureStep_invariant. }
  apply Hgen. unfold captureInvariant, newStrokeCapture.
  cbn [strokes currentStroke isDrawing lastPoint].
  split; [constructor|]. split; [constructor|].
  split; [now split | discriminate].
Qed.

(** Whatever the sequence of listener calls: every completed stroke is
    non-empty, has pen up on its last point and pen down on all the others
    -- the shape the pen-lift test of the resampling relies on; every point
    of the stroke in progress has pen down; while a stroke is being drawn
    [lastPoint] is set, so the line segment of a pointer move has a start;
    and outside a stroke nothing is pending -- the stroke in progress is
    empty and [lastPoint] is null -- also after [clear()]. *)
Theorem capture_strokes_recorded (canvas : Canvas F)
    (evs : list (CaptureEvent F)) :
  let st := captureRun canvas evs in
  Forall recordedStroke (getStrokes st)
  /\ Forall (fun p => penState p = 1) (currentStroke st)
  /\ (isDrawing st = true -> lastPoint st <> None)
  /\ (isDrawing st = false -> currentStroke st = [] /\ lastPoint st = None).
Proof.
  destruct (captureRun_invariant canvas evs) as (Hdone & Hcurrent & Hidle & Hbusy).
  split; [exact Hdone|]. split; [exact Hcurrent|].
  split; assumption.
Qed.

(** [hasStrokes()] tells exactly whether the capture object holds a point,
    in a completed stroke or in the stroke in progress. *)
Theorem hasStrokes_iff_point_held (canvas : Canvas F)
    (evs : list (CaptureEvent F)) :
  let st := captureRun canvas evs in
  hasStrokes st = true <-> recordedPoints st <> [].
Proof.
  cbv zeta. destruct (captureRun_invariant canvas evs) as (Hdone & _).
  set (st := captureRun canvas evs) in *.
  unfold hasStrokes, recordedPoints.
  destruct (strokes st) as [|s ss] eqn:Hs; cbn [length concat].
  - cbn. destruct (currentStroke st); cbn; split; congruence.
  - cbn. split; [intros _|reflexivity].
    inversion Hdone as [|? ? (init & final & -> & _) _]; subst.
    destruct init; discriminate.
Qed.

Lemma captureStep_stroke_count (canvas : Canvas F) (st : CaptureState F)
    (ev : CaptureEvent F) (n : nat) :
  (length (strokes st) + (if isDrawing st then 1 else 0) <= n)%nat ->
  (length (strokes (captureStep canvas st ev))
   + (if isDrawing (captureStep canvas st ev) then 1 else 0)
   <= n + pointerDowns [ev])%nat.
Proof.
  intros Hn. destruct ev as [e|e| |]; cbn [captureStep pointerDowns filter length].
  - cbn. destruct (isDrawing st); lia.
  - unfold _onPointerMove. destruct (isDrawing st) eqn:Hd; cbn; rewrite ?Hd; lia.
  - unfold _onPointerUp. destruct (isDrawing st) eqn:Hd; cbn [negb].
    + destruct (currentStroke st); cbn [strokes isDrawing];
        rewrite ?length_app; cbn [length]; lia.
    + rewrite Hd. lia.
  - cbn. destruct (isDrawing st); lia.
Qed.

(** A stroke is recorded at most once per pointer-down: the completed
    strokes never outnumber the pointer-down calls (a pointer-up followed
    by a pointer-leave ends the stroke once). *)
Theorem capture_strokes_bounded_by_downs (canvas : Canvas F)
    (evs : list (CaptureEvent F)) :
  (length (getStrokes (captureRun canvas evs)) <= pointerDowns evs)%nat.
Proof.
  unfold captureRun, getStrokes.
  assert (Hgen : forall st n,
             (length (strokes st) + (if isDrawing st then 1 else 0) <= n)%nat ->
             (length (strokes (fold_left (captureStep canvas) evs st))
              + (if isDrawing (fold_left (captureStep canvas) evs st)
                 then 1 else 0)
              <= n + pointerDowns evs)%nat).
  { induction evs as [|ev evs IH]; intros st n Hn; cbn [fold_left].
    - cbn. lia.
    - pose proof (captureStep_stroke_count canvas st ev n Hn) as Hstep.
      specialize (IH _ _ Hstep).
      replace (pointerDowns (ev :: evs))
        with (pointerDowns [ev] + pointerDowns evs)%nat; [lia|].
      unfold pointerDowns. cbn [filter].
      destruct ev; cbn [length]; lia. }
  specialize (Hgen newStrokeCapture 0%nat ltac:(cbn; lia)).
  destruct (isDrawing _) in Hgen; lia.
Qed.

End CaptureShapeFacts.

(** ** [StrokeProcessor]: how the steps compose *)

Section PipelineFacts.
Context {F : Type} `{NumF : Number F} `{HostF : Host F}.
#[local] Open Scope js_scope.

Lemma normalizeCoordinates_penStates (points : list (Point F)) :
  map penState (_normalizeCoordinates points) = map penState points.
Proof.
  destruct points as [|p rest]; [reflexivity|].
  unfold _normalizeCoordinates. rewrite map_map. reflexivity.
Qed.

Lemma deltaLoop_penStates (rest : list (Point F)) :
  forall prev, map penState (deltaLoop prev rest) = map penState rest.
Proof.
  induction rest as [|p rest IH]; intros prev; [reflexivity|].
  cbn [deltaLoop map penState]. now rewrite IH.
Qed.

Lemma toDeltaCoordinates_penStates (points : list (Point F)) :
  map penState (_toDeltaCoordinates points) = map penState points.
Proof.
  destruct points as [|p0 [|p1 rest]]; try reflexivity.
  unfold _toDeltaCoordinates. cbn [map penState].
  now rewrite deltaLoop_penStates.
Qed.

(** Normalisation and delta encoding neither add nor drop a frame, and
    leave every penState as it is. *)
Lemma featureFrames_penStates (cfg : Config F) (strokes : StrokeSet F) :
  map penState (featureFrames cfg strokes)
  = map penState (_resamplePoints cfg (_flattenStrokes strokes)).
Proof.
  unfold featureFrames. destruct (useDeltaCoordinates cfg).
  - now rewrite toDeltaCoordinates_penStates, normalizeCoordinates_penStates.
  - apply normalizeCoordinates_penStates.
Qed.

Lemma featureFrames_length (cfg : Config F) (strokes : StrokeSet F) :
  length (featureFrames cfg strokes)
  = length (_resamplePoints cfg (_flattenStrokes strokes)).
Proof.
  rewrite <- (length_map penState), featureFrames_penStates.
  apply length_map.
Qed.

Lemma nth_penState (points : list (Point F)) (i : nat) :
  penState (nth i points zeroPoint) = nth i (map penState points) 0.
Proof.
  change 0 with (penState zeroPoint). symmetry. apply map_nth.
Qed.

(** [getSequenceLength] marks where the padding of the tensor begins: it
    never exceeds [maxSeqLength]; the frames before it carry the penState
    of the resampled points, in order, and the frames from it on are
    all-zero.  A store of 0 into the array reads back as 0. *)
Theorem sequenceLength_marks_padding (cfg : Config F) (strokes : StrokeSet F) :
  fround 0 = 0 ->
  let len := getSequenceLength cfg (Some strokes) in
  let resampled := _resamplePoints cfg (_flattenStrokes strokes) in
  let tensor := process cfg (Some strokes) in
  (len <= maxSeqLength cfg)%nat
  /\ (forall i, (i < len)%nat ->
        snd (frameAt tensor i) = fround (penState (nth i resampled zeroPoint)))
  /\ (forall i, (len <= i < maxSeqLength cfg)%nat ->
        frameAt tensor i = (0, 0, 0)).
Proof.
  intros Hzero len resampled tensor.
  destruct strokes as [|s ss].
  - subst len resampled tensor. cbn [getSequenceLength process].
    split; [lia|]. split; [intros i Hi; lia|].
    intros i _. apply newFloat32Array_frame.
  - assert (Hlen : len = Nat.min (length resampled) (maxSeqLength cfg))
      by reflexivity.
    assert (Hframes : length (featureFrames cfg (s :: ss)) = length resampled)
      by apply featureFrames_length.
    subst tensor. cbn [process].
    split; [lia|]. split.
    + intros i Hi.
      rewrite toFloat32Array_frame by (rewrite padSequence_length; lia).
      cbn [snd]. rewrite padSequence_nth by lia.
      rewrite !nth_penState. now rewrite featureFrames_penStates.
    + intros i [Hge Hlt].
      rewrite toFloat32Array_frame by (rewrite padSequence_length; lia).
      rewrite padSequence_nth by lia.
      rewrite (nth_overflow (featureFrames cfg (s :: ss))) by lia.
      cbn. now rewrite Hzero.
Qed.

(** A stroke set that holds no point -- every stroke is empty -- is
    processed to the all-zero tensor, like the empty stroke set. *)
Theorem process_pointless_strokes (cfg : Config F) (strokes : StrokeSet F) :
  fround 0 = 0 ->
  Forall (fun s => s = []) strokes ->
  process cfg (Some strokes) = repeat 0 (maxSeqLength cfg * 3).
Proof.
  intros Hzero Hempty.
  destruct strokes as [|s ss]; [reflexivity|].
  assert (Hflat : _flattenStrokes (s :: ss) = []).
  { unfold _flattenStrokes. induction Hempty as [|s' ss' -> _ IH];
      [reflexivity|]. cbn [flat_map map app]. exact IH. }
  cbn [process]. unfold featureFrames. rewrite Hflat.
  change (_resamplePoints cfg []) with (@nil (Point F)).
  change (_normalizeCoordinates []) with (@nil (Point F)).
  assert (Hframes : (if useDeltaCoordinates cfg
                     then _toDeltaCoordinates [] else []) = @nil (Point F))
    by (destruct (useDeltaCoordinates cfg); reflexivity).
  rewrite Hframes. unfold _padSequence. cbn [length].
  destruct (Nat.leb_spec (maxSeqLength cfg) 0) as [Hle|Hlt].
  - replace (maxSeqLength cfg) with 0%nat by lia. reflexivity.
  - rewrite Nat.sub_0_r, padLoop_repeat. cbn [app].
    induction (maxSeqLength cfg) as [|n IH]; [reflexivity|].
    cbn [repeat _toFloat32Array flat_map app Nat.mul Nat.add].
    unfold _toFloat32Array in IH.
    destruct n as [|n]; cbn [x y penState zeroPoint]; rewrite Hzero.
    + reflexivity.
    + rewrite IH by lia. reflexivity.
Qed.

End PipelineFacts.

(** Instances on the numbers of the JavaScript engine. *)
Lemma sequenceLength_marks_padding_witness :
  getSequenceLength DEFAULT_CONFIG (Some [Samples.zigzag]) = 6%nat
  /\ frameAt (process DEFAULT_CONFIG (Some [Samples.zigzag])) 6
     = (0%float, 0%float, 0%float).
Proof.
  assert (Hzero : fround (of_Z 0 : float) = of_Z 0) by reflexivity.
  destruct (sequenceLength_marks_padding DEFAULT_CONFIG [Samples.zigzag] Hzero)
    as (_ & _ & Hpad).
  split; [vm_compute; reflexivity|].
  apply Hpad. vm_compute. split; lia.
Defined.

Lemma process_pointless_strokes_witness :
  process DEFAULT_CONFIG (Some [[]; []]) = repeat 0%float 768.
Proof.
  assert (Hzero : fround (of_Z 0 : float) = of_Z 0) by reflexivity.
  apply (process_pointless_strokes DEFAULT_CONFIG [[]; []] Hzero).
  repeat constructor.
Defined.

(** ** Resampling selects points of the input, in order *)

Section ResampleSelectionFacts.
Context {F : Type} `{NumF : Number F} `{HostF : Host F}.
#[local] Open Scope js_scope.

(** The points the loop pushes are taken from [rest] in order; either the
    last one pushed is the last point of [rest], or none of them is. *)
Lemma resampleLoop_sublist (minDist : F) (rest : list (Point F)) :
  forall prev acc d,
    let pushed := resampleLoop minDist prev rest acc in
    pushed `sublist_of` rest
    /\ (pushed `sublist_of` removelast rest
        \/ (pushed <> [] /\ List.last pushed d = List.last rest d)).
Proof.
  induction rest as [|p rest IH]; intros prev acc d pushed.
  - split; [constructor | left; constructor].
  - subst pushed. cbn [resampleLoop].
    assert (Hpush : forall a,
               let tail := resampleLoop minDist p rest a in
               (p :: tail) `sublist_of` (p :: rest)
               /\ ((p :: tail) `sublist_of` removelast (p :: rest)
                   \/ (p :: tail <> []
                       /\ List.last (p :: tail) d = List.last (p :: rest) d))).
    { intros a tail. destruct (IH p a d) as [Hsub Hend]. fold tail in Hsub, Hend.
      split; [now apply sublist_skip|].
      destruct rest as [|q rest'].
      - right. split; [discriminate|].
        apply sublist_nil_r in Hsub. now rewrite Hsub.
      - destruct Hend as [Hinit|[Hne Hlast]].
        + left. change (removelast (p :: q :: rest'))
            with (p :: removelast (q :: rest')).
          now apply sublist_skip.
        + right. split; [discriminate|].
          change (List.last (p :: q :: rest') d) with (List.last (q :: rest') d).
          destruct tail; [congruence | exact Hlast]. }
    assert (Hskip : forall a,
               let tail := resampleLoop minDist p rest a in
               tail `sublist_of` (p :: rest)
               /\ (tail `sublist_of` removelast (p :: rest)
                   \/ (tail <> []
                       /\ List.last tail d = List.last (p :: rest) d))).
    { intros a tail. destruct (IH p a d) as [Hsub Hend]. fold tail in Hsub, Hend.
      split; [now apply sublist_cons|].
      destruct rest as [|q rest'].
      - left. apply sublist_nil_r in Hsub. rewrite Hsub. constructor.
      - destruct Hend as [Hinit|[Hne Hlast]].
        + left. change (removelast (p :: q :: rest'))
            with (p :: removelast (q :: rest')).
          now apply sublist_cons.
        + right. split; [exact Hne | exact Hlast]. }
    destruct (isPenLift prev p); [apply Hpush|].
    destruct (acc + segmentDist prev p >= minDist); [apply Hpush | apply Hskip].
Qed.

(** Every point of the resampled list is a point of the input.  When the
    coordinates of the final point are equal to themselves under [===]
    (they are not NaN), the resampled list is the input with some points
    left out: same order, no point repeated or added, so it is not longer
    than the input. *)
Theorem resamplePoints_selects (cfg : Config F) (points : list (Point F)) :
  let final := List.last points zeroPoint in
  let resampled := _resamplePoints cfg points in
  (forall q, In q resampled -> In q points)
  /\ (coordsDiffer final final = false ->
        resampled `sublist_of` points
        /\ (length resampled <= length points)%nat).
Proof.
  intros final resampled.
  assert (Hsub : coordsDiffer final final = false ->
                 resampled `sublist_of` points).
  { intros Hself. subst resampled final.
    destruct points as [|p0 [|p1 rest]]; try reflexivity.
    unfold _resamplePoints.
    set (rest1 := p1 :: rest) in *.
    destruct (resampleLoop_sublist (resampleDistance cfg) rest1 p0 0 p0)
      as [Hin Hend].
    set (pushed := resampleLoop (resampleDistance cfg) p0 rest1 0) in *.
    assert (Hfinal : List.last (p0 :: rest1) p0 = List.last rest1 p0)
      by reflexivity.
    rewrite (last_default_irrelevant (p0 :: rest1) zeroPoint p0) in Hself
      by discriminate.
    destruct Hend as [Hinit|[Hne Hlast]].
    - destruct (coordsDiffer (List.last (p0 :: rest1) p0)
                             (List.last (p0 :: pushed) p0));
        [|now apply sublist_skip].
      rewrite Hfinal.
      rewrite (app_removelast_last p0 (l := rest1)) at 2 by discriminate.
      change ((p0 :: pushed) ++ [List.last rest1 p0])
        with (p0 :: (pushed ++ [List.last rest1 p0])).
      apply sublist_skip. now apply sublist_app.
    - assert (Hsame : List.last (p0 :: pushed) p0 = List.last (p0 :: rest1) p0).
      { rewrite Hfinal, <- Hlast. destruct pushed; [congruence | reflexivity]. }
      rewrite Hsame, Hself. now apply sublist_skip. }
  split.
  - intros q Hq. subst resampled.
    destruct points as [|p0 [|p1 rest]]; try exact Hq.
    unfold _resamplePoints in Hq.
    set (rest1 := p1 :: rest) in *.
    destruct (resampleLoop_sublist (resampleDistance cfg) rest1 p0 0 p0)
      as [Hin _].
    assert (Hkept : forall q', In q' (p0 :: resampleLoop (resampleDistance cfg)
                                              p0 rest1 0) ->
                               In q' (p0 :: rest1)).
    { intros q' [<-|Hq']; [now left|]. right.
      apply list_elem_of_In. apply list_elem_of_In in Hq'.
      eapply elem_of_sublist; eassumption. }
    destruct (coordsDiffer (List.last (p0 :: rest1) p0) _); [|now apply Hkept].
    apply in_app_or in Hq as [Hq|[<-|[]]]; [now apply Hkept|].
    rewrite (last_default_irrelevant (p0 :: rest1) p0 zeroPoint) by discriminate.
    destruct (exists_last (l := p0 :: rest1) ltac:(discriminate))
      as (init & lastp & Heq).
    rewrite Heq, last_last. apply in_or_app. right. now left.
  - intros Hself. split; [now apply Hsub|].
    apply sublist_length. now apply Hsub.
Qed.

End ResampleSelectionFacts.

(** An instance: the ten-point zig-zag, of which six points are kept. *)
Lemma resamplePoints_selects_witness :
  _resamplePoints DEFAULT_CONFIG Samples.zigzag `sublist_of` Samples.zigzag.
Proof.
  destruct (resamplePoints_selects (F := float) DEFAULT_CONFIG Samples.zigzag)
    as [_ Hsub].
  apply Hsub. vm_compute. reflexivity.
Defined.

(** ** [StrokeProcessor]: the lower sides of the normalised drawing *)

Section LowerSides.
Import FloatOrder FloatFacts.
#[local] Open Scope js_scope.

(** On binary64, for a non-empty list of points with finite coordinates:
    the least x of the bounding box is the x of one of the points, and
    every point that has it is normalised to x = -1 exactly, at its own
    index; so some normalised point has x = -1.  Likewise for y.  This
    holds although the other coordinates may be rounded, or overflow. *)
Theorem normalized_touches_lower_sides (points : list (Point float)) :
  points <> [] ->
  Forall (fun p => is_finite (x p) = true /\ is_finite (y p) = true) points ->
  let b := boundingBox points in
  let out := _normalizeCoordinates points in
  (exists p, In p points /\ x p = xMin b)
  /\ (exists p, In p points /\ y p = yMin b)
  /\ (forall i p, nth_error points i = Some p -> (x p === xMin b) = true ->
        exists q, nth_error out i = Some q /\ x q = neg 1)
  /\ (forall i p, nth_error points i = Some p -> (y p === yMin b) = true ->
        exists q, nth_error out i = Some q /\ y q = neg 1)
  /\ (exists q, In q out /\ x q = neg 1)
  /\ (exists q, In q out /\ y q = neg 1).
Proof.
  intros Hne Hfin b out.
  destruct (normalize_facts points Hne Hfin)
    as ((_ & _ & HxIn & HxLeast & _) & (_ & _ & HyIn & HyLeast & _)).
  fold b in HxIn, HxLeast, HyIn, HyLeast.
  apply in_map_iff in HxIn as (px & Hpx & Hinx).
  apply in_map_iff in HyIn as (py & Hpy & Hiny).
  assert (Hself : forall v : float, is_finite v = true -> (v === v) = true).
  { intros v Hv. apply eqb_level; [now apply finite_number..|].
    unfold equalTo, level. tauto. }
  assert (Hat : forall i p, nth_error points i = Some p ->
            nth_error out i
            = Some (mkPoint (2 * (x p - xMin b) / xRange b - 1)
                            (2 * (y p - yMin b) / yRange b - 1)
                            (penState p) None)).
  { intros i p Hi. subst out. rewrite normalizeCoordinates_map.
    rewrite nth_error_map, Hi. reflexivity. }
  assert (HxAt : forall i p, nth_error points i = Some p ->
            (x p === xMin b) = true ->
            exists q, nth_error out i = Some q /\ x q = neg 1).
  { intros i p Hi Heq. eexists. split; [exact (Hat i p Hi)|].
    apply HxLeast; [eapply nth_error_In; exact Hi | exact Heq]. }
  assert (HyAt : forall i p, nth_error points i = Some p ->
            (y p === yMin b) = true ->
            exists q, nth_error out i = Some q /\ y q = neg 1).
  { intros i p Hi Heq. eexists. split; [exact (Hat i p Hi)|].
    apply HyLeast; [eapply nth_error_In; exact Hi | exact Heq]. }
  rewrite Forall_forall in Hfin.
  split; [now exists px|]. split; [now exists py|].
  split; [exact HxAt|]. split; [exact HyAt|].
  split.
  - destruct (In_nth_error points px Hinx) as [i Hi].
    destruct (HxAt i px Hi) as (q & Hq & Hx).
    { rewrite <- Hpx. apply Hself. now apply (Hfin px Hinx). }
    exists q. split; [eapply nth_error_In; exact Hq | exact Hx].
  - destruct (In_nth_error points py Hiny) as [i Hi].
    destruct (HyAt i py Hi) as (q & Hq & Hy).
    { rewrite <- Hpy. apply Hself. now apply (Hfin py Hiny). }
    exists q. split; [eapply nth_error_In; exact Hq | exact Hy].
Qed.

End LowerSides.

(** The stroke from the origin to (1e308, 1): its first point is normalised
    to x = -1, although the x of its second point overflows. *)
Lemma normalized_touches_lower_sides_witness :
  exists q, In q (_normalizeCoordinates NormalizeSamples.farApart)
            /\ x q = neg 1%js.
Proof.
  destruct (normalized_touches_lower_sides NormalizeSamples.farApart
              ltac:(discriminate) ltac:(repeat constructor))
    as (_ & _ & _ & _ & Hx & _).
  exact Hx.
Defined.

(** ** The offline module: recognition, the registry of capture objects *)

Section OfflineFacts.
Context {F : Type} `{NumF : Number F}.
Context {R : Type}.

Lemma awaitPromise_cases (p : option Promise) :
  (exists message, p = Some (Rejected message)
                   /\ awaitPromise (F := F) p = ([], Throw message))
  \/ ((forall message, p <> Some (Rejected message))
      /\ awaitPromise (F := F) p = ([], Return tt)).
Proof.
  destruct p as [[|message]|].
  - right. split; [intros message; discriminate | reflexivity].
  - left. exists message. split; reflexivity.
  - right. split; [intros message; discriminate | reflexivity].
Qed.

(** [recognizeOffline] calls the recogniser at most once, and exactly when
    the module lets it through its guards, a capture object is registered
    for the canvas and that object holds a stroke: then there is one call,
    it passes the strokes of that object, and the recogniser's result, or
    its failure, is handed on as it is; a call is made in no other case;
    and without a call no result of the recogniser is returned. *)
Theorem recognizeOffline_call_discipline (st : OfflineState F R)
    (canvasId : string) :
  let run := recognizeOffline st canvasId in
  (forall rec capture,
     modelAvailable st ->
     recognizer st = Some rec ->
     strokeCaptures st !! canvasId = Some capture ->
     getStrokes capture <> [] ->
     calls run = [CallRecognize (getStrokes capture)]
     /\ completion run = match recognize rec (getStrokes capture) with
                         | Return r => Return (inr r)
                         | Throw message => Throw message
                         end)
  /\ (calls run <> [] ->
      exists rec capture,
        modelAvailable st
        /\ recognizer st = Some rec
        /\ strokeCaptures st !! canvasId = Some capture
        /\ getStrokes capture <> []
        /\ calls run = [CallRecognize (getStrokes capture)])
  /\ (calls run = [] -> forall r, completion run <> Return (inr r))
  /\ (length (calls run) <= 1)%nat.
Proof.
  cbv zeta. unfold recognizeOffline.
  destruct (awaitPromise_cases (modelLoadPromise st))
    as [(message & Hrej & ->)|[Hpromise ->]].
  - split; [intros rec capture (Hnot & _) _ _ _; now apply Hnot in Hrej|].
    split; [intros Hcalls; now contradiction Hcalls|].
    split; [intros _ r; discriminate | cbn; lia].
  - destruct (isModelLoaded st) eqn:Hloaded.
    2:{ split; [intros rec capture (_ & Hl & _); congruence|].
        split; [intros Hcalls; now contradiction Hcalls|].
        split; [intros _ r; discriminate | cbn; lia]. }
    destruct (recognizer st) as [rec|] eqn:Hrec.
    2:{ split; [intros rec capture _ Hsome; congruence|].
        split; [intros Hcalls; now contradiction Hcalls|].
        split; [intros _ r; discriminate | cbn; lia]. }
    destruct (strokeCaptures st !! canvasId) as [capture|] eqn:Hcapture.
    2:{ split; [intros rec' capture _ _ Hsome; congruence|].
        split; [intros Hcalls; now contradiction Hcalls|].
        split; [intros _ r; discriminate | cbn; lia]. }
    destruct (getStrokes capture) as [|s ss] eqn:Hstrokes.
    { split; [intros rec' capture' _ _ [= <-] Hne; congruence|].
      split; [intros Hcalls; now contradiction Hcalls|].
      split; [intros _ r; discriminate | cbn; lia]. }
    destruct (recognize rec (s :: ss)) as [r|e] eqn:Hrecog; cbn.
    all: split;
      [intros rec' capture' _ [= <-] [= <-] _;
       rewrite Hstrokes, Hrecog; split; reflexivity|].
    all: split;
      [intros _; exists rec, capture;
       (split; [split; [exact Hpromise | split; [exact Hloaded | congruence]]|]);
       (split; [reflexivity|]); (split; [reflexivity|]);
       rewrite Hstrokes; split; [discriminate | reflexivity]|].
    all: split; [intros Hcalls; discriminate Hcalls | lia].
Qed.

(** The order of the guards of [recognizeOffline]: a rejected load promise
    rejects the call with the promise's own error, whatever the other
    variables hold; otherwise a module that is not marked loaded, or has no
    recogniser, throws [Model not available], also for a canvas that was
    never registered; the missing capture object is reported only when the
    model is available, for an id under which the lookup finds nothing: no
    capture object is registered and the id is not the name of a property
    every object inherits.  No guard calls the recogniser. *)
Theorem recognizeOffline_error_precedence (st : OfflineState F R)
    (canvasId : string) :
  let run := recognizeOffline st canvasId in
  (forall message, modelLoadPromise st = Some (Rejected message) ->
     run = ([], Throw message))
  /\ ((forall message, modelLoadPromise st <> Some (Rejected message)) ->
      isOfflineAvailable st = false ->
      run = ([], Throw "Model not available"))
  /\ (modelAvailable st -> strokeCaptures st !! canvasId = None ->
      inheritedName canvasId = false ->
      run = ([], Throw "No stroke capture for canvas")).
Proof.
  cbv zeta. unfold recognizeOffline. split; [|split].
  - intros message ->. reflexivity.
  - intros Hpromise Hoff.
    destruct (awaitPromise_cases (modelLoadPromise st))
      as [(message & Hrej & _)|[_ ->]]; [now apply Hpromise in Hrej|].
    unfold isOfflineAvailable in Hoff.
    destruct (isModelLoaded st); [|reflexivity].
    destruct (recognizer st); [discriminate | reflexivity].
  - intros (Hpromise & Hloaded & Hrec) Hnone _.
    destruct (awaitPromise_cases (modelLoadPromise st))
      as [(message & Hrej & _)|[_ ->]]; [now apply Hpromise in Hrej|].
    rewrite Hloaded, Hnone.
    destruct (recognizer st); [reflexivity | congruence].
Qed.

(** After [clearCanvasStrokes] the capture object of the canvas holds no
    stroke, so on an available model [recognizeOffline] answers with the
    empty result and does not call the recogniser; the capture objects of
    the other canvases keep their strokes; for an id under which the
    lookup finds nothing -- never registered, and not the name of a
    property every object inherits -- the call changes nothing. *)
Theorem clearCanvasStrokes_forgets (st : OfflineState F R) (canvasId : string) :
  let st' := clearCanvasStrokes st canvasId in
  (forall capture, strokeCaptures st !! canvasId = Some capture ->
     strokeCaptures st' !! canvasId = Some (clear capture)
     /\ (modelAvailable st ->
         recognizeOffline st' canvasId
         = ([], Return (inl (mkEmptyResult "" true)))))
  /\ (forall other, other <> canvasId ->
        strokeCaptures st' !! other = strokeCaptures st !! other)
  /\ (strokeCaptures st !! canvasId = None ->
      inheritedName canvasId = false -> st' = st).
Proof.
  cbv zeta. unfold clearCanvasStrokes. split; [|split].
  - intros capture Hcapture.
    cbn [strokeCaptures]. rewrite lookup_alter_eq, Hcapture. cbn [fmap option_fmap option_map].
    split; [reflexivity|].
    intros (Hpromise & Hloaded & Hrec).
    unfold recognizeOffline.
    cbn [modelLoadPromise isModelLoaded recognizer strokeCaptures].
    destruct (awaitPromise_cases (modelLoadPromise st))
      as [(message & Hrej & _)|[_ ->]]; [now apply Hpromise in Hrej|].
    rewrite Hloaded, lookup_alter_eq, Hcapture.
    destruct (recognizer st); [reflexivity | congruence].
  - intros other Hother. cbn [strokeCaptures].
    now rewrite lookup_alter_ne.
  - intros Hnone _.
    assert (Hsame : alter clear canvasId (strokeCaptures st) = strokeCaptures st).
    { apply map_eq. intros k. destruct (decide (k = canvasId)) as [->|Hk].
      - now rewrite lookup_alter_eq, Hnone.
      - now rewrite lookup_alter_ne. }
    rewrite Hsame. now destruct st.
Qed.

End OfflineFacts.

(** ** The offline module: loading the model *)

Section InitFacts.
Context {F : Type} `{NumF : Number F}.
Context {R : Type}.

(** After [initOfflineHandwriting] has returned on the module as the script
    leaves it, the module is available exactly when the recogniser was
    constructed and its [init] promise was fulfilled; it is then in the
    state [recognizeOffline] asks for, and no error is stored.  Otherwise
    an error message is stored and every [recognizeOffline] throws without
    calling the recogniser.  The registered capture objects are
    untouched. *)
Theorem initOfflineHandwriting_availability (env : InitEnvironment F R)
    (captures : gmap string (CaptureState F)) (m' : OfflineModule F R) :
  completion (initOfflineHandwriting env (newOfflineModule captures))
  = Return m' ->
  let st' := offlineState m' in
  strokeCaptures st' = captures
  /\ (isOfflineAvailable st' = true <->
      exists rec, newHandwritingRecognizer env = Return rec
                  /\ recognizerInit env rec = Fulfilled)
  /\ (isOfflineAvailable st' = true <-> modelAvailable st')
  /\ (isOfflineAvailable st' = true <-> modelLoadError m' = None)
  /\ (isOfflineAvailable st' = false ->
      forall canvasId, exists message,
        recognizeOffline st' canvasId = ([], Throw message)).
Proof.
  unfold initOfflineHandwriting, completion, newOfflineModule.
  destruct (tfDefined env), (loadTensorFlow env) as [[]|e1];
    destruct (recognizerDefined env), (loadHandwritingModules env) as [[]|e2];
    try (cbn; discriminate);
    (destruct (newHandwritingRecognizer env) as [rec|e3] eqn:Hnew;
     [destruct (recognizerInit env rec) as [|e4] eqn:Hinit|]);
    cbn; rewrite ?Hinit; cbn; intros [= <-]; cbn;
    (split; [reflexivity|]);
    unfold modelAvailable, isOfflineAvailable, recognizeOffline; cbn.
  all: repeat match goal with
         | |- _ /\ _ => split
         | |- _ <-> _ => split
         end.
  all: try reflexivity; try discriminate; try (intros; discriminate).
  all: try (intros _; exists rec; split; [reflexivity | assumption]).
  all: try (intros _; split; [intros message; discriminate
                             | split; [reflexivity | discriminate]]).
  all: try (intros (rec' & [= <-] & Hok); congruence).
  all: try (intros (rec' & [= ] & Hok)).
  all: try (intros (_ & [= ] & _)).
  all: try (intros _ canvasId; eexists; reflexivity).
Qed.

(** A failure of the model never rejects [initOfflineHandwriting]: once the
    two scripts are there (defined, or loaded without error) the function
    returns, whatever the constructor and the recogniser's [init] do, and
    the constructor has been called.  It rejects only when a script fails
    to load, then with the loader's error, before the recogniser is
    constructed and with no variable assigned. *)
Theorem initOfflineHandwriting_contains_model_failure
    (env : InitEnvironment F R) (m : OfflineModule F R) :
  let run := initOfflineHandwriting env m in
  let tfReady := tfDefined env = true \/ loadTensorFlow env = Return tt in
  let modulesReady :=
    recognizerDefined env = true \/ loadHandwritingModules env = Return tt in
  (tfReady -> modulesReady ->
   (exists m', completion run = Return m')
   /\ In NewHandwritingRecognizer (calls run))
  /\ (forall message, completion run = Throw message ->
      ~ In NewHandwritingRecognizer (calls run)
      /\ ~ In RecognizerInit (calls run)
      /\ ((tfDefined env = false /\ loadTensorFlow env = Throw message)
          \/ (tfReady /\ recognizerDefined env = false
              /\ loadHandwritingModules env = Throw message))).
Proof.
  cbv zeta. unfold initOfflineHandwriting, completion, calls.
  destruct (tfDefined env), (loadTensorFlow env) as [[]|e1];
    destruct (recognizerDefined env), (loadHandwritingModules env) as [[]|e2];
    (destruct (newHandwritingRecognizer env) as [rec|e3];
     [destruct (recognizerInit env rec) as [|e4] eqn:Hinit|]);
    cbn; rewrite ?Hinit; cbn.
  all: split.
  all: try (intros message Hthrow; discriminate Hthrow).
  all: try (intros Htf Hmod; split; [eexists; reflexivity | tauto]).
  all: try (intros [Htf|Htf] Hmod; discriminate Htf).
  all: try (intros Htf [Hmod|Hmod]; discriminate Hmod).
  all: intros message [= <-].
  all: split; [intros Hin; cbn in Hin; intuition discriminate|].
  all: split; [intros Hin; cbn in Hin; intuition discriminate|].
  all: first [ left; split; reflexivity
             | right; split; [|split; reflexivity];
               first [left; reflexivity | right; reflexivity] ].
Qed.

End InitFacts.

(** ** The offline module: submitting the modal canvas *)

Lemma hasContent_spec (data : list N) :
  hasContent data = true <-> exists k, (10 < nth (4 * k + 3) data 0)%N.
Proof.
  assert (Hgen : forall n data, (length data <= n)%nat ->
            (hasContent data = true
             <-> exists k, (10 < nth (4 * k + 3) data 0)%N)).
  { clear data. induction n as [|n IH]; intros data Hlen.
    - destruct data; [|cbn in Hlen; lia]. cbn [hasContent]. split; [discriminate|].
      intros [k Hk]. rewrite nth_overflow in Hk by (cbn [length]; lia). lia.
    - destruct data as [|a [|b [|c [|alpha rest]]]].
      1-4: cbn [hasContent]; split; [discriminate|]; intros [k Hk];
        rewrite nth_overflow in Hk by (cbn [length]; lia); lia.
      cbn [hasContent].
      assert (Hshift : forall k, nth (4 * S k + 3) (a :: b :: c :: alpha :: rest) 0%N
                                 = nth (4 * k + 3) rest 0%N).
      { intros k. replace (4 * S k + 3)%nat with (S (S (S (S (4 * k + 3))))) by lia.
        reflexivity. }
      destruct (N.ltb_spec 10 alpha) as [Hlt|Hge].
      + split; [intros _|reflexivity]. exists 0%nat. exact Hlt.
      + rewrite (IH rest) by (cbn [length] in Hlen; lia).
        split.
        * intros [k Hk]. exists (S k). now rewrite Hshift.
        * intros [[|k] Hk]; [cbn in Hk; lia|].
          exists k. now rewrite <- Hshift. }
  now apply (Hgen (length data)).
Qed.

Section SubmitFacts.
Context {F : Type} `{NumF : Number F}.
Context {R : Type}.
Variable textOf : R -> jsstring.

(** The inner [try] statement never throws, and calls the recogniser at
    most once. *)
Lemma offlineAttempt_cases (st : OfflineState F R) :
  offlineAttempt textOf st = ([], Return [])
  \/ (exists rec capture,
        modelAvailable st
        /\ recognizer st = Some rec
        /\ strokeCaptures st !! "modalCanvas"%string = Some capture
        /\ getStrokes capture <> []
        /\ offlineAttempt textOf st
           = ([Recognize (getStrokes capture)],
              Return match recognize rec (getStrokes capture) with
                     | Return r => match textOf r with
                                   | [] => []
                                   | text => JSString.trim text
                                   end
                     | Throw _ => []
                     end)).
Proof.
  unfold offlineAttempt.
  destruct (isModelLoaded st) eqn:Hloaded; [|now left].
  destruct (strokeCaptures st !! "modalCanvas"%string) as [capture|] eqn:Hcapture;
    [|now left].
  unfold recognizeOffline. rewrite Hloaded, Hcapture.
  destruct (modelLoadPromise st) as [[|message]|] eqn:Hpromise; cbn;
    try (now left).
  all: destruct (recognizer st) as [rec|] eqn:Hrec; cbn; try (now left).
  all: destruct (getStrokes capture) as [|s ss] eqn:Hstrokes; cbn; try (now left).
  all: right; exists rec, capture;
    rewrite Hstrokes;
    (split; [split; [rewrite Hpromise; intros message; discriminate
                    | split; [exact Hloaded | congruence]]|]);
    (split; [reflexivity|]); (split; [reflexivity|]);
    (split; [discriminate|]);
    destruct (recognize rec (s :: ss)) as [r|e]; cbn; [|reflexivity];
    destruct (textOf r); reflexivity.
Qed.

(** Taking every decision of the outer [try] statement, innermost
    first. *)
Ltac undecided x :=
  lazymatch x with
  | context [match _ with _ => _ end] => fail
  | _ => idtac
  end.

Ltac submit_decisions :=
  repeat match goal with
         | |- context [match ?x with _ => _ end] =>
             undecided x; destruct x eqn:?; cbn
         end.

(** The outer [try] statement with its [catch] block: what it calls. *)
Lemma submitBody_calls (enableFallback : bool) (page : Page)
    (st : OfflineState F R) (fieldId : string) :
  let guarded :=
    tryCatch (submitBody textOf enableFallback page st fieldId)
             (fun _ => whenDefined (showErrorDefined page)
                         (ShowError Messages.failed)) in
  completion guarded = Return tt
  /\ forallb (fun c => negb (isLoadingCall c)) (calls guarded) = true
  /\ ~ In (ShowError Messages.writeFirst) (calls guarded).
Proof.
  cbv zeta. unfold submitBody, applyText, whenDefined, completion, calls.
  assert (Hfailed : ShowError (F := F) Messages.failed
                    <> ShowError Messages.writeFirst) by discriminate.
  assert (Hunreadable : ShowError (F := F) Messages.unreadable
                        <> ShowError Messages.writeFirst) by discriminate.
  assert (Hmodel : ShowError (F := F) Messages.modelUnavailable
                   <> ShowError Messages.writeFirst) by discriminate.
  destruct (offlineAttempt_cases st)
    as [->|(rec & capture & _ & _ & _ & _ & ->)];
    set (trim := JSString.trim) in *; clearbody trim; cbn;
    submit_decisions;
    repeat match goal with u : unit |- _ => destruct u end;
    repeat split;
    try reflexivity; try discriminate;
    cbn; intuition discriminate.
Qed.

(** The notifications of the outer [try] statement with its [catch]
    block. *)
Lemma submitBody_notifications (enableFallback : bool) (page : Page)
    (st : OfflineState F R) (fieldId : string) :
  let told :=
    filter isNotification
      (calls (tryCatch (submitBody textOf enableFallback page st fieldId)
                       (fun _ => whenDefined (showErrorDefined page)
                                   (ShowError Messages.failed)))) in
  (length told <= 2)%nat
  /\ ((forall message, closeFieldCanvas page <> Some (Throw message)) ->
      (length told <= 1)%nat)
  /\ ((2 <= length told)%nat ->
      told = [ShowSuccess Messages.recognized; ShowError Messages.failed]
      /\ exists message, closeFieldCanvas page = Some (Throw message))
  /\ (showErrorDefined page = true -> showSuccessDefined page = true ->
      (1 <= length told)%nat).
Proof.
  cbv zeta. unfold submitBody, applyText, whenDefined, completion, calls.
  destruct (offlineAttempt_cases st)
    as [->|(rec & capture & _ & _ & _ & _ & ->)];
    set (trim := JSString.trim) in *; clearbody trim; cbn;
    submit_decisions.
  all: split; [cbn; lia|].
  all: split;
    [intros Hclose; cbn; first [lia | exfalso; eapply Hclose; reflexivity]|].
  all: split; [cbn; intros Htwo;
               first [lia | split; [reflexivity | eexists; reflexivity]]|].
  all: cbn; intros Herr Hok; first [lia | discriminate].
Qed.

(** [submitFieldCanvasOffline] never rejects, whatever the recogniser, the
    server, the grammar corrector and the field's [setValue] do.  Once it
    is past its early returns -- a field is active, the canvas exists and
    has a pixel drawn -- [showLoading] is its first call and [hideLoading]
    its last, each when defined; no other call touches the loading
    indicator, and an early return does not touch it at all. *)
Theorem submitFieldCanvasOffline_settles (enableFallback : bool) (page : Page)
    (st : OfflineState F R) :
  let run := submitFieldCanvasOffline textOf enableFallback page st in
  completion run = Return tt
  /\ exists started work,
       (started = true <->
        activeCanvasFieldId page <> None
        /\ exists data, modalCanvas page = Some data /\ hasContent data = true)
       /\ forallb (fun c => negb (isLoadingCall c)) work = true
       /\ calls run
          = (if started && showLoadingDefined page then [ShowLoading] else [])
            ++ work
            ++ (if started && hideLoadingDefined page then [HideLoading] else []).
Proof.
  cbv zeta. unfold submitFieldCanvasOffline.
  destruct (activeCanvasFieldId page) as [fieldId|].
  2:{ split; [reflexivity|]. exists false, [].
      split; [split; [discriminate | intros [Hid _]; congruence]|].
      split; reflexivity. }
  destruct (modalCanvas page) as [data|].
  2:{ split; [reflexivity|]. exists false, [].
      split; [split; [discriminate | intros [_ (data & Hdata & _)]; discriminate]|].
      split; reflexivity. }
  destruct (hasContent data) eqn:Hcontent; cbn [negb].
  2:{ split; [unfold whenDefined; destruct (showErrorDefined page); reflexivity|].
      exists false, (calls (whenDefined (F := F) (showErrorDefined page)
                              (ShowError Messages.writeFirst))).
      split; [split; [discriminate
                     | intros [_ (data' & [= <-] & Hdata')]; congruence]|].
      unfold whenDefined. destruct (showErrorDefined page); split; reflexivity. }
  destruct (submitBody_calls enableFallback page st fieldId)
    as (Hret & Hload & _).
  cbv zeta in Hret, Hload.
  destruct (tryCatch (submitBody textOf enableFallback page st fieldId) _)
    as [work r].
  cbn [completion calls snd fst] in Hret, Hload. subst r.
  split.
  - unfold whenDefined.
    destruct (showLoadingDefined page), (hideLoadingDefined page); reflexivity.
  - exists true, work.
    split; [split; [intros _; split; [discriminate | now exists data]
                   | reflexivity]|].
    split; [exact Hload|].
    unfold whenDefined.
    destruct (showLoadingDefined page), (hideLoadingDefined page); cbn;
      rewrite ?app_nil_r; reflexivity.
Qed.

(** The blank-canvas test looks at the alpha byte of every pixel: when none
    is above 10 the only thing the function does is to ask the user to
    write first; when one is, that message is never shown. *)
Theorem submitFieldCanvasOffline_blank_canvas (enableFallback : bool)
    (page : Page) (st : OfflineState F R) (fieldId : string) (data : list N) :
  activeCanvasFieldId page = Some fieldId ->
  modalCanvas page = Some data ->
  let run := submitFieldCanvasOffline textOf enableFallback page st in
  ((forall k, (nth (4 * k + 3) data 0 <= 10)%N) ->
   run = (if showErrorDefined page then [ShowError Messages.writeFirst] else [],
          Return tt))
  /\ ((exists k, (10 < nth (4 * k + 3) data 0)%N) ->
      ~ In (ShowError Messages.writeFirst) (calls run)).
Proof.
  intros Hfield Hcanvas. cbv zeta.
  unfold submitFieldCanvasOffline. rewrite Hfield, Hcanvas.
  split.
  - intros Hblank.
    assert (Hcontent : hasContent data = false).
    { destruct (hasContent data) eqn:Hc; [|reflexivity].
      apply hasContent_spec in Hc as [k Hk]. specialize (Hblank k). lia. }
    rewrite Hcontent. cbn [negb]. unfold whenDefined.
    destruct (showErrorDefined page); reflexivity.
  - intros Hdrawn. apply hasContent_spec in Hdrawn. rewrite Hdrawn. cbn [negb].
    destruct (submitBody_calls enableFallback page st fieldId)
      as (Hret & _ & Hnever).
    cbv zeta in Hret, Hnever.
    destruct (tryCatch (submitBody textOf enableFallback page st fieldId) _)
      as [work r].
    cbn [completion calls snd fst] in Hret, Hnever. subst r.
    unfold whenDefined.
    destruct (showLoadingDefined page), (hideLoadingDefined page);
      cbn; rewrite ?in_app_iff; cbn; intuition discriminate.
Qed.

(** The user is told the outcome once, unless [closeFieldCanvas] throws.
    Among the calls there are at most two of [showError] and
    [showSuccess]; at most one when [closeFieldCanvas] is no function or
    returns; two only as [showSuccess] followed by the [showError] of the
    [catch] block, after a throw of [closeFieldCanvas]; and at least one
    when a field is active, the canvas exists and both functions are
    defined -- whether the canvas is blank, the text is recognised,
    nothing is recognised, or a collaborator throws. *)
Theorem submitFieldCanvasOffline_notifies_once (enableFallback : bool)
    (page : Page) (st : OfflineState F R) :
  let told :=
    filter isNotification
           (calls (submitFieldCanvasOffline textOf enableFallback page st)) in
  (length told <= 2)%nat
  /\ ((forall message, closeFieldCanvas page <> Some (Throw message)) ->
      (length told <= 1)%nat)
  /\ ((2 <= length told)%nat ->
      told = [ShowSuccess Messages.recognized; ShowError Messages.failed]
      /\ exists message, closeFieldCanvas page = Some (Throw message))
  /\ (activeCanvasFieldId page <> None -> modalCanvas page <> None ->
      showErrorDefined page = true -> showSuccessDefined page = true ->
      (1 <= length told)%nat).
Proof.
  cbv zeta. unfold submitFieldCanvasOffline.
  destruct (activeCanvasFieldId page) as [fieldId|].
  2:{ cbn. split; [lia|]. split; [lia|]. split; [lia|]. congruence. }
  destruct (modalCanvas page) as [data|].
  2:{ cbn. split; [lia|]. split; [lia|]. split; [lia|]. congruence. }
  destruct (hasContent data); cbn [negb].
  2:{ unfold whenDefined. destruct (showErrorDefined page); cbn;
        (split; [lia|]); (split; [lia|]); (split; [lia|]);
        intros _ _ Herr _; [lia | discriminate]. }
  destruct (submitBody_calls enableFallback page st fieldId) as (Hret & _).
  destruct (submitBody_notifications enableFallback page st fieldId)
    as (Hmost & Hone & Htwo & Hsome).
  cbv zeta in Hret, Hmost, Hone, Htwo, Hsome.
  destruct (tryCatch (submitBody textOf enableFallback page st fieldId) _)
    as [work r].
  cbn [completion calls snd fst] in Hret, Hmost, Hone, Htwo, Hsome. subst r.
  assert (Hsame : forall shown hidden,
            filter isNotification
              (calls (whenDefined shown ShowLoading ;;;
                      tryFinally (work, Return tt)
                                 (whenDefined hidden HideLoading))%eff)
            = filter isNotification work).
  { intros [|] [|]; cbn; rewrite ?filter_app; cbn; now rewrite ?app_nil_r. }
  rewrite Hsame. split; [exact Hmost|]. split; [exact Hone|].
  split; [exact Htwo|].
  intros _ _ Herr Hok. now apply Hsome.
Qed.

(** Going through the calls a hypothesis lists. *)
Ltac call_cases H :=
  cbn in H;
  repeat match goal with
         | H : _ \/ _ |- _ => destruct H as [H|H]
         | H : False |- _ => destruct H
         | H : @eq (SubmitCall _) _ _ |- _ =>
             first [discriminate H | inversion H; clear H; subst]
         end.

(** Where the calls of the outer [try] statement come from. *)
Lemma submitBody_sources (enableFallback : bool) (page : Page)
    (st : OfflineState F R) (fieldId : string) :
  let guarded :=
    tryCatch (submitBody textOf enableFallback page st fieldId)
             (fun _ => whenDefined (showErrorDefined page)
                         (ShowError Messages.failed)) in
  (forall strokes, In (Recognize strokes) (calls guarded) ->
     modelAvailable st
     /\ exists capture,
          strokeCaptures st !! "modalCanvas"%string = Some capture
          /\ getStrokes capture = strokes /\ strokes <> [])
  /\ (In RecognizeViaServer (calls guarded) -> enableFallback = true)
  /\ (forall f t,
        In (SetValue f t) (calls guarded) \/ In (SetInputValue f t) (calls guarded) ->
        f = fieldId
        /\ (correctNepaliGrammar page = None -> enableFallback = false ->
            t <> []
            /\ exists rec capture r,
                 recognizer st = Some rec
                 /\ strokeCaptures st !! "modalCanvas"%string = Some capture
                 /\ recognize rec (getStrokes capture) = Return r
                 /\ t = JSString.trim (textOf r)))
  /\ (length (filter isFieldWrite (calls guarded)) <= 1)%nat.
Proof.
  cbv zeta. unfold submitBody, applyText, whenDefined, completion, calls.
  destruct (offlineAttempt_cases st)
    as [->|(rec & capture & Havail & Hrec & Hcapture & Hstrokes & ->)];
    set (trim := JSString.trim) in *; clearbody trim; cbn;
    submit_decisions.
  all: split;
    [intros strokes Hin; call_cases Hin;
     match goal with
     | Ha : modelAvailable _, Hc : _ !! _ = Some ?capture,
       Hs : getStrokes ?capture <> [] |- _ =>
         split; [exact Ha|]; exists capture;
         split; [exact Hc|]; split; [reflexivity | exact Hs]
     end|].
  all: split; [intros Hin; call_cases Hin; reflexivity|].
  all: split; [|cbn; lia].
  all: intros f t [Hin|Hin]; call_cases Hin.
  all: split; [reflexivity|]; intros Hgrammar Hfallback; try discriminate.
  all: split; [discriminate|].
  all: match goal with
       | Hr : recognize ?rec _ = Return ?r, Hrec : recognizer _ = Some ?rec,
         Hc : _ !! _ = Some ?capture |- _ =>
           exists rec, capture, r;
           split; [exact Hrec|]; split; [exact Hc|];
           split; [exact Hr | congruence]
       end.
Qed.

(** The calls of the function that are not about the loading indicator:
    the request to write first, or a call of the outer [try] statement. *)
Lemma submit_calls_origin (enableFallback : bool) (page : Page)
    (st : OfflineState F R) (c : SubmitCall F) :
  In c (calls (submitFieldCanvasOffline textOf enableFallback page st)) ->
  isLoadingCall c = false ->
  c = ShowError Messages.writeFirst
  \/ exists fieldId,
       activeCanvasFieldId page = Some fieldId
       /\ In c (calls (tryCatch
                         (submitBody textOf enableFallback page st fieldId)
                         (fun _ => whenDefined (showErrorDefined page)
                                     (ShowError Messages.failed)))).
Proof.
  unfold submitFieldCanvasOffline.
  destruct (activeCanvasFieldId page) as [fieldId|]; [|intros []].
  destruct (modalCanvas page) as [data|]; [|intros []].
  destruct (hasContent data); cbn [negb].
  2:{ unfold whenDefined. destruct (showErrorDefined page); cbn;
        intuition. }
  intros Hin Hc. right. exists fieldId. split; [reflexivity|].
  destruct (submitBody_calls enableFallback page st fieldId) as (Hret & _).
  cbv zeta in Hret.
  destruct (tryCatch (submitBody textOf enableFallback page st fieldId) _)
    as [work r].
  cbn [completion calls snd fst] in Hret |- *. subst r.
  unfold whenDefined in Hin.
  destruct (showLoadingDefined page), (hideLoadingDefined page);
    cbn in Hin; rewrite ?in_app_iff in Hin; cbn in Hin;
    intuition (subst; discriminate).
Qed.

(** The recogniser is called only on an available model, with the strokes
    of the capture object of the modal canvas, and only when there are
    some; the server is called only when the fallback is enabled, which the
    configuration of the sources does not do. *)
Theorem submitFieldCanvasOffline_recognition_sources (enableFallback : bool)
    (page : Page) (st : OfflineState F R) :
  let run := submitFieldCanvasOffline textOf enableFallback page st in
  (forall strokes, In (Recognize strokes) (calls run) ->
     modelAvailable st
     /\ exists capture,
          strokeCaptures st !! "modalCanvas"%string = Some capture
          /\ getStrokes capture = strokes /\ strokes <> [])
  /\ (In RecognizeViaServer (calls run) -> enableFallback = true)
  /\ ~ In RecognizeViaServer
         (calls (submitFieldCanvasOffline textOf CONFIG_enableFallback page st)).
Proof.
  cbv zeta.
  assert (Hserver : forall fallback,
            In RecognizeViaServer
               (calls (submitFieldCanvasOffline textOf fallback page st)) ->
            fallback = true).
  { intros fallback Hin.
    apply submit_calls_origin in Hin as [Hin|(fieldId & _ & Hin)];
      [discriminate | | reflexivity].
    now apply (submitBody_sources fallback page st fieldId). }
  split; [|split].
  - intros strokes Hin.
    apply submit_calls_origin in Hin as [Hin|(fieldId & _ & Hin)];
      [discriminate | | reflexivity].
    now apply (submitBody_sources enableFallback page st fieldId).
  - apply Hserver.
  - intros Hin. apply Hserver in Hin. discriminate.
Qed.

(** The form is written at most once, to the active field.  Without
    grammar corrector and server fallback, what is written is the trimmed
    text of the recogniser's result for the strokes of the modal canvas,
    and it is not empty: a text of white space only is treated as no
    text. *)
Theorem submitFieldCanvasOffline_writes_recognized_text
    (enableFallback : bool) (page : Page) (st : OfflineState F R) :
  let run := submitFieldCanvasOffline textOf enableFallback page st in
  (length (filter isFieldWrite (calls run)) <= 1)%nat
  /\ forall f t,
       In (SetValue f t) (calls run) \/ In (SetInputValue f t) (calls run) ->
       activeCanvasFieldId page = Some f
       /\ (correctNepaliGrammar page = None -> enableFallback = false ->
           t <> []
           /\ exists rec capture r,
                recognizer st = Some rec
                /\ strokeCaptures st !! "modalCanvas"%string = Some capture
                /\ recognize rec (getStrokes capture) = Return r
                /\ t = JSString.trim (textOf r)).
Proof.
  cbv zeta. split.
  - unfold submitFieldCanvasOffline.
    destruct (activeCanvasFieldId page) as [fieldId|]; [|cbn; lia].
    destruct (modalCanvas page) as [data|]; [|cbn; lia].
    destruct (hasContent data); cbn [negb];
      [|unfold whenDefined; destruct (showErrorDefined page); cbn; lia].
    destruct (submitBody_calls enableFallback page st fieldId) as (Hret & _).
    destruct (submitBody_sources enableFallback page st fieldId)
      as (_ & _ & _ & Hwrite).
    cbv zeta in Hret, Hwrite.
    destruct (tryCatch (submitBody textOf enableFallback page st fieldId) _)
      as [work r].
    cbn [completion calls snd fst] in Hret, Hwrite. subst r.
    unfold whenDefined.
    destruct (showLoadingDefined page), (hideLoadingDefined page);
      cbn; rewrite ?filter_app; cbn; rewrite ?app_nil_r; exact Hwrite.
  - intros f t Hin.
    assert (Horigin : exists fieldId,
              activeCanvasFieldId page = Some fieldId
              /\ (In (SetValue f t)
                      (calls (tryCatch
                                (submitBody textOf enableFallback page st fieldId)
                                (fun _ => whenDefined (showErrorDefined page)
                                            (ShowError Messages.failed))))
                  \/ In (SetInputValue f t)
                        (calls (tryCatch
                                  (submitBody textOf enableFallback page st fieldId)
                                  (fun _ => whenDefined (showErrorDefined page)
                                              (ShowError Messages.failed)))))).
    { destruct Hin as [Hin|Hin];
        apply submit_calls_origin in Hin as [Hin|(fieldId & Hfield & Hin)];
        try discriminate; try reflexivity;
        exists fieldId; (split; [exact Hfield|]); [left | right]; exact Hin. }
    destruct Horigin as (fieldId & Hfield & Hbody).
    destruct (submitBody_sources enableFallback page st fieldId)
      as (_ & _ & Hwrites & _).
    destruct (Hwrites f t Hbody) as [-> Htext].
    split; [exact Hfield | exact Htext].
Qed.

End SubmitFacts.

(** Instances of the properties of the offline module. *)

(** The model loads: the module is available and no error is stored. *)
Lemma initOfflineHandwriting_availability_witness :
  exists m',
    completion (initOfflineHandwriting OfflineSamples.modelLoads
                  (newOfflineModule ∅)) = Return m'
    /\ modelAvailable (offlineState m')
    /\ modelLoadError m' = None.
Proof.
  eexists. split; [reflexivity|].
  destruct (initOfflineHandwriting_availability OfflineSamples.modelLoads ∅ _
              eq_refl) as (_ & Hloaded & Havailable & Herror & _).
  split.
  - apply Havailable. reflexivity.
  - apply Herror. reflexivity.
Defined.

(** A canvas of transparent pixels: the user is asked to write first. *)
Lemma submitFieldCanvasOffline_blank_canvas_witness :
  submitFieldCanvasOffline (fun r => r) CONFIG_enableFallback
    (OfflineSamples.pageWith OfflineSamples.transparentPixels)
    OfflineSamples.loadedWithStroke
  = ([ShowError Messages.writeFirst], Return tt).
Proof.
  destruct (submitFieldCanvasOffline_blank_canvas (fun r => r)
              CONFIG_enableFallback
              (OfflineSamples.pageWith OfflineSamples.transparentPixels)
              OfflineSamples.loadedWithStroke "applicant_name"
              OfflineSamples.transparentPixels eq_refl eq_refl)
    as [Hblank _].
  apply Hblank. intros k.
  destruct k as [|[|k]]; [cbn; lia | cbn; lia |].
  rewrite nth_overflow by (cbn [length OfflineSamples.transparentPixels]; lia).
  lia.
Defined.

(** A stroke on the canvas, read as U+0915 between two spaces: the field is
    given the trimmed text. *)
Lemma submitFieldCanvasOffline_writes_recognized_text_witness :
  let run :=
    submitFieldCanvasOffline (fun r => r) CONFIG_enableFallback
      (OfflineSamples.pageWith OfflineSamples.inkedPixels)
      OfflineSamples.loadedWithStroke in
  exists t, In (SetValue "applicant_name" t) (calls run) /\ t <> [].
Proof.
  intros run. exists [0x0915%N].
  assert (Hin : In (SetValue "applicant_name" [0x0915%N]) (calls run))
    by (vm_compute; tauto).
  split; [exact Hin|].
  destruct (submitFieldCanvasOffline_writes_recognized_text (fun r => r)
              CONFIG_enableFallback
              (OfflineSamples.pageWith OfflineSamples.inkedPixels)
              OfflineSamples.loadedWithStroke) as [_ Hwrites].
  destruct (Hwrites "applicant_name"%string [0x0915%N] (or_introl Hin))
    as [_ Htext].
  destruct (Htext eq_refl eq_refl) as [Hne _]. exact Hne.
Defined.

(** A [closeFieldCanvas] that throws after the text was written: the user
    is told of a success and then of a failure. *)
Lemma submitFieldCanvasOffline_notifies_once_witness :
  filter isNotification
    (calls (submitFieldCanvasOffline (fun r => r) CONFIG_enableFallback
              (OfflineSamples.pageFailingToClose OfflineSamples.inkedPixels)
              OfflineSamples.loadedWithStroke))
  = [ShowSuccess Messages.recognized; ShowError Messages.failed].
Proof.
  destruct (submitFieldCanvasOffline_notifies_once (fun r => r)
              CONFIG_enableFallback
              (OfflineSamples.pageFailingToClose OfflineSamples.inkedPixels)
              OfflineSamples.loadedWithStroke) as (_ & _ & Htwo & _).
  apply Htwo. vm_compute. apply le_n.
Defined.

(** ** The Tesseract front end: cleaning the recognised text *)

Module TrimFacts.
Import JSString.
#[local] Open Scope N_scope.

Lemma trimStart_app (a b : jsstring) :
  trimStart (a ++ b)
  = if forallb isWhiteSpace a then trimStart b else trimStart a ++ b.
Proof.
  induction a as [|c a IH]; cbn [app trimStart forallb]; [reflexivity|].
  destruct (isWhiteSpace c); cbn [andb]; [exact IH | reflexivity].
Qed.

Lemma trimStart_white (s : jsstring) :
  forallb isWhiteSpace s = true -> trimStart s = [].
Proof.
  induction s as [|c s IH]; cbn [forallb trimStart]; [reflexivity|].
  destruct (isWhiteSpace c); cbn [andb]; [exact IH | discriminate].
Qed.

(** [trimEnd] by recursion from the front. *)
Lemma trimEnd_cons (c : N) (s : jsstring) :
  trimEnd (c :: s)
  = match trimEnd s with
    | [] => if isWhiteSpace c then [] else [c]
    | kept => c :: kept
    end.
Proof.
  unfold trimEnd. cbn [rev]. rewrite trimStart_app.
  destruct (forallb isWhiteSpace (rev s)) eqn:Hwhite.
  - rewrite (trimStart_white (rev s) Hwhite). cbn [rev trimStart].
    destruct (isWhiteSpace c); reflexivity.
  - rewrite rev_app_distr. cbn [rev app].
    destruct (rev (trimStart (rev s))) as [|k kept] eqn:Hkept; [|reflexivity].
    exfalso. apply (f_equal (@rev N)) in Hkept. rewrite rev_involutive in Hkept.
    cbn in Hkept.
    assert (Hall : forall t, trimStart t = [] -> forallb isWhiteSpace t = true).
    { induction t as [|d t IHt]; cbn [trimStart forallb]; [reflexivity|].
      destruct (isWhiteSpace d); cbn [andb]; [exact IHt | discriminate]. }
    rewrite (Hall _ Hkept) in Hwhite. discriminate.
Qed.

Lemma trimEnd_nil : trimEnd [] = [].
Proof. reflexivity. Qed.

(** A string that does not start with white space keeps its first unit. *)
Lemma trim_head (c : N) (s : jsstring) :
  isWhiteSpace c = false ->
  exists kept, trim (c :: s) = c :: kept.
Proof.
  intros Hc. unfold trim. cbn [trimStart]. rewrite Hc, trimEnd_cons, Hc.
  destruct (trimEnd s) as [|k kept]; eexists; reflexivity.
Qed.

Lemma trimStart_head (s : jsstring) :
  trimStart s = []
  \/ exists c s', trimStart s = c :: s' /\ isWhiteSpace c = false.
Proof.
  induction s as [|c s IH]; cbn [trimStart]; [now left|].
  destruct (isWhiteSpace c) eqn:Hc; [exact IH|].
  right. now exists c, s.
Qed.

Lemma trimEnd_last (s : jsstring) (c : N) (kept : jsstring) :
  trimEnd s = kept ++ [c] -> isWhiteSpace c = false.
Proof.
  unfold trimEnd. intros Heq.
  apply (f_equal (@rev N)) in Heq. rewrite rev_involutive, rev_app_distr in Heq.
  cbn in Heq.
  destruct (trimStart_head (rev s)) as [Hnil|(d & t & Hd & Hwhite)];
    congruence.
Qed.

Lemma trimEnd_fixed (s : jsstring) :
  (forall c s', s = s' ++ [c] -> isWhiteSpace c = false) ->
  trimEnd s = s.
Proof.
  intros Hlast. unfold trimEnd.
  destruct (rev s) as [|c t] eqn:Hrev.
  - apply (f_equal (@rev N)) in Hrev. rewrite rev_involutive in Hrev.
    now subst.
  - apply (f_equal (@rev N)) in Hrev. rewrite rev_involutive in Hrev.
    cbn [rev] in Hrev. cbn [trimStart].
    rewrite (Hlast c (rev t) Hrev). cbn [rev]. now symmetry.
Qed.

Lemma trimStart_fixed (s : jsstring) :
  (forall c s', s = c :: s' -> isWhiteSpace c = false) ->
  trimStart s = s.
Proof.
  intros Hhead. destruct s as [|c s]; [reflexivity|].
  cbn [trimStart]. now rewrite (Hhead c s eq_refl).
Qed.

(** The result of [trim] neither starts nor ends with white space. *)
Lemma trim_trimmed (s : jsstring) : OCRText.trimmed (trim s).
Proof.
  unfold OCRText.trimmed, trim. split.
  - intros c s' Heq.
    destruct (trimStart_head s) as [Hnil|(d & t & Hd & Hwhite)].
    + rewrite Hnil in Heq. discriminate.
    + rewrite Hd, trimEnd_cons, Hwhite in Heq.
      destruct (trimEnd t); injection Heq as <- _; exact Hwhite.
  - intros c s' Heq. eapply trimEnd_last. exact Heq.
Qed.

Lemma trim_fixed (s : jsstring) : OCRText.trimmed s -> trim s = s.
Proof.
  intros [Hhead Hlast]. unfold trim.
  rewrite (trimStart_fixed s Hhead). now apply trimEnd_fixed.
Qed.

Lemma trim_idempotent (s : jsstring) : trim (trim s) = trim s.
Proof. apply trim_fixed, trim_trimmed. Qed.

(** [trim] only removes units. *)
Lemma trimStart_Forall (P : N -> Prop) (s : jsstring) :
  Forall P s -> Forall P (trimStart s).
Proof.
  induction 1 as [|c s Hc Hs IH]; cbn [trimStart]; [constructor|].
  destruct (isWhiteSpace c); [exact IH | now constructor].
Qed.

Lemma trim_Forall (P : N -> Prop) (s : jsstring) :
  Forall P s -> Forall P (trim s).
Proof.
  intros Hs. unfold trim, trimEnd.
  apply Forall_rev, trimStart_Forall, Forall_rev, trimStart_Forall, Hs.
Qed.

Lemma split_single (sep : N) (s : jsstring) :
  Forall (fun c => c <> sep) s -> split sep s = [s].
Proof.
  induction 1 as [|c s Hc Hs IH]; cbn [split]; [reflexivity|].
  destruct (N.eqb_spec c sep) as [Heq|_]; [contradiction|].
  now rewrite IH.
Qed.

Lemma collapseSpaces_spaced (inRun : bool) (s : jsstring) :
  OCRText.spaced inRun (collapseSpaces inRun s) = true.
Proof.
  revert inRun. induction s as [|c s IH]; intros inRun;
    cbn [collapseSpaces]; [reflexivity|].
  destruct (isWhiteSpace c) eqn:Hc.
  - destruct inRun; [apply IH|].
    cbn [OCRText.spaced]. change (isWhiteSpace 32) with true.
    cbn. apply IH.
  - cbn [OCRText.spaced]. rewrite Hc. apply IH.
Qed.

Lemma collapseSpaces_fixed (inRun : bool) (s : jsstring) :
  OCRText.spaced inRun s = true -> collapseSpaces inRun s = s.
Proof.
  revert inRun. induction s as [|c s IH]; intros inRun;
    cbn [collapseSpaces OCRText.spaced]; [reflexivity|].
  destruct (isWhiteSpace c) eqn:Hc.
  - destruct inRun; cbn [negb andb]; [discriminate|].
    destruct (N.eqb_spec c 32) as [->|_]; cbn [andb]; [|discriminate].
    intros Hs. now rewrite IH.
  - intros Hs. now rewrite IH.
Qed.

(** [collapseSpaces] keeps the units that are not white space, in
    order. *)
Lemma collapseSpaces_words (inRun : bool) (s : jsstring) :
  filter (fun c => negb (isWhiteSpace c)) (collapseSpaces inRun s)
  = filter (fun c => negb (isWhiteSpace c)) s.
Proof.
  revert inRun. induction s as [|c s IH]; intros inRun;
    cbn [collapseSpaces filter]; [reflexivity|].
  destruct (isWhiteSpace c) eqn:Hc; cbn [negb].
  - destruct inRun; [apply IH|].
    cbn [filter]. change (isWhiteSpace 32) with true. cbn [negb]. apply IH.
  - cbn [filter]. rewrite Hc. cbn [negb]. now rewrite IH.
Qed.

Lemma collapseSpaces_head (c : N) (s : jsstring) :
  isWhiteSpace c = false ->
  collapseSpaces false (c :: s) = c :: collapseSpaces false s.
Proof. intros Hc. cbn [collapseSpaces]. now rewrite Hc. Qed.

Lemma collapseSpaces_last (inRun : bool) (s : jsstring) (c : N) :
  isWhiteSpace c = false ->
  collapseSpaces inRun (s ++ [c]) = collapseSpaces inRun s ++ [c].
Proof.
  intros Hc. revert inRun. induction s as [|d s IH]; intros inRun;
    cbn [app collapseSpaces].
  - now rewrite Hc.
  - destruct (isWhiteSpace d); [destruct inRun|]; cbn [app]; now rewrite IH.
Qed.

Lemma collapseSpaces_nil (inRun : bool) (s : jsstring) :
  collapseSpaces inRun s = [] -> inRun = true \/ s = [].
Proof.
  destruct s as [|c s]; [now right|]. cbn [collapseSpaces].
  destruct (isWhiteSpace c); [destruct inRun|]; try discriminate.
  intros _. now left.
Qed.

(** Collapsing keeps a string trimmed. *)
Lemma collapseSpaces_trimmed (s : jsstring) :
  OCRText.trimmed s -> OCRText.trimmed (collapseSpaces false s).
Proof.
  intros [Hhead Hlast]. split.
  - intros c s' Heq. destruct s as [|d s]; [discriminate|].
    pose proof (Hhead d s eq_refl) as Hd.
    rewrite (collapseSpaces_head d s Hd) in Heq. now injection Heq as <- _.
  - intros c s' Heq.
    destruct (exists_last (l := s)) as (t & d & ->).
    { intros ->. destruct s'; discriminate. }
    pose proof (Hlast d t eq_refl) as Hd.
    rewrite (collapseSpaces_last false t d Hd) in Heq.
    apply app_inj_tail in Heq as [_ <-]. exact Hd.
Qed.

End TrimFacts.

Section CleanFacts.
Import JSString Tesseract TrimFacts.
#[local] Open Scope N_scope.

Lemma wordUnit_not_space (c : N) :
  isWordUnit c = true -> isWhiteSpace c = false.
Proof.
  unfold isWordUnit, isWhiteSpace.
  rewrite !orb_true_iff, !andb_true_iff, !N.leb_le.
  intros Hword.
  rewrite !orb_false_iff, !andb_false_iff, !N.eqb_neq, !N.leb_gt. lia.
Qed.

Lemma spaced_units (afterSpace : bool) (s : jsstring) :
  OCRText.spaced afterSpace s = true ->
  forall c, In c s -> isWhiteSpace c = true -> c = 32.
Proof.
  revert afterSpace. induction s as [|d s IH]; intros afterSpace Hs c [];
    cbn [OCRText.spaced] in Hs.
  - subst d. intros Hc. rewrite Hc in Hs.
    apply andb_prop in Hs as [Hs _]. apply andb_prop in Hs as [_ Hs].
    now apply N.eqb_eq.
  - destruct (isWhiteSpace d).
    + apply andb_prop in Hs as [_ Hs]. now apply (IH true).
    + now apply (IH false).
Qed.

Lemma spaced_adjacent (afterSpace : bool) (pre : jsstring) (c1 c2 : N)
    (post : jsstring) :
  OCRText.spaced afterSpace (pre ++ c1 :: c2 :: post) = true ->
  isWhiteSpace c1 = true -> isWhiteSpace c2 = false.
Proof.
  revert afterSpace. induction pre as [|d pre IH]; intros afterSpace Hs Hc1.
  - cbn [app OCRText.spaced] in Hs. rewrite Hc1 in Hs.
    apply andb_prop in Hs as [_ Hs].
    destruct (isWhiteSpace c2); [discriminate | reflexivity].
  - cbn [app OCRText.spaced] in Hs.
    destruct (isWhiteSpace d).
    + apply andb_prop in Hs as [_ Hs]. now apply (IH true).
    + now apply (IH false).
Qed.

Lemma collapseSpaces_wordUnit (inRun : bool) (s : jsstring) :
  existsb isWordUnit (collapseSpaces inRun s) = existsb isWordUnit s.
Proof.
  revert inRun. induction s as [|c s IH]; intros inRun;
    cbn [collapseSpaces existsb]; [reflexivity|].
  destruct (isWhiteSpace c) eqn:Hc.
  - assert (Hno : isWordUnit c = false).
    { destruct (isWordUnit c) eqn:Hw; [|reflexivity].
      apply wordUnit_not_space in Hw. congruence. }
    rewrite Hno. cbn [orb].
    destruct inRun; [apply IH|]. cbn [existsb].
    change (isWordUnit 32) with false. cbn [orb]. apply IH.
  - cbn [existsb]. now rewrite IH.
Qed.

Lemma collapseSpaces_no_control (inRun : bool) (s : jsstring) :
  Forall (fun c => isControl c = false) s ->
  Forall (fun c => isControl c = false) (collapseSpaces inRun s).
Proof.
  intros Hs. revert inRun.
  induction Hs as [|c s Hc Hs IH]; intros inRun; cbn [collapseSpaces];
    [constructor|].
  destruct (isWhiteSpace c); [destruct inRun|]; try apply IH;
    constructor; try apply IH; [reflexivity | exact Hc].
Qed.

Lemma filter_no_control (text : jsstring) :
  Forall (fun c => isControl c = false)
         (filter (fun c => negb (isControl c)) text).
Proof.
  apply Forall_forall. intros c Hc. apply filter_In in Hc as [_ Hc].
  now apply negb_true_iff.
Qed.

Lemma filter_fixed {A} (f : A -> bool) (l : list A) :
  Forall (fun a => f a = true) l -> filter f l = l.
Proof.
  induction 1 as [|a l Ha Hl IH]; cbn [filter]; [reflexivity|].
  now rewrite Ha, IH.
Qed.

(** What [cleanOCRResult] computes, with the line filter resolved. *)
Lemma cleanOCRResult_whole (text : jsstring) :
  let kept := trim (filter (fun c => negb (isControl c)) text) in
  split 10 kept = [kept]
  /\ cleanOCRResult text
     = if existsb isWordUnit kept then collapseSpaces false kept else [].
Proof.
  cbv zeta.
  set (kept := trim (filter (fun c => negb (isControl c)) text)).
  assert (Hclean : Forall (fun c => isControl c = false) kept)
    by apply trim_Forall, filter_no_control.
  assert (Hsingle : split 10 kept = [kept]).
  { apply TrimFacts.split_single.
    eapply Forall_impl; [|exact Hclean].
    intros c Hc ->. discriminate. }
  split; [exact Hsingle|].
  destruct text as [|u text]; [reflexivity|].
  unfold cleanOCRResult. fold kept. rewrite Hsingle.
  cbn [filter]. unfold keepLine.
  assert (Hkept : trim kept = kept) by apply TrimFacts.trim_idempotent.
  rewrite Hkept.
  destruct kept as [|c kept'] eqn:Hk; [reflexivity|].
  destruct (existsb isWordUnit (c :: kept')); [|reflexivity].
  cbn [join]. now rewrite Hkept.
Qed.

(** The per-line noise filter of [cleanOCRResult] never sees more than one
    line: line feeds are control characters and are removed before the
    text is split, so the text is kept or dropped as a whole.  The result
    is the text without its control characters, trimmed, with every run of
    white space collapsed to one space, when that text has a Devanagari,
    Bengali or ASCII alphanumeric unit; it is empty otherwise. *)
Theorem cleanOCRResult_single_line (text : jsstring) :
  let kept := trim (filter (fun c => negb (isControl c)) text) in
  split 10 kept = [kept]
  /\ cleanOCRResult text
     = if existsb isWordUnit kept then collapseSpaces false kept else [].
Proof. exact (cleanOCRResult_whole text). Qed.

(** The shape of a cleaned text: it has no control character; its only
    white space is U+0020, never twice in a row and neither first nor
    last; unless empty it has a Devanagari, Bengali or ASCII alphanumeric
    unit, and then its units other than white space are those of the
    input other than white space and control characters, in order. *)
Theorem cleanOCRResult_shape (text : jsstring) :
  let out := cleanOCRResult text in
  Forall (fun c => isControl c = false) out
  /\ (forall c, In c out -> isWhiteSpace c = true -> c = 32)
  /\ (forall pre c1 c2 post, out = pre ++ c1 :: c2 :: post ->
        isWhiteSpace c1 = true -> isWhiteSpace c2 = false)
  /\ OCRText.trimmed out
  /\ (out = []
      \/ (existsb isWordUnit out = true
          /\ filter (fun c => negb (isWhiteSpace c)) out
             = filter (fun c => negb (isWhiteSpace c))
                      (filter (fun c => negb (isControl c)) text))).
Proof.
  cbv zeta. destruct (cleanOCRResult_whole text) as [_ ->].
  set (kept := trim (filter (fun c => negb (isControl c)) text)).
  destruct (existsb isWordUnit kept) eqn:Hword.
  - pose proof (TrimFacts.collapseSpaces_spaced false kept) as Hspaced.
    split; [apply collapseSpaces_no_control, trim_Forall, filter_no_control|].
    split; [exact (spaced_units false _ Hspaced)|].
    split; [intros pre c1 c2 post Heq; rewrite Heq in Hspaced;
            exact (spaced_adjacent false pre c1 c2 post Hspaced)|].
    split; [apply TrimFacts.collapseSpaces_trimmed, TrimFacts.trim_trimmed|].
    right. split; [now rewrite collapseSpaces_wordUnit|].
    rewrite TrimFacts.collapseSpaces_words. subst kept.
    unfold trim, trimEnd.
    set (s := filter (fun c => negb (isControl c)) text).
    assert (Hstart : forall t, filter (fun c => negb (isWhiteSpace c)) (trimStart t)
                               = filter (fun c => negb (isWhiteSpace c)) t).
    { induction t as [|d t IHt]; cbn [trimStart filter]; [reflexivity|].
      destruct (isWhiteSpace d) eqn:Hd; cbn [negb]; [exact IHt|].
      cbn [filter]. now rewrite Hd. }
    assert (Hrev : forall t : jsstring,
               filter (fun c => negb (isWhiteSpace c)) (rev t)
               = rev (filter (fun c => negb (isWhiteSpace c)) t)).
    { induction t as [|d t IHt]; cbn [rev filter]; [reflexivity|].
      rewrite filter_app, IHt. cbn [filter].
      destruct (negb (isWhiteSpace d)); cbn [rev]; [reflexivity|].
      now rewrite app_nil_r. }
    now rewrite Hrev, Hstart, Hrev, rev_involutive, Hstart.
  - split; [constructor|]. split; [intros c []|].
    split; [intros [|? pre] c1 c2 post Heq; discriminate|].
    split; [split; intros c s' Heq; [discriminate | destruct s'; discriminate]|].
    now left.
Qed.

(** Cleaning a cleaned text changes nothing. *)
Theorem cleanOCRResult_idempotent (text : jsstring) :
  cleanOCRResult (cleanOCRResult text) = cleanOCRResult text.
Proof.
  destruct (cleanOCRResult_whole (cleanOCRResult text)) as [_ ->].
  destruct (cleanOCRResult_whole text) as [_ Hout].
  set (kept := trim (filter (fun c => negb (isControl c)) text)) in *.
  destruct (existsb isWordUnit kept) eqn:Hword; rewrite Hout; [|reflexivity].
  set (out := collapseSpaces false kept).
  assert (Hclean : filter (fun c => negb (isControl c)) out = out).
  { apply filter_fixed.
    eapply Forall_impl;
      [|apply collapseSpaces_no_control, trim_Forall, filter_no_control].
    intros c Hc. cbn beta in Hc. now rewrite Hc. }
  assert (Htrim : trim out = out)
    by apply TrimFacts.trim_fixed, TrimFacts.collapseSpaces_trimmed,
             TrimFacts.trim_trimmed.
  rewrite Hclean, Htrim.
  unfold out at 1. rewrite collapseSpaces_wordUnit, Hword.
  apply TrimFacts.collapseSpaces_fixed, TrimFacts.collapseSpaces_spaced.
Qed.

End CleanFacts.

(** ** The Tesseract front end: how [recognizeFromCanvas] settles *)

Section SettleFacts.
Import Tesseract.
#[local] Open Scope Z_scope.
Variable initTesseract : Completion unit.
Variable ocr : string -> Completion OCRData.
Variable setParameters : string -> Completion unit.
Variable duration : Z.

Lemma keepBetter_selected (best c : jsstring * Z) :
  OCRText.selected best -> OCRText.selected (keepBetter best (fst c) (snd c)).
Proof.
  intros [Hpos Htext].
  destruct (keepBetter_step best c) as [(Hne & Hlt & ->)|(_ & ->)].
  - split; [lia | intros _; lia].
  - now split.
Qed.

Lemma resultOf_consistent (best : jsstring * Z) :
  OCRText.selected best -> OCRText.consistent duration (resultOf duration best).
Proof.
  intros [Hpos Htext]. unfold resultOf. cbn [OCRText.consistent].
  split; [|split; [exact Hpos|split; [|reflexivity]]].
  - destruct (cleanOCRResult (fst best)); cbn; split; congruence.
  - intros Hclean. apply Htext. intros Hnil. apply Hclean.
    now rewrite Hnil.
Qed.

(** The outer [try] statement, by cases on the first decode. *)
Lemma guarded_body (mode : string) :
  let guarded :=
    tryCatch (recognizeBody ocr setParameters duration mode)
             (fun message => ret (RecognitionError message)) in
  (exists message,
      ocr mode = Throw message
      /\ guarded = ([WorkerRecognize mode], Return (RecognitionError message)))
  \/ (exists best trace,
        OCRText.selected best
        /\ guarded = (WorkerRecognize mode :: trace,
                      Return (resultOf duration best))
        /\ (length trace <= 3)%nat
        /\ (length (filter OCRText.isDecode trace) <= 1)%nat
        /\ exists data, ocr mode = Return data).
Proof.
  cbv zeta. destruct (ocr mode) as [r6|message] eqn:Hocr.
  - right.
    assert (Hfirst : OCRText.selected (keepBetter ([], 0) (fst (candidate r6))
                                 (snd (candidate r6))))
      by (apply keepBetter_selected; split; [cbn; lia | intros []; reflexivity]).
    destruct (recognizeBody_cases ocr setParameters duration mode r6 Hocr)
      as [(_ & ->)|[(_ & _ & ->)|[(_ & _ & _ & ->)|(_ & _ & r7 & _ & ->)]]];
      cbn [tryCatch]; eexists _, _;
      (split; [|split; [reflexivity|split; [cbn; lia|split; [cbn; lia|]]]]);
      try exact Hfirst; try (now exists r6).
    apply keepBetter_selected, Hfirst.
  - left. exists message. split; [reflexivity|].
    unfold recognizeBody. rewrite Hocr. reflexivity.
Qed.

(** With the preprocessing of the canvas taken to complete,
    [recognizeFromCanvas] rejects only when the worker is not initialised
    and [initTesseract] fails, with that error and before any call to the
    worker.  In every other case it resolves: to the error object, with
    the message of the failure, exactly when the first decode throws, else
    to an object whose [success] tells whether a text is returned, whose
    confidence is not negative, and which carries a text only with a
    positive confidence.  At most two decodes are run, and at most five
    calls made. *)
Theorem recognizeFromCanvas_settles (isInitialized : bool) (mode : string) :
  let run :=
    recognizeFromCanvas initTesseract ocr setParameters duration
                        isInitialized mode in
  (forall message,
     completion run = Throw message
     <-> isInitialized = false /\ initTesseract = Throw message)
  /\ (forall message, completion run = Throw message ->
        calls run = [InitTesseract])
  /\ (forall result, completion run = Return result ->
        OCRText.consistent duration result)
  /\ (forall message,
        completion run = Return (RecognitionError message)
        <-> (isInitialized = true \/ initTesseract = Return tt)
            /\ ocr (if isInitialized then mode else "6"%string) = Throw message)
  /\ (forall data,
        (isInitialized = true \/ initTesseract = Return tt) ->
        ocr (if isInitialized then mode else "6"%string) = Return data ->
        exists best,
          OCRText.selected best
          /\ completion run = Return (resultOf duration best))
  /\ (length (filter OCRText.isDecode (calls run)) <= 2)%nat
  /\ (length (calls run) <= 5)%nat.
Proof.
  cbv zeta. unfold recognizeFromCanvas.
  assert (Hbody : forall m prefix,
            (length prefix <= 1)%nat ->
            filter OCRText.isDecode prefix = [] ->
            let run :=
              (prefix ++ fst (tryCatch (recognizeBody ocr setParameters duration m)
                                       (fun message => ret (RecognitionError message))),
               snd (tryCatch (recognizeBody ocr setParameters duration m)
                             (fun message => ret (RecognitionError message)))) in
            (forall message, completion run <> Throw message)
            /\ (forall result, completion run = Return result ->
                  OCRText.consistent duration result)
            /\ (forall message,
                  completion run = Return (RecognitionError message)
                  <-> ocr m = Throw message)
            /\ (forall data, ocr m = Return data ->
                  exists best,
                    OCRText.selected best
                    /\ completion run = Return (resultOf duration best))
            /\ (length (filter OCRText.isDecode (calls run)) <= 2)%nat
            /\ (length (calls run) <= 5)%nat).
  { intros m prefix Hlen Hnone. cbv zeta.
    unfold completion, calls. cbn [fst snd].
    rewrite filter_app, Hnone. cbn [app]. rewrite length_app.
    destruct (guarded_body m)
      as [(message & Hocr & ->)
         |(best & trace & Hbest & -> & Htrace & Hdecodes & data0 & Hocr)];
      cbn [fst snd].
    - split; [intros e; discriminate|].
      split; [intros result [= <-]; exact I|].
      split; [intros e; split; [intros [= <-]; exact Hocr | congruence]|].
      split; [intros data Hdata; congruence|].
      split; cbn; lia.
    - split; [intros e; discriminate|].
      split; [intros result [= <-]; now apply resultOf_consistent|].
      split; [intros e; split; [discriminate | congruence]|].
      split; [intros data _; now exists best|].
      split; cbn [filter OCRText.isDecode length]; lia. }
  destruct isInitialized.
  - cbn [ret bind].
    specialize (Hbody mode [] ltac:(cbn; lia) eq_refl). cbv zeta in Hbody.
    cbn [app] in Hbody.
    destruct (tryCatch (recognizeBody ocr setParameters duration mode) _)
      as [trace r].
    destruct Hbody as (Hno & Hok & Herr & Hdata & Hdec & Hlen).
    split; [intros message; split;
            [intros Hthrow; now apply Hno in Hthrow
            | intros [Hinit _]; discriminate]|].
    split; [intros message Hthrow; now apply Hno in Hthrow|].
    split; [exact Hok|].
    split; [intros message; rewrite Herr; intuition|].
    split; [intros data _; apply Hdata|]. split; assumption.
  - destruct initTesseract as [[]|e] eqn:Hinit; cbn [call ret bind app].
    + specialize (Hbody "6"%string [InitTesseract] ltac:(cbn; lia) eq_refl).
      cbv zeta in Hbody.
      destruct (tryCatch (recognizeBody ocr setParameters duration "6") _)
        as [trace r].
      destruct Hbody as (Hno & Hok & Herr & Hdata & Hdec & Hlen).
      split; [intros message; split;
              [intros Hthrow; now apply Hno in Hthrow
              | intros [_ Hthrow]; discriminate]|].
      split; [intros message Hthrow; now apply Hno in Hthrow|].
      split; [exact Hok|].
      split; [intros message; rewrite Herr; intuition|].
      split; [intros data _; apply Hdata|]. split; assumption.
    + split; [intros message; split;
              [intros [= <-]; now split
              | intros [_ [= <-]]; reflexivity]|].
      split; [reflexivity|].
      split; [intros result; discriminate|].
      split; [intros message; split;
              [discriminate | intros [[Hi|Hi] _]; discriminate]|].
      split; [intros data [Hi|Hi]; discriminate|].
      split; cbn; lia.
Qed.

End SettleFacts.

(** ** The Tesseract front end: the bounding box of the strokes *)

Module BoundsFacts.
Import TesseractImage.
#[local] Open Scope Z_scope.

Lemma In_upto (n i : Z) : In i (upto n) <-> 0 <= i < n.
Proof.
  unfold upto. rewrite in_map_iff. split.
  - intros (k & <- & Hk). apply in_seq in Hk. lia.
  - intros Hi. exists (Z.to_nat i). split; [lia|]. apply in_seq. lia.
Qed.

Lemma In_scanOrder (w h x y : Z) :
  In (x, y) (scanOrder w h) <-> 0 <= x < w /\ 0 <= y < h.
Proof.
  unfold scanOrder. rewrite in_flat_map. split.
  - intros (y' & Hy & Hin). apply in_map_iff in Hin as (x' & [= <- <-] & Hx).
    apply In_upto in Hy, Hx. now split.
  - intros [Hx Hy]. exists y. split; [now apply In_upto|].
    apply in_map_iff. exists x. split; [reflexivity | now apply In_upto].
Qed.

(** The two loops as one pass over the pixels. *)
Lemma scan_flat (data : list N) (w h : Z) (vars : Z * Z * Z * Z * bool) :
  fold_left (scanRow data w) (upto h) vars
  = fold_left (fun vars p => visitPixel data w (snd p) vars (fst p))
              (scanOrder w h) vars.
Proof.
  unfold scanOrder. revert vars.
  induction (upto h) as [|y ys IH]; intros vars; cbn [fold_left flat_map];
    [reflexivity|].
  rewrite fold_left_app, <- IH. f_equal.
  unfold scanRow. generalize (upto w). intros xs. revert vars.
  induction xs as [|x xs IHx]; intros vars; cbn [fold_left map];
    [reflexivity|].
  apply IHx.
Qed.

Lemma scanned_step (data : list N) (w h : Z) (seen : list (Z * Z))
    (vars : Z * Z * Z * Z * bool) (x y : Z) :
  0 <= x < w -> 0 <= y < h ->
  scanned data w h seen vars ->
  scanned data w h (seen ++ [(x, y)]) (visitPixel data w y vars x).
Proof.
  intros Hx Hy. destruct vars as [[[[a b] c] d] f].
  unfold scanned, visitPixel.
  change (above 20 (byteAt data ((y * w + x) * 4 + 3))) with (drawn data w x y).
  intros [Hnone Hsome].
  destruct (drawn data w x y) eqn:Hdrawn.
  - split; [discriminate|]. intros _.
    assert (Hnew : In (x, y) (seen ++ [(x, y)]))
      by (apply in_or_app; right; now left).
    destruct f.
    + destruct (Hsome eq_refl)
        as (Hin & (p1 & Hp1 & Hd1 & H1) & (p2 & Hp2 & Hd2 & H2)
            & (p3 & Hp3 & Hd3 & H3) & (p4 & Hp4 & Hd4 & H4)).
      split.
      { intros p Hp Hd. apply in_app_or in Hp as [Hp|[<-|[]]].
        - specialize (Hin p Hp Hd).
          destruct (Z.ltb_spec x a), (Z.ltb_spec y b), (Z.ltb_spec c x),
            (Z.ltb_spec d y); lia.
        - cbn [fst snd].
          destruct (Z.ltb_spec x a), (Z.ltb_spec y b), (Z.ltb_spec c x),
            (Z.ltb_spec d y); lia. }
      split; [destruct (Z.ltb_spec x a);
              [exists (x, y) | exists p1]; (split; [|split]);
              auto using in_or_app|].
      split; [destruct (Z.ltb_spec c x);
              [exists (x, y) | exists p2]; (split; [|split]);
              auto using in_or_app|].
      split; [destruct (Z.ltb_spec y b);
              [exists (x, y) | exists p3]; (split; [|split]);
              auto using in_or_app|].
      destruct (Z.ltb_spec d y);
        [exists (x, y) | exists p4]; (split; [|split]);
        auto using in_or_app.
    + destruct (Hnone eq_refl) as [[= -> -> -> ->] Hblank].
      assert (Hxw : (x <? w) = true) by (apply Z.ltb_lt; lia).
      assert (Hyh : (y <? h) = true) by (apply Z.ltb_lt; lia).
      rewrite Hxw, Hyh.
      assert (Hcx : (if 0 <? x then x else 0) = x)
        by (destruct (Z.ltb_spec 0 x); lia).
      assert (Hcy : (if 0 <? y then y else 0) = y)
        by (destruct (Z.ltb_spec 0 y); lia).
      rewrite Hcx, Hcy.
      split.
      { intros p Hp Hd. apply in_app_or in Hp as [Hp|[<-|[]]].
        - rewrite (Hblank p Hp) in Hd. discriminate.
        - cbn [fst snd]. lia. }
      repeat split; exists (x, y); (split; [|split]); auto.
  - split.
    + intros ->. destruct (Hnone eq_refl) as [Heq Hblank].
      split; [exact Heq|].
      intros p Hp. apply in_app_or in Hp as [Hp|[<-|[]]];
        [now apply Hblank | exact Hdrawn].
    + intros ->.
      destruct (Hsome eq_refl)
        as (Hin & (p1 & Hp1 & Hd1 & H1) & (p2 & Hp2 & Hd2 & H2)
            & (p3 & Hp3 & Hd3 & H3) & (p4 & Hp4 & Hd4 & H4)).
      split.
      { intros p Hp Hd. apply in_app_or in Hp as [Hp|[<-|[]]];
          [now apply Hin|].
        cbn [fst snd] in Hd. congruence. }
      split; [exists p1; auto using in_or_app|].
      split; [exists p2; auto using in_or_app|].
      split; [exists p3; auto using in_or_app|].
      exists p4; auto using in_or_app.
Qed.

Lemma scanned_fold (data : list N) (w h : Z) (todo seen : list (Z * Z))
    (vars : Z * Z * Z * Z * bool) :
  (forall p, In p todo -> 0 <= fst p < w /\ 0 <= snd p < h) ->
  scanned data w h seen vars ->
  scanned data w h (seen ++ todo)
          (fold_left (fun vars p => visitPixel data w (snd p) vars (fst p))
                     todo vars).
Proof.
  revert seen vars. induction todo as [|[x y] todo IH]; intros seen vars Hin Hs;
    cbn [fold_left].
  - now rewrite app_nil_r.
  - replace (seen ++ (x, y) :: todo) with ((seen ++ [(x, y)]) ++ todo)
      by now rewrite <- app_assoc.
    apply IH; [intros p Hp; apply Hin; now right|].
    cbn [fst snd].
    destruct (Hin (x, y) (or_introl eq_refl)) as [Hx Hy].
    now apply scanned_step.
Qed.

(** What [findStrokeBounds] returns. *)
Lemma findStrokeBounds_facts (data : list N) (w h : Z) :
  match findStrokeBounds data w h with
  | None => forall x y, ~ inked data w h x y
  | Some b =>
      (forall x y, inked data w h x y ->
         minX b <= x <= maxX b /\ minY b <= y <= maxY b)
      /\ (exists y, inked data w h (minX b) y)
      /\ (exists y, inked data w h (maxX b) y)
      /\ (exists x, inked data w h x (minY b))
      /\ (exists x, inked data w h x (maxY b))
      /\ width b = maxX b - minX b + 1
      /\ height b = maxY b - minY b + 1
  end.
Proof.
  unfold findStrokeBounds. rewrite scan_flat.
  pose proof (scanned_fold data w h (scanOrder w h) [] (w, h, 0, 0, false))
    as Hscan.
  cbn [app] in Hscan.
  assert (Hrange : forall p, In p (scanOrder w h) ->
                             0 <= fst p < w /\ 0 <= snd p < h).
  { intros [x y] Hp. now apply In_scanOrder in Hp. }
  specialize (Hscan Hrange).
  assert (Hinit : scanned data w h [] (w, h, 0, 0, false)).
  { split; [intros _; split; [reflexivity | intros p []] | discriminate]. }
  specialize (Hscan Hinit).
  destruct (fold_left _ (scanOrder w h) _) as [[[[a b] c] d] f].
  destruct Hscan as [Hnone Hsome].
  destruct f.
  - destruct (Hsome eq_refl)
      as (Hin & (p1 & Hp1 & Hd1 & H1) & (p2 & Hp2 & Hd2 & H2)
          & (p3 & Hp3 & Hd3 & H3) & (p4 & Hp4 & Hd4 & H4)).
    cbn [minX minY maxX maxY width height].
    split.
    { intros x y (Hx & Hy & Hd).
      apply (Hin (x, y)); [now apply In_scanOrder | exact Hd]. }
    destruct p1 as [x1 y1], p2 as [x2 y2], p3 as [x3 y3], p4 as [x4 y4].
    cbn [fst snd] in *. subst.
    apply In_scanOrder in Hp1, Hp2, Hp3, Hp4.
    split; [exists y1; unfold inked; tauto|].
    split; [exists y2; unfold inked; tauto|].
    split; [exists x3; unfold inked; tauto|].
    split; [exists x4; unfold inked; tauto|].
    split; reflexivity.
  - destruct (Hnone eq_refl) as [_ Hblank].
    intros x y (Hx & Hy & Hd).
    assert (Hseen : In (x, y) (scanOrder w h)) by now apply In_scanOrder.
    apply Hblank in Hseen. cbn [fst snd] in Hseen. congruence.
Qed.

(** [findStrokeBounds] returns [null] exactly when no pixel of the image
    has an alpha byte above 20.  Otherwise the box it returns encloses
    every such pixel and is tight: each of its four sides passes through
    one; its [width] and [height] count the columns and rows it spans, and
    it lies within the image. *)
Theorem findStrokeBounds_spec (data : list N) (w h : Z) :
  match findStrokeBounds data w h with
  | None => forall x y, ~ inked data w h x y
  | Some b =>
      (forall x y, inked data w h x y ->
         minX b <= x <= maxX b /\ minY b <= y <= maxY b)
      /\ (exists y, inked data w h (minX b) y)
      /\ (exists y, inked data w h (maxX b) y)
      /\ (exists x, inked data w h x (minY b))
      /\ (exists x, inked data w h x (maxY b))
      /\ width b = maxX b - minX b + 1
      /\ height b = maxY b - minY b + 1
      /\ 0 <= minX b <= maxX b /\ maxX b < w
      /\ 0 <= minY b <= maxY b /\ maxY b < h
      /\ 1 <= width b <= w /\ 1 <= height b <= h
  end.
Proof.
  pose proof (findStrokeBounds_facts data w h) as Hfacts.
  destruct (findStrokeBounds data w h) as [b|]; [|exact Hfacts].
  destruct Hfacts
    as (Hin & (y1 & Hx1 & Hy1 & Hd1) & (y2 & Hx2 & Hy2 & Hd2)
        & (x3 & Hx3 & Hy3 & Hd3) & (x4 & Hx4 & Hy4 & Hd4) & Hw & Hh).
  pose proof (Hin _ _ (conj Hx1 (conj Hy1 Hd1))) as Hb1.
  pose proof (Hin _ _ (conj Hx3 (conj Hy3 Hd3))) as Hb3.
  split; [exact Hin|].
  split; [exists y1; unfold inked; tauto|].
  split; [exists y2; unfold inked; tauto|].
  split; [exists x3; unfold inked; tauto|].
  split; [exists x4; unfold inked; tauto|].
  split; [exact Hw|]. split; [exact Hh|].
  rewrite Hw, Hh. lia.
Qed.

(** The region [preprocessCanvas] crops, for an image on which something is
    drawn: it lies within the image, it holds every pixel with an alpha byte
    above 20, with a margin of 40 pixels on each side unless the side of the
    image is nearer; the canvas returned is three times its size, and not
    empty. *)
Theorem preprocessCanvas_crop (data : list N) (w h : Z) (b : StrokeBounds) :
  findStrokeBounds data w h = Some b ->
  let crop := cropRegion w h b in
  (0 <= cropX crop /\ cropX crop + cropW crop <= w)
  /\ (0 <= cropY crop /\ cropY crop + cropH crop <= h)
  /\ (forall x y, inked data w h x y ->
        cropX crop <= x < cropX crop + cropW crop
        /\ cropY crop <= y < cropY crop + cropH crop)
  /\ cropX crop = Z.max 0 (minX b - 40)
  /\ cropY crop = Z.max 0 (minY b - 40)
  /\ cropX crop + cropW crop = Z.min w (maxX b + 41 + (cropX crop - (minX b - 40)))
  /\ cropY crop + cropH crop = Z.min h (maxY b + 41 + (cropY crop - (minY b - 40)))
  /\ preprocessedSize data w h = (3 * cropW crop, 3 * cropH crop)
  /\ 1 <= cropW crop /\ 1 <= cropH crop.
Proof.
  intros Hfound. cbv zeta.
  pose proof (findStrokeBounds_facts data w h) as Hfacts.
  unfold preprocessedSize. rewrite Hfound in Hfacts |- *.
  destruct Hfacts
    as (Hin & (y1 & Hx1 & Hy1 & Hd1) & (y2 & Hx2 & Hy2 & Hd2)
        & (x3 & Hx3 & Hy3 & Hd3) & (x4 & Hx4 & Hy4 & Hd4) & Hw & Hh).
  pose proof (Hin _ _ (conj Hx1 (conj Hy1 Hd1))) as Hb1.
  pose proof (Hin _ _ (conj Hx3 (conj Hy3 Hd3))) as Hb3.
  unfold cropRegion, PADDING, SCALE. cbn [cropX cropY cropW cropH].
  rewrite Hw, Hh.
  split; [lia|]. split; [lia|].
  split; [intros x y Hxy; pose proof (Hin x y Hxy); destruct Hxy as (? & ? & _);
          lia|].
  split; [reflexivity|]. split; [reflexivity|].
  split; [lia|]. split; [lia|].
  split; [f_equal; lia|]. lia.
Qed.

End BoundsFacts.

(** ** The Tesseract front end: binarisation and dilation *)

Module PixelFacts.
Import TesseractImage.

Lemma binarize_length (pixels : list N) :
  length (binarize pixels) = length pixels.
Proof.
  assert (Hgen : forall n pixels, length pixels <= n ->
                   length (binarize pixels) = length pixels).
  { clear pixels. induction n as [|n IH]; intros pixels Hlen.
    - destruct pixels; [reflexivity | cbn in Hlen; lia].
    - destruct pixels as [|r [|g [|b [|a rest]]]]; try reflexivity.
      + cbn [binarize]. destruct (r + g + b <? 600)%N; reflexivity.
      + cbn [binarize]. rewrite length_app, IH by (cbn [length] in Hlen; lia).
        destruct (r + g + b <? 600)%N; reflexivity. }
  now apply (Hgen (length pixels)).
Qed.

(** The bytes of the [n]-th pixel after binarisation. *)
Lemma binarize_pixel (pixels : list N) (n : nat) (r g b a : N) :
  pixels !! (4 * n) = Some r -> pixels !! (4 * n + 1) = Some g ->
  pixels !! (4 * n + 2) = Some b -> pixels !! (4 * n + 3) = Some a ->
  forall k, k < 4 ->
    binarize pixels !! (4 * n + k)
    = Some (if (r + g + b <? 600)%N then blackByte k else 255%N).
Proof.
  revert pixels. induction n as [|n IH]; intros pixels Hr Hg Hb Ha k Hk.
  - destruct pixels as [|r0 [|g0 [|b0 [|a0 rest]]]]; try discriminate.
    cbn in Hr, Hg, Hb, Ha. injection Hr as ->. injection Hg as ->.
    injection Hb as ->. cbn [binarize].
    destruct (r + g + b <? 600)%N;
      destruct k as [|[|[|[|k]]]]; try lia; reflexivity.
  - replace (4 * S n) with (S (S (S (S (4 * n + 0))))) in Hr by lia.
    replace (4 * S n + 1) with (S (S (S (S (4 * n + 1))))) in Hg by lia.
    replace (4 * S n + 2) with (S (S (S (S (4 * n + 2))))) in Hb by lia.
    replace (4 * S n + 3) with (S (S (S (S (4 * n + 3))))) in Ha by lia.
    destruct pixels as [|r0 [|g0 [|b0 [|a0 rest]]]];
      try (cbn in Ha; discriminate).
    cbn [lookup list_lookup] in Hr, Hg, Hb, Ha.
    rewrite Nat.add_0_r in Hr.
    cbn [binarize].
    replace (4 * S n + k) with (4 + (4 * n + k)) by lia.
    rewrite lookup_app_r
      by (destruct (r0 + g0 + b0 <? 600)%N; cbn [length]; lia).
    replace (4 + (4 * n + k)
             - length (if (r0 + g0 + b0 <? 600)%N
                       then [0; 0; 0; 255] else [255; 255; 255; 255])%N)
      with (4 * n + k)
      by (destruct (r0 + g0 + b0 <? 600)%N; cbn [length]; lia).
    now apply IH.
Qed.

Lemma binarize_again (pixels : list N) :
  binarize (binarize pixels) = binarize pixels.
Proof.
  assert (Hgen : forall n pixels, length pixels <= n ->
                   binarize (binarize pixels) = binarize pixels).
  { clear pixels. induction n as [|n IH]; intros pixels Hlen.
    - destruct pixels; [reflexivity | cbn in Hlen; lia].
    - destruct pixels as [|r [|g [|b [|a rest]]]]; try reflexivity.
      + cbn [binarize]. destruct (r + g + b <? 600)%N; reflexivity.
      + cbn [binarize].
        destruct (r + g + b <? 600)%N; cbn [app binarize];
          change (0 + 0 + 0 <? 600)%N with true;
          change (255 + 255 + 255 <? 600)%N with false;
          cbn [app]; rewrite IH by (cbn [length] in Hlen; lia); reflexivity. }
  now apply (Hgen (length pixels)).
Qed.

(** Binarisation keeps the length of the array and makes every pixel black
    (0, 0, 0, 255) when the sum of its red, green and blue bytes is below
    600 -- its brightness below 200 -- and white (255, 255, 255, 255)
    otherwise, whatever its alpha byte; binarising again changes
    nothing. *)
Theorem binarize_spec (pixels : list N) :
  length (binarize pixels) = length pixels
  /\ (forall n r g b a,
        pixels !! (4 * n) = Some r -> pixels !! (4 * n + 1) = Some g ->
        pixels !! (4 * n + 2) = Some b -> pixels !! (4 * n + 3) = Some a ->
        forall k, k < 4 ->
          binarize pixels !! (4 * n + k)
          = Some (if (r + g + b <? 600)%N then blackByte k else 255%N))
  /\ binarize (binarize pixels) = binarize pixels.
Proof.
  split; [apply binarize_length|].
  split; [apply binarize_pixel | apply binarize_again].
Qed.

Lemma blacken_length (dilated : list N) (idx : nat) :
  length (blacken dilated idx) = length dilated.
Proof. unfold blacken. now rewrite !length_insert. Qed.

Lemma blacken_inside (dilated : list N) (idx k : nat) :
  k < 4 -> idx + 3 < length dilated ->
  blacken dilated idx !! (idx + k) = Some (blackByte k).
Proof.
  intros Hk Hlen. unfold blacken.
  destruct k as [|[|[|[|k]]]]; try lia.
  - rewrite Nat.add_0_r.
    rewrite !list_lookup_insert_ne by lia.
    apply list_lookup_insert_eq. lia.
  - rewrite !list_lookup_insert_ne by lia.
    apply list_lookup_insert_eq. rewrite length_insert. lia.
  - rewrite !list_lookup_insert_ne by lia.
    apply list_lookup_insert_eq. rewrite !length_insert. lia.
  - apply list_lookup_insert_eq. rewrite !length_insert. lia.
Qed.

Lemma blacken_outside (dilated : list N) (idx j : nat) :
  j < idx \/ idx + 4 <= j ->
  blacken dilated idx !! j = dilated !! j.
Proof.
  intros Hj. unfold blacken. now rewrite !list_lookup_insert_ne by lia.
Qed.

Lemma In_interior (outW outH x y : nat) :
  In (x, y) (interior outW outH)
  <-> 1 <= x /\ x < outW - 1 /\ 1 <= y /\ y < outH - 1.
Proof.
  unfold interior. rewrite in_flat_map. split.
  - intros (y' & Hy & Hin). apply in_map_iff in Hin as (x' & [= <- <-] & Hx).
    apply in_seq in Hy, Hx. lia.
  - intros (Hx1 & Hx2 & Hy1 & Hy2). exists y. split; [apply in_seq; lia|].
    apply in_map_iff. exists x. split; [reflexivity | apply in_seq; lia].
Qed.

(** The two loops as one pass over the pixels that are not on the
    border. *)
Lemma dilate_flat (pixels : list N) (outW outH : nat) :
  dilate pixels outW outH
  = fold_left (fun dilated p => dilatePixel pixels outW (snd p) dilated (fst p))
              (interior outW outH) pixels.
Proof.
  unfold dilate, interior. generalize pixels at 2 4 as dilated.
  induction (seq 1 (outH - 2)) as [|y ys IH]; intros dilated;
    cbn [fold_left flat_map]; [reflexivity|].
  rewrite fold_left_app, <- IH. f_equal.
  generalize (seq 1 (outW - 2)). intros xs. revert dilated.
  induction xs as [|x xs IHx]; intros dilated; cbn [fold_left map];
    [reflexivity|].
  apply IHx.
Qed.

Lemma dilatePixel_thickened (pixels : list N) (outW outH : nat)
    (dilated : list N) (x y : nat) :
  1 <= x -> x < outW - 1 -> 1 <= y -> y < outH - 1 ->
  dilatePixel pixels outW y dilated x
  = if thickened pixels outW outH x y
    then blacken dilated ((y * outW + x) * 4)
    else dilated.
Proof.
  intros Hx1 Hx2 Hy1 Hy2. unfold dilatePixel, thickened.
  assert (H1 : (1 <=? x) = true) by now apply Nat.leb_le.
  assert (H2 : (x <? outW - 1) = true) by now apply Nat.ltb_lt.
  assert (H3 : (1 <=? y) = true) by now apply Nat.leb_le.
  assert (H4 : (y <? outH - 1) = true) by now apply Nat.ltb_lt.
  rewrite H1, H2, H3, H4. cbn [andb].
  destruct (isZero (pixels !! ((y * outW + x) * 4))); reflexivity.
Qed.

(** Two pixels of a row-major image with the same index are the same
    pixel. *)
Lemma pixel_index_injective (outW x y x' y' : nat) :
  x < outW -> x' < outW -> y * outW + x = y' * outW + x' ->
  x = x' /\ y = y'.
Proof.
  intros Hx Hx' Heq.
  assert (Hy : y = y').
  { destruct (Nat.lt_trichotomy y y') as [Hlt|[Hy|Hgt]]; [|exact Hy|]; nia. }
  subst y'. split; [lia | reflexivity].
Qed.

Lemma dilatedAfter_step (pixels : list N) (outW outH : nat)
    (seen : list (nat * nat)) (dilated : list N) (x y : nat) :
  length pixels = outW * outH * 4 ->
  1 <= x -> x < outW - 1 -> 1 <= y -> y < outH - 1 ->
  dilatedAfter pixels outW outH seen dilated ->
  dilatedAfter pixels outW outH (seen ++ [(x, y)])
               (dilatePixel pixels outW y dilated x).
Proof.
  intros Hsize Hx1 Hx2 Hy1 Hy2 [Hlen Hbytes].
  rewrite (dilatePixel_thickened pixels outW outH dilated x y) by assumption.
  destruct (thickened pixels outW outH x y) eqn:Hthick.
  - split; [now rewrite blacken_length|].
    intros x' y' k Hx' Hk. cbv zeta.
    destruct (Hbytes x' y' k Hx' Hk) as [Hblack Hsame].
    destruct (decide ((x', y') = (x, y))) as [[= -> ->]|Hother].
    + split.
      * intros _ _.
        apply blacken_inside; [exact Hk|]. rewrite Hlen, Hsize. nia.
      * intros [Hnot|Hthin]; [|congruence].
        exfalso. apply Hnot. apply in_or_app. right. now left.
    + assert (Hindex : y' * outW + x' <> y * outW + x).
      { intros Heq. apply Hother.
        destruct (pixel_index_injective outW x' y' x y Hx' ltac:(lia) Heq)
          as [-> ->]. reflexivity. }
      rewrite blacken_outside by lia.
      split.
      * intros Hin. apply in_app_or in Hin as [Hin|[Heq|[]]];
          [now apply Hblack | congruence].
      * intros [Hnot|Hthin]; apply Hsame; [left | now right].
        intros Hin. apply Hnot. apply in_or_app. now left.
  - split; [exact Hlen|].
    intros x' y' k Hx' Hk. cbv zeta.
    destruct (Hbytes x' y' k Hx' Hk) as [Hblack Hsame].
    split.
    + intros Hin Hthick'. apply in_app_or in Hin as [Hin|[[= -> ->]|[]]];
        [now apply Hblack | congruence].
    + intros [Hnot|Hthin]; apply Hsame; [left | now right].
      intros Hin. apply Hnot. apply in_or_app. now left.
Qed.

Lemma dilatedAfter_fold (pixels : list N) (outW outH : nat)
    (todo seen : list (nat * nat)) (dilated : list N) :
  length pixels = outW * outH * 4 ->
  (forall p, In p todo -> In p (interior outW outH)) ->
  dilatedAfter pixels outW outH seen dilated ->
  dilatedAfter pixels outW outH (seen ++ todo)
    (fold_left (fun dilated p => dilatePixel pixels outW (snd p) dilated (fst p))
               todo dilated).
Proof.
  intros Hsize. revert seen dilated.
  induction todo as [|[x y] todo IH]; intros seen dilated Hin Hd;
    cbn [fold_left].
  - now rewrite app_nil_r.
  - replace (seen ++ (x, y) :: todo) with ((seen ++ [(x, y)]) ++ todo)
      by now rewrite <- app_assoc.
    apply IH; [intros p Hp; apply Hin; now right|].
    cbn [fst snd].
    pose proof (Hin (x, y) (or_introl eq_refl)) as Hxy.
    apply In_interior in Hxy as (Hx1 & Hx2 & Hy1 & Hy2).
    now apply dilatedAfter_step.
Qed.

(** The dilation, for an image of [outW] by [outH] pixels: the array keeps
    its length; a pixel becomes black (0, 0, 0, 255) exactly when it is not
    on the border of the image, its red byte is not 0 and the red byte of
    the pixel above, below, left or right of it is 0 in the image before
    the dilation -- a pixel blackened by the dilation does not blacken its
    own neighbours; every other pixel keeps its four bytes. *)
Theorem dilate_spec (pixels : list N) (outW outH : nat) :
  length pixels = outW * outH * 4 ->
  length (dilate pixels outW outH) = length pixels
  /\ forall x y k, x < outW -> k < 4 ->
       dilate pixels outW outH !! ((y * outW + x) * 4 + k)
       = if thickened pixels outW outH x y
         then Some (blackByte k)
         else pixels !! ((y * outW + x) * 4 + k).
Proof.
  intros Hsize. rewrite dilate_flat.
  assert (Hstart : dilatedAfter pixels outW outH [] pixels).
  { split; [reflexivity|]. intros x y k _ _. cbv zeta.
    split; [intros [] | reflexivity]. }
  pose proof (dilatedAfter_fold pixels outW outH (interior outW outH) []
                pixels Hsize (fun p Hp => Hp) Hstart) as [Hlen Hbytes].
  cbn [app] in Hlen, Hbytes.
  split; [exact Hlen|].
  intros x y k Hx Hk.
  destruct (Hbytes x y k Hx Hk) as [Hblack Hsame].
  destruct (thickened pixels outW outH x y) eqn:Hthick.
  - apply Hblack; [|reflexivity].
    apply In_interior. unfold thickened in Hthick.
    rewrite !andb_true_iff, !Nat.leb_le, !Nat.ltb_lt in Hthick. tauto.
  - apply Hsame. now right.
Qed.

End PixelFacts.

(** ** The application script: the blank test of [recognizeHandwriting] *)

Module AppFacts.
Import AppScript.

Lemma someFrom_spec (data : list N) (i : nat) :
  someFrom i data = true
  <-> exists j c, data !! j = Some c /\ (i + j) mod 4 <> 3 /\ c <> 0%N.
Proof.
  revert i. induction data as [|pixel rest IH]; intros i; cbn [someFrom].
  - split; [discriminate | intros (j & c & Hj & _); discriminate].
  - rewrite orb_true_iff, andb_true_iff, !negb_true_iff, Nat.eqb_neq,
      N.eqb_neq, IH.
    split.
    + intros [[Hi Hp]|(j & c & Hj & Hmod & Hc)].
      * exists 0, pixel. rewrite Nat.add_0_r. now split.
      * exists (S j), c. split; [exact Hj|].
        replace (i + S j) with (S i + j) by lia. now split.
    + intros ([|j] & c & Hj & Hmod & Hc).
      * left. cbn in Hj. injection Hj as ->.
        rewrite Nat.add_0_r in Hmod. now split.
      * right. exists j, c. split; [exact Hj|].
        replace (S i + j) with (i + S j) by lia. now split.
Qed.

(** The blank test of [recognizeHandwriting] looks at the colour bytes
    only: it finds content exactly when a red, green or blue byte is not
    0.  An image drawn in black on a transparent canvas -- every colour
    byte 0, which is what the stroke style [#000] of the drawing code
    gives -- is therefore taken for blank whatever its alpha bytes: the
    user is asked to write first and no image is posted.  The test of
    [submitFieldCanvasOffline] accepts the same image as soon as one alpha
    byte is above 10. *)
Theorem recognizeHandwriting_black_ink (page : DrawingPage) (data : list N) :
  drawingCanvas page = Some data ->
  (hasColour data = true
   <-> exists j c, data !! j = Some c /\ j mod 4 <> 3 /\ c <> 0%N)
  /\ ((forall j c, data !! j = Some c -> j mod 4 <> 3 -> c = 0%N) ->
      recognizeHandwriting page
      = ([ShowError Messages.writeFirst], Return tt)
      /\ ((exists k, (10 < nth (4 * k + 3) data 0)%N) ->
          hasContent data = true)).
Proof.
  intros Hcanvas. split; [apply (someFrom_spec data 0)|].
  intros Hblack. split.
  - unfold recognizeHandwriting. rewrite Hcanvas.
    assert (Hnone : hasColour data = false).
    { destruct (hasColour data) eqn:Hc; [|reflexivity].
      apply (someFrom_spec data 0) in Hc as (j & c & Hj & Hmod & Hc).
      exfalso. apply Hc. now apply (Hblack j). }
    now rewrite Hnone.
  - intros Hink. now apply hasContent_spec.
Qed.

End AppFacts.

(** Instances of the properties of the image functions. *)

(** One black pixel on a canvas of three by two: the crop is the whole
    canvas, scaled by three. *)
Lemma preprocessCanvas_crop_witness :
  TesseractImage.preprocessedSize ImageSamples.dot 3 2 = (9, 6)%Z.
Proof.
  destruct (BoundsFacts.preprocessCanvas_crop ImageSamples.dot 3 2
              (TesseractImage.mkStrokeBounds 1 1 1 1 1 1) eq_refl)
    as (_ & _ & _ & _ & _ & _ & _ & Hsize & _).
  exact Hsize.
Defined.

(** The pixel below a black pixel becomes black. *)
Lemma dilate_spec_witness :
  TesseractImage.dilate ImageSamples.blackAbove 3 3 !! 16%nat = Some 0%N
  /\ TesseractImage.dilate ImageSamples.blackAbove 3 3 !! 19%nat = Some 255%N.
Proof.
  destruct (PixelFacts.dilate_spec ImageSamples.blackAbove 3 3 eq_refl)
    as [_ Hbytes].
  split.
  - exact (Hbytes 1%nat 1%nat 0%nat ltac:(lia) ltac:(lia)).
  - exact (Hbytes 1%nat 1%nat 3%nat ltac:(lia) ltac:(lia)).
Defined.

(** Black ink with full alpha: blank for [recognizeHandwriting], drawn for
    [submitFieldCanvasOffline]. *)
Lemma recognizeHandwriting_black_ink_witness :
  let page := AppScript.mkDrawingPage (Some ImageSamples.dot)
                                      (Return (true, [0x0915%N], ""%string)) in
  AppScript.recognizeHandwriting page
  = ([AppScript.ShowError Messages.writeFirst], Return tt)
  /\ hasContent ImageSamples.dot = true.
Proof.
  intros page.
  destruct (AppFacts.recognizeHandwriting_black_ink page ImageSamples.dot
              eq_refl) as [_ Hblack].
  assert (Hcolour : forall j c, ImageSamples.dot !! j = Some c ->
                                j mod 4 <> 3 -> c = 0%N).
  { intros j c Hj Hmod.
    do 24 (destruct j as [|j]; [cbn in Hj, Hmod; congruence|]).
    cbn in Hj. discriminate. }
  destruct (Hblack Hcolour) as [Hrun Hcontent].
  split; [exact Hrun|].
  apply Hcontent. exists 4%nat. cbn. lia.
Defined.
